(** * DeltaTransformer: a shallow embedding of
    packages/metro/src/DeltaBundler/DeltaTransformer.js

    The class is embedded as a state-and-exception monad over the mutable
    fields of one [DeltaTransformer] instance.  The collaborators the class
    only calls (the delta calculator, the dependency graph facade, the
    bundler, [crypto]) are taken as a record of functions over an abstract
    world.  Promises are embedded as an explicit heap of build promises and a
    small-step relation over the callers suspended on them. *)

From stdpp Require Import gmap strings list fin_maps pretty.
From Stdlib Require Import Strings.Byte Strings.Ascii.

Set Warnings "-clear-no-such-hyp".

(** ** JavaScript values used by the class *)

(** [!!x] on a [?string]: [undefined], [null] and the empty string are falsy. *)
Definition truthy (x : option string) : bool :=
  match x with
  | None => false
  | Some s => negb (bool_decide (s = ""))
  end.

(** [a !== b] on two [?string] values. *)
Definition strict_ne (a b : option string) : bool := negb (bool_decide (a = b)).

(** A [Set<string>], kept in insertion order. *)
Module JSSet.
Definition t := list string.
Definition has (x : string) (s : t) : bool := bool_decide (x ∈ s).
Definition add (x : string) (s : t) : t := if has x s then s else s ++ [x].
Definition delete (x : string) (s : t) : t := filter (λ y, y ≠ x) s.
End JSSet.

(** A [Map<number, V>], kept in insertion order: [set] on a key that is
    already present replaces the value and keeps the key's position. *)
Module JSMap.
Section Operations.
Context {V : Type}.

Definition t := list (nat * V).

Fixpoint set (k : nat) (v : V) (m : list (nat * V)) : list (nat * V) :=
  match m with
  | [] => [(k, v)]
  | (k', v') :: m' =>
      if bool_decide (k = k') then (k, v) :: m' else (k', v') :: set k v m'
  end.

Fixpoint get (k : nat) (m : list (nat * V)) : option V :=
  match m with
  | [] => None
  | (k', v') :: m' => if bool_decide (k = k') then Some v' else get k m'
  end.

Definition keys (m : list (nat * V)) : list nat := m.*1.

(** [new Map(entries)] *)
Definition of_entries (entries : list (nat * V)) : list (nat * V) :=
  foldl (λ m kv, set kv.1 kv.2 m) [] entries.
End Operations.
End JSMap.

(** [Buffer.toString('hex')]: two lower-case digits per byte. *)
Definition hexDigit (n : nat) : Ascii.ascii :=
  match n with
  | 0 => "0" | 1 => "1" | 2 => "2" | 3 => "3" | 4 => "4" | 5 => "5"
  | 6 => "6" | 7 => "7" | 8 => "8" | 9 => "9" | 10 => "a" | 11 => "b"
  | 12 => "c" | 13 => "d" | 14 => "e" | _ => "f"
  end%char.

Definition byte_toHex (b : byte) : string :=
  String (hexDigit (Byte.to_nat b `div` 16))
    (String (hexDigit (Byte.to_nat b `mod` 16)) EmptyString).

Fixpoint toString_hex (buf : list byte) : string :=
  match buf with
  | [] => EmptyString
  | b :: buf' => byte_toHex b +:+ toString_hex buf'
  end.

(** The big-endian number a buffer stands for. *)
Fixpoint buffer_value (buf : list byte) : N :=
  match buf with
  | [] => 0
  | b :: buf' => (Byte.to_N b * 256 ^ N.of_nat (length buf') + buffer_value buf')%N
  end.

(** An upper bound on the information a hex token can carry: four bits per
    digit. *)
Definition hex_token_bits (token : string) : nat := 4 * String.length token.

(** ** Data model (the Flow types of the file) *)

Definition MetroSourceMapSegmentTuple : Type := list Z * option string.

Inductive DeltaEntryType := asset | module | script | comment | require.

Module DeltaEntry.
Record t := mk {
  code : string;
  id : nat;
  map : list MetroSourceMapSegmentTuple;
  name : string;
  path : string;
  source : string;
  type : DeltaEntryType;
}.
End DeltaEntry.

(** [Map<number, ?DeltaEntry>]; [None] is the [null] of a deleted module. *)
Abbreviation DeltaEntries := (list (nat * option DeltaEntry.t)).

Module DeltaTransformResponse.
Record t := mk {
  id : string;
  pre : DeltaEntries;
  post : DeltaEntries;
  delta : DeltaEntries;
  reset : bool;
}.
End DeltaTransformResponse.

Module Output.
Record t := mk {
  code : string;
  map : list MetroSourceMapSegmentTuple;
  source : string;
  type : DeltaEntryType;
}.
End Output.

(** [DependencyEdge] of ./traverseDependencies: [dependencies] maps the name
    written in the importing code to the imported path. *)
Module DependencyEdge.
Record t := mk {
  dependencies : list (string * string);
  inverseDependencies : list string;
  path : string;
  output : Output.t;
}.
End DependencyEdge.

(** [DependencyEdges = Map<string, DependencyEdge>] *)
Abbreviation DependencyEdges := (gmap string DependencyEdge.t).

(** The options of the JS transformer the class reads. *)
Module JSTransformerOptions.
Record t := mk { dev : bool; minify : bool }.
End JSTransformerOptions.

Module BundleOptions.
Record t := mk {
  dev : bool;
  entryFile : string;
  platform : option string;
  runBeforeMainModule : list string;
  sourceMapUrl : option string;
}.
End BundleOptions.

Module MainOptions.
Record t := mk {
  getPolyfills : option string → list string;
  polyfillModuleNames : list string;
}.
End MainOptions.

(** What [DeltaCalculator.getDelta] resolves to: [modified] is a
    [Map<string, DependencyEdge>] and [deleted] a [Set<string>], both in
    the calculator's enumeration order. *)
Module DeltaResult.
Record t := mk {
  modified : list (string * DependencyEdge.t);
  deleted : list string;
  reset : bool;
}.
End DeltaResult.

(** What [module.read(transformOptions)] resolves to. *)
Module ReadResult.
Record t := mk {
  code : string;
  map : list MetroSourceMapSegmentTuple;
  source : string;
}.
End ReadResult.

(** ** Exceptions and rejected promises *)

Definition Error := string.

Inductive Result (A : Type) :=
  | Ok (a : A)
  | Throw (e : Error).
Arguments Ok {A} a.
Arguments Throw {A} e.

Definition is_Ok {A} (r : Result A) : bool :=
  match r with Ok _ => true | Throw _ => false end.

(** ** The module id factory *)

(** [this._getModuleId : (path: string) => number] is a closure over private
    state; [bundleOptions.createModuleIdFactory] may supply any such closure,
    so the class is embedded over this interface. *)
Class ModuleIdFactory (A : Type) := {
  createModuleId : string → A → Result nat * A;
}.

(** Modelled from the spec: ../lib/createModuleIdFactory is not part of the
    sources.  The first call for a path assigns the next unused integer in
    allocation order, later calls for the same path return the same value,
    and nothing is ever removed; the base is left to the implementation. *)
Module Allocator.
Record t := mk {
  fileToIdMap : gmap string nat;
  nextId : nat;
}.

Definition createModuleIdFactory (base : nat) : t :=
  {| fileToIdMap := ∅; nextId := base |}.

Definition getModuleId (path : string) (a : t) : nat * t :=
  match fileToIdMap a !! path with
  | Some id => (id, a)
  | None =>
      (nextId a,
       {| fileToIdMap := <[path := nextId a]> (fileToIdMap a);
          nextId := S (nextId a) |})
  end.

(** Requesting ids for a sequence of paths, left to right. *)
Definition getModuleIds (paths : list string) (a : t) : t :=
  foldl (λ a path, (getModuleId path a).2) a paths.

(** Every assigned id is below [nextId] and no two paths share one. *)
Definition wf (a : t) : Prop :=
  (∀ p i, fileToIdMap a !! p = Some i → i < nextId a) ∧
  (∀ p q i, fileToIdMap a !! p = Some i → fileToIdMap a !! q = Some i → p = q).
End Allocator.

#[export] Instance allocatorFactory : ModuleIdFactory Allocator.t := {
  createModuleId path a :=
    let '(id, a') := Allocator.getModuleId path a in (Ok id, a');
}.

(** ** Collaborators *)

(** The objects the class calls but does not define, as functions over an
    abstract world [W] (file system, workers, the calculator's graph) and an
    entropy pool [R].  A call that returns a promise yields [Throw] when the
    promise rejects. *)
Record Services (W R : Type) := {
  (** [this._deltaCalculator.getDelta({reset})] *)
  calculator_getDelta : bool → W → Result DeltaResult.t * W;
  (** [this._deltaCalculator.getGraph().dependencies]: the calculator's live
      map, read when it is used *)
  calculator_getGraph : W → DependencyEdges;
  (** [this._deltaCalculator.getTransformerOptions()] *)
  calculator_getTransformerOptions : W → Result JSTransformerOptions.t * W;
  (** [.path] of [this._dependencyGraph.createPolyfill({file, id, ..})] *)
  createPolyfill_path : string → string;
  (** [module.read(transformOptions)] of such a polyfill module *)
  module_read : string → JSTransformerOptions.t → W → Result ReadResult.t * W;
  (** [this._dependencyGraph.getHasteName(path)] *)
  getHasteName : string → string;
  (** [this._bundler.minifyModule(path, code, map)] *)
  minifyModule :
    string → string → list MetroSourceMapSegmentTuple → W →
    Result (string * list MetroSourceMapSegmentTuple) * W;
  (** the text [wrapModule] produces from an edge, the ids of its
      dependencies and the [dev] flag *)
  wrappedCode : DependencyEdge.t → list nat → bool → string;
  (** [getPreludeCode({isDev})] *)
  getPreludeCode : bool → string;
  (** [defaults.moduleSystem] *)
  moduleSystem : string;
  (** one byte of [crypto.randomBytes] *)
  randomByte : R → byte * R;
  (** the event loop: which of the suspended [_transformModule] calls of a
      [Promise.all] is resumed next, given how many remain *)
  resumeNext : W → nat → nat;
}.
Arguments calculator_getDelta {W R}.
Arguments calculator_getGraph {W R}.
Arguments calculator_getTransformerOptions {W R}.
Arguments createPolyfill_path {W R}.
Arguments module_read {W R}.
Arguments getHasteName {W R}.
Arguments minifyModule {W R}.
Arguments wrappedCode {W R}.
Arguments getPreludeCode {W R}.
Arguments moduleSystem {W R}.
Arguments randomByte {W R}.
Arguments resumeNext {W R}.

(** ** Observable events *)

(** The calls whose order the specification speaks about. *)
Inductive Event :=
  | EvCalculatorGetDelta (reset : bool)
  | EvGetModuleId (path : string)
  | EvTransformModule (path : string)
  | EvBuildStarted (promise : nat).

#[export] Instance Event_eq_dec : EqDecision Event.
Proof. solve_decision. Defined.

(** ** The instance and its monad *)

(** The mutable part of a [DeltaTransformer]: its two private fields, the
    private state of [this._getModuleId], and the world around it. *)
Record DeltaTransformer (W R A : Type) := {
  _currentBuildPromise : option nat;
  _lastSequenceId : option string;
  _getModuleId : A;
  world : W;
  entropy : R;
  trace : list Event;
}.
Arguments _currentBuildPromise {W R A}.
Arguments _lastSequenceId {W R A}.
Arguments _getModuleId {W R A}.
Arguments world {W R A}.
Arguments entropy {W R A}.
Arguments trace {W R A}.

Section Methods.
Context {W R A : Type} `{!ModuleIdFactory A}.
Context (svc : Services W R).
Context (options : MainOptions.t) (bundleOptions : BundleOptions.t).

Abbreviation this := (DeltaTransformer W R A).

(** A computation on the instance that returns or throws. *)
Definition M (X : Type) : Type := this → Result X * this.

#[export] Instance M_ret : MRet M := λ X x s, (Ok x, s).
#[export] Instance M_bind : MBind M := λ X Y f m s,
  match m s with
  | (Ok x, s') => f x s'
  | (Throw e, s') => (Throw e, s')
  end.

Definition throw {X} (e : Error) : M X := λ s, (Throw e, s).

(** [await] of a promise that already settled with [r]. *)
Definition await {X} (r : Result X) : M X := λ s, (r, s).

Definition emit (ev : Event) : M unit := λ s,
  (Ok (),
   {| _currentBuildPromise := _currentBuildPromise s;
      _lastSequenceId := _lastSequenceId s;
      _getModuleId := _getModuleId s;
      world := world s; entropy := entropy s;
      trace := trace s ++ [ev] |}).

(** A call into the world. *)
Definition call {X} (f : W → Result X * W) : M X := λ s,
  let '(r, w) := f (world s) in
  (r,
   {| _currentBuildPromise := _currentBuildPromise s;
      _lastSequenceId := _lastSequenceId s;
      _getModuleId := _getModuleId s;
      world := w; entropy := entropy s; trace := trace s |}).

(** A call the caller keeps as a promise: the request is issued now, its
    outcome is looked at when the promise is awaited. *)
Definition issue {X} (f : W → Result X * W) : M (Result X) := λ s,
  let '(r, w) := f (world s) in
  (Ok r,
   {| _currentBuildPromise := _currentBuildPromise s;
      _lastSequenceId := _lastSequenceId s;
      _getModuleId := _getModuleId s;
      world := w; entropy := entropy s; trace := trace s |}).

Definition getWorld : M W := λ s, (Ok (world s), s).

(** [this._getModuleId(path)] *)
Definition getModuleId (path : string) : M nat := λ s,
  let '(r, a) := createModuleId path (_getModuleId s) in
  (r,
   {| _currentBuildPromise := _currentBuildPromise s;
      _lastSequenceId := _lastSequenceId s;
      _getModuleId := a;
      world := world s; entropy := entropy s;
      trace := trace s ++ [EvGetModuleId path] |}).

(** [crypto.randomBytes(n)] *)
Fixpoint draw (n : nat) (r : R) : list byte * R :=
  match n with
  | 0 => ([], r)
  | S n' =>
      let '(b, r') := randomByte svc r in
      let '(bs, r'') := draw n' r' in
      (b :: bs, r'')
  end.

Definition randomBytes (n : nat) : M (list byte) := λ s,
  let '(bs, r) := draw n (entropy s) in
  (Ok bs,
   {| _currentBuildPromise := _currentBuildPromise s;
      _lastSequenceId := _lastSequenceId s;
      _getModuleId := _getModuleId s;
      world := world s; entropy := r; trace := trace s |}).

(** [this._lastSequenceId = x] *)
Definition set_lastSequenceId (x : option string) : M unit := λ s,
  (Ok (),
   {| _currentBuildPromise := _currentBuildPromise s;
      _lastSequenceId := x;
      _getModuleId := _getModuleId s;
      world := world s; entropy := entropy s; trace := trace s |}).

(** [this._currentBuildPromise = x] *)
Definition set_currentBuildPromise (x : option nat) (s : this) : this :=
  {| _currentBuildPromise := x;
     _lastSequenceId := _lastSequenceId s;
     _getModuleId := _getModuleId s;
     world := world s; entropy := entropy s; trace := trace s |}.

Definition log (ev : Event) (s : this) : this := (emit ev s).2.

(** [xs.forEach(f)] and a left-to-right loop with an accumulator. *)
Fixpoint forEach {X} (f : X → M unit) (xs : list X) : M unit :=
  match xs with
  | [] => mret ()
  | x :: xs' => f x;; forEach f xs'
  end.

Fixpoint foldlM {X Y} (f : Y → X → M Y) (acc : Y) (xs : list X) : M Y :=
  match xs with
  | [] => mret acc
  | x :: xs' => acc' ← f acc x; foldlM f acc' xs'
  end.

(** *** [_getDeps] and [_getDependencies] (lines 273-307)

    [deps] is the one [Set] every recursive call adds to; it is threaded
    through the calls.  The recursion of the source is bounded here by
    [fuel]; [None] means the bound was hit. *)
Fixpoint _getDeps (fuel : nat) (path : string) (edges : DependencyEdges)
    (deps : JSSet.t) : option JSSet.t :=
  match fuel with
  | 0 => None
  | S fuel' =>
      if JSSet.has path deps then Some deps
      else
        match edges !! path with
        | None => Some deps
        | Some edge =>
            foldl
              (λ acc dependency,
                 deps' ← acc; _getDeps fuel' dependency.2 edges deps')
              (Some (JSSet.add path deps))
              (DependencyEdge.dependencies edge)
        end
  end.

Definition _getDependencies (edges : DependencyEdges) (path : string)
    : option JSSet.t :=
  dependencies ← _getDeps (S (size edges)) path edges [];
  Some (JSSet.delete path dependencies).

(** *** [wrapModule] of ./Serializers/helpers/js

    Modelled from the spec: the helper is not part of the sources.  It
    wraps the edge's code with boilerplate that embeds the module id of
    each of the edge's dependencies, which it asks of [createModuleId]. *)
Definition wrapModule (edge : DependencyEdge.t) (dev : bool) : M string :=
  ids ← mapM (λ dependency, getModuleId dependency.2)
            (DependencyEdge.dependencies edge);
  mret (wrappedCode svc edge ids dev).

(** *** [_transformModule] (lines 440-474)

    An [async] function runs up to its first [await] when it is called.
    With [minify] off there is no [await] and the whole body runs at the
    call; with [minify] on, the request to the minifier is issued at the
    call and the rest runs when the event loop resumes the function. *)
Record Suspended := {
  suspended_edge : DependencyEdge.t;
  suspended_name : string;
  suspended_minified : Result (string * list MetroSourceMapSegmentTuple);
}.

Inductive Started :=
  | Returned (entry : nat * option DeltaEntry.t)
  | Awaiting (k : Suspended).

(** lines 460-473 *)
Definition _transformModule_finish (edge : DependencyEdge.t) (name : string)
    (minified : string * list MetroSourceMapSegmentTuple)
    : M (nat * option DeltaEntry.t) :=
  id ← getModuleId (DependencyEdge.path edge);
  mret (id,
        Some {| DeltaEntry.code := minified.1;
                DeltaEntry.id := id;
                DeltaEntry.map := minified.2;
                DeltaEntry.name := name;
                DeltaEntry.source := Output.source (DependencyEdge.output edge);
                DeltaEntry.path := DependencyEdge.path edge;
                DeltaEntry.type := Output.type (DependencyEdge.output edge) |}).

(** lines 445-458 *)
Definition _transformModule_call (transformOptions : JSTransformerOptions.t)
    (edge : DependencyEdge.t) : M Started :=
  emit (EvTransformModule (DependencyEdge.path edge));;
  let name := getHasteName svc (DependencyEdge.path edge) in
  wrapped ← wrapModule edge (JSTransformerOptions.dev transformOptions);
  if JSTransformerOptions.minify transformOptions then
    minified ← issue (minifyModule svc (DependencyEdge.path edge) wrapped
                        (Output.map (DependencyEdge.output edge)));
    mret (Awaiting {| suspended_edge := edge; suspended_name := name;
                      suspended_minified := minified |})
  else
    entry ← _transformModule_finish edge name
              (wrapped, Output.map (DependencyEdge.output edge));
    mret (Returned entry).

Definition _transformModule_resume (k : Suspended)
    : M (nat * option DeltaEntry.t) :=
  minified ← await (suspended_minified k);
  _transformModule_finish (suspended_edge k) (suspended_name k) minified.

(** *** [_transformModules] (lines 405-417)

    [modules.map(...)] starts every call in array order; [Promise.all]
    then waits for the suspended ones, which the event loop resumes in an
    order of its own; the array it resolves to is in the order of
    [modules] whatever that order was.  It rejects with the first
    rejection it sees. *)
Fixpoint resumeOrder {X} (pick : nat → nat) (n : nat) (pending : list X)
    : list X :=
  match n with
  | 0 => []
  | S n' =>
      match pending !! (pick n `mod` length pending) with
      | Some x =>
          x :: resumeOrder pick n' (delete (pick n `mod` length pending) pending)
      | None => []
      end
  end.

Definition slot (started : Started) : option (nat * option DeltaEntry.t) :=
  match started with
  | Returned entry => Some entry
  | Awaiting _ => None
  end.

Fixpoint suspendedAt (i : nat) (started : list Started)
    : list (nat * Suspended) :=
  match started with
  | [] => []
  | Returned _ :: rest => suspendedAt (S i) rest
  | Awaiting k :: rest => (i, k) :: suspendedAt (S i) rest
  end.

Definition Promise_all (started : list Started)
    : M (list (nat * option DeltaEntry.t)) :=
  w ← getWorld;
  let pending := suspendedAt 0 started in
  slots ← foldlM
            (λ slots ik,
               entry ← _transformModule_resume ik.2;
               mret (<[ik.1 := Some entry]> slots))
            (slot <$> started)
            (resumeOrder (resumeNext svc w) (length pending) pending);
  match mapM (λ x : option (nat * option DeltaEntry.t), x) slots with
  | Some entries => mret entries
  | None => throw "Promise.all: a promise never settled"
  end.

Definition _transformModules (modules : list DependencyEdge.t)
    (transformOptions : JSTransformerOptions.t) : M DeltaEntries :=
  started ← mapM (_transformModule_call transformOptions) modules;
  entries ← Promise_all started;
  mret (JSMap.of_entries entries).

(** *** [_createEdgeFromScript] (lines 419-438)

    [file] names the polyfill the module was created for. *)
Definition _createEdgeFromScript (file : string)
    (transformOptions : JSTransformerOptions.t) : M DependencyEdge.t :=
  result ← call (module_read svc file transformOptions);
  mret {| DependencyEdge.dependencies := [];
          DependencyEdge.inverseDependencies := [];
          DependencyEdge.path := createPolyfill_path svc file;
          DependencyEdge.output :=
            {| Output.code := ReadResult.code result;
               Output.map := ReadResult.map result;
               Output.source := ReadResult.source result;
               Output.type := script |} |}.

(** *** [_getPrelude] (lines 352-356) *)
Definition _getPrelude (id : nat) : DeltaEntry.t :=
  let code := getPreludeCode svc (BundleOptions.dev bundleOptions) in
  let name := "__prelude__" in
  {| DeltaEntry.code := code; DeltaEntry.id := id; DeltaEntry.map := [];
     DeltaEntry.name := name; DeltaEntry.source := code;
     DeltaEntry.path := name; DeltaEntry.type := script |}.

(** *** [_getPrepend] (lines 309-350)

    The reads of the polyfill modules are started in array order. *)
Definition _getPrepend (transformOptions : JSTransformerOptions.t)
    : M DeltaEntries :=
  preludeId ← getModuleId "__prelude__";
  let polyfillModuleNames :=
    MainOptions.getPolyfills options (BundleOptions.platform bundleOptions)
      ++ MainOptions.polyfillModuleNames options in
  let modules := [moduleSystem svc] ++ polyfillModuleNames in
  edges ← mapM (λ file, _createEdgeFromScript file transformOptions) modules;
  transformedModules ← _transformModules edges transformOptions;
  mret (JSMap.of_entries
          ((preludeId, Some (_getPrelude preludeId)) :: transformedModules)).

(** *** [_getAppend] (lines 358-403)

    [dependencyEdges] is a reference to the calculator's map; it is looked
    into when the filter runs. *)
Definition requireEntry (moduleId : nat) : nat * option DeltaEntry.t :=
  let code := "require(" +:+ pretty moduleId +:+ ");" in
  let name := "require-" +:+ pretty moduleId in
  let path := name +:+ ".js" in
  (moduleId,
   Some {| DeltaEntry.code := code; DeltaEntry.id := moduleId;
           DeltaEntry.map := []; DeltaEntry.name := name;
           DeltaEntry.source := code; DeltaEntry.path := path;
           DeltaEntry.type := require |}).

Definition sourceMapEntry (id : nat) (sourceMapUrl : string) : DeltaEntry.t :=
  let code := "//# sourceMappingURL=" +:+ sourceMapUrl in
  {| DeltaEntry.code := code; DeltaEntry.id := id; DeltaEntry.map := [];
     DeltaEntry.name := "sourcemap.js"; DeltaEntry.path := "/sourcemap.js";
     DeltaEntry.source := code; DeltaEntry.type := comment |}.

Definition appendedPaths (dependencyEdges : DependencyEdges) : list string :=
  filter (λ path, is_Some (dependencyEdges !! path))
    (BundleOptions.runBeforeMainModule bundleOptions
       ++ [BundleOptions.entryFile bundleOptions]).

Definition _getAppend (dependencyEdges : W → DependencyEdges)
    : M DeltaEntries :=
  w ← getWorld;
  moduleIds ← mapM getModuleId (appendedPaths (dependencyEdges w));
  let append := JSMap.of_entries (requireEntry <$> moduleIds) in
  if truthy (BundleOptions.sourceMapUrl bundleOptions) then
    id ← getModuleId "/sourcemap.js";
    mret (JSMap.set id
            (Some (sourceMapEntry id
                     (default "" (BundleOptions.sourceMapUrl bundleOptions))))
            append)
  else mret append.

(** *** [_getDelta] (lines 220-271)

    The call runs up to the first [await]: the request to the calculator
    is issued by the call itself.  The rest runs once the calculator has
    answered. *)
Definition _getDelta_call (resetDelta : bool) : M DeltaResult.t :=
  emit (EvCalculatorGetDelta resetDelta);;
  call (calculator_getDelta svc resetDelta).

(** lines 239-242: "Precalculate all module ids sequentially." *)
Definition precalculateModuleIds (modules : list DependencyEdge.t) : M unit :=
  forEach (λ module, getModuleId (DependencyEdge.path module);; mret ()) modules.

(** lines 251-253: [deleted.forEach(id => modifiedDelta.set(.., null))] *)
Definition setDeleted (modifiedDelta : DeltaEntries) (deleted : list string)
    : M DeltaEntries :=
  foldlM (λ modifiedDelta id,
            moduleId ← getModuleId id;
            mret (JSMap.set moduleId None modifiedDelta))
         modifiedDelta deleted.

Definition _getDelta_resume (answer : Result DeltaResult.t)
    : M DeltaTransformResponse.t :=
  d ← await answer;
  let graph := calculator_getGraph svc in
  transformerOptions ← call (calculator_getTransformerOptions svc);
  prependSources ←
    (if DeltaResult.reset d then _getPrepend transformerOptions else mret []);
  let modules := (DeltaResult.modified d).*2 in
  precalculateModuleIds modules;;
  modifiedDelta ← _transformModules modules transformerOptions;
  modifiedDelta ← setDeleted modifiedDelta (DeltaResult.deleted d);
  appendSources ←
    (if DeltaResult.reset d then _getAppend graph else mret []);
  bytes ← randomBytes 8;
  set_lastSequenceId (Some (toString_hex bytes));;
  mret {| DeltaTransformResponse.pre := prependSources;
          DeltaTransformResponse.post := appendSources;
          DeltaTransformResponse.delta := modifiedDelta;
          DeltaTransformResponse.reset := DeltaResult.reset d;
          DeltaTransformResponse.id := toString_hex bytes |}.

(** The whole of [_getDelta] when nothing else runs in between. *)
Definition _getDelta (resetDelta : bool) : M DeltaTransformResponse.t := λ s,
  let '(answer, s') := _getDelta_call resetDelta s in
  _getDelta_resume answer s'.

(** *** [getDelta] (lines 195-218) and the promises it waits on

    A build promise is what [this._getDelta({reset})] returned: the answer
    of the calculator it waits for and, once it settled, its outcome. *)
Record BuildPromise := {
  build_answer : Result DeltaResult.t;
  build_outcome : option (Result DeltaTransformResponse.t);
}.

(** Where a call of [getDelta] stands: suspended at the [await] of line 204
    or of line 212, or finished. *)
Inductive Caller :=
  | AtLine204 (reset : bool) (awaited : nat)
  | AtLine212 (awaited : nat)
  | Finished (result : Result DeltaTransformResponse.t).

Record Runtime := {
  instance : this;
  promises : list BuildPromise;
  callers : list Caller;
}.

(** line 198 *)
Definition resetRequested (s : this) (sequenceId : option string) : bool :=
  truthy (_lastSequenceId s) && strict_ne sequenceId (_lastSequenceId s).

(** line 207, up to the [await] of line 212 *)
Definition getDelta_build (reset : bool) (rt : Runtime) : Runtime * Caller :=
  let p := length (promises rt) in
  let '(answer, s) :=
    _getDelta_call reset (log (EvBuildStarted p) (instance rt)) in
  ({| instance := set_currentBuildPromise (Some p) s;
      promises :=
        promises rt ++ [{| build_answer := answer; build_outcome := None |}];
      callers := callers rt |},
   AtLine212 p).

(** lines 198-207: the call, up to its first [await] *)
Definition getDelta_call (sequenceId : option string) (rt : Runtime)
    : Runtime :=
  let reset := resetRequested (instance rt) sequenceId in
  match _currentBuildPromise (instance rt) with
  | Some p =>
      {| instance := instance rt; promises := promises rt;
         callers := callers rt ++ [AtLine204 reset p] |}
  | None =>
      let '(rt', caller) := getDelta_build reset rt in
      {| instance := instance rt'; promises := promises rt';
         callers := callers rt' ++ [caller] |}
  end.

(** The caller resumes once the promise it awaits has settled with
    [outcome]: after line 204 it goes on to line 207 unless the [await]
    threw; after line 212 the [finally] block clears the field and the
    outcome is returned or rethrown. *)
Definition getDelta_resume (caller : Caller)
    (outcome : Result DeltaTransformResponse.t) (rt : Runtime)
    : Runtime * Caller :=
  match caller with
  | AtLine204 reset _ =>
      match outcome with
      | Ok _ => getDelta_build reset rt
      | Throw e => (rt, Finished (Throw e))
      end
  | AtLine212 _ =>
      ({| instance := set_currentBuildPromise None (instance rt);
          promises := promises rt; callers := callers rt |},
       Finished outcome)
  | Finished _ => (rt, caller)
  end.

Definition awaited (caller : Caller) : option nat :=
  match caller with
  | AtLine204 _ p | AtLine212 p => Some p
  | Finished _ => None
  end.

(** What can happen next: a new call of [getDelta], the build behind a
    pending promise running to its end, or a suspended caller being
    resumed. *)
Inductive Action :=
  | Call (sequenceId : option string)
  | Settle (promise : nat)
  | Resume (caller : nat).

Definition step (action : Action) (rt : Runtime) : option Runtime :=
  match action with
  | Call sequenceId => Some (getDelta_call sequenceId rt)
  | Settle p =>
      build ← promises rt !! p;
      match build_outcome build with
      | Some _ => None
      | None =>
          let '(outcome, s) :=
            _getDelta_resume (build_answer build) (instance rt) in
          Some {| instance := s;
                  promises :=
                    <[p := {| build_answer := build_answer build;
                              build_outcome := Some outcome |}]> (promises rt);
                  callers := callers rt |}
      end
  | Resume c =>
      caller ← callers rt !! c;
      p ← awaited caller;
      build ← promises rt !! p;
      outcome ← build_outcome build;
      let '(rt', caller') := getDelta_resume caller outcome rt in
      Some {| instance := instance rt'; promises := promises rt';
              callers := <[c := caller']> (callers rt') |}
  end.

Fixpoint run (actions : list Action) (rt : Runtime) : option Runtime :=
  match actions with
  | [] => Some rt
  | action :: actions' => rt' ← step action rt; run actions' rt'
  end.

(** A fresh instance: both fields are [undefined]. *)
Definition create (getModuleId0 : A) (w : W) (r : R) : Runtime :=
  {| instance :=
       {| _currentBuildPromise := None; _lastSequenceId := None;
          _getModuleId := getModuleId0; world := w; entropy := r;
          trace := [] |};
     promises := []; callers := [] |}.

Definition reachable (rt : Runtime) : Prop :=
  ∃ getModuleId0 w r actions,
    run actions (create getModuleId0 w r) = Some rt.

End Methods.

Arguments M W R A X : clear implicits.
Arguments draw {W R} svc n r : simpl never.
Arguments toString_hex buf : simpl never.
Arguments Runtime W R A : clear implicits.


(** ** The queries on the graph (lines 155-188) *)

Section Queries.
Context {W R A : Type} `{!ModuleIdFactory A}.
Context (svc : Services W R).
Context (options : MainOptions.t) (bundleOptions : BundleOptions.t).

(** [this._getDependencies] (lines 273-283) as the closure it is: it asks
    the calculator for its graph every time it is called. *)
Definition this_getDependencies (w : W) (path : string) : option JSSet.t :=
  _getDependencies (calculator_getGraph svc w) path.

(** [getDependenciesFn] (lines 155-163).  The build of line 159 is started
    directly, not through [getDelta]; it is taken here with nothing else
    running during its [await]s. *)
Definition getDependenciesFn : M W R A (W → string → option JSSet.t) :=
  w ← getWorld;
  (if bool_decide (size (calculator_getGraph svc w) = 0) then
     _getDelta svc options bundleOptions false;; mret ()
   else mret ());;
  mret this_getDependencies.

(** [getInverseDependencies] (lines 169-188).  [graph] is taken before the
    build of line 175, which, as the comment above it has it, initialises
    the graph the method already holds: [graph.dependencies] is the
    calculator's live map, and the loop of line 180 sees what the build
    put in it.  [entries] is the order in which the map enumerates its
    entries. *)
Definition getInverseDependencies
    (entries : DependencyEdges → list (string * DependencyEdge.t))
    : M W R A (list (nat * list nat)) :=
  w ← getWorld;
  (if bool_decide (size (calculator_getGraph svc w) = 0) then
     _getDelta svc options bundleOptions false;; mret ()
   else mret ());;
  w' ← getWorld;
  foldlM (λ output entry,
            id ← getModuleId entry.1;
            ids ← mapM getModuleId
                    (DependencyEdge.inverseDependencies entry.2);
            mret (JSMap.set id ids output))
         [] (entries (calculator_getGraph svc w')).

End Queries.

(** ** The constructor and the id factories of a process (lines 59, 89-117)

    Line 59 makes one id factory when the file is loaded.  The constructor
    gives a transformer that factory unless [isolateModuleIDs] is set, in
    which case it calls [bundleOptions.createModuleIdFactory], or the
    default one, for a factory of its own.  The transformers that hold the
    factory of line 59 hold one and the same closure: a request made
    through one of them is seen by all.  Each transformer has the world
    of its own collaborators; the listener that line 116 registers is kept
    by the calculator's emitter and is not part of this state. *)
Section Process.
Context {W R A : Type} `{!ModuleIdFactory A}.

(** A transformer with what it was constructed on. *)
Record Transformer (Ids : Type) := {
  _bundler : Services W R;
  _options : MainOptions.t;
  _bundleOptions : BundleOptions.t;
  runtime : Runtime W R Ids;
}.
Arguments _bundler {Ids}.
Arguments _options {Ids}.
Arguments _bundleOptions {Ids}.
Arguments runtime {Ids}.

(** The state of the file in a process: the factory of line 59, the
    transformers constructed with it, and those constructed with a factory
    of their own. *)
Record Process := {
  globalCreateModuleId : Allocator.t;
  coupled : list (Transformer Allocator.t);
  isolated : list (Transformer A);
}.

(** lines 89-117.  [factory] is what
    [(bundleOptions.createModuleIdFactory || createModuleIdFactory)()]
    returns. *)
Definition constructor (bundler : Services W R) (options : MainOptions.t)
    (bundleOptions : BundleOptions.t) (isolateModuleIDs : bool) (factory : A)
    (w : W) (r : R) (P : Process) : Process :=
  if isolateModuleIDs then
    {| globalCreateModuleId := globalCreateModuleId P;
       coupled := coupled P;
       isolated :=
         isolated P
           ++ [{| _bundler := bundler; _options := options;
                  _bundleOptions := bundleOptions;
                  runtime := create factory w r |}] |}
  else
    {| globalCreateModuleId := globalCreateModuleId P;
       coupled :=
         coupled P
           ++ [{| _bundler := bundler; _options := options;
                  _bundleOptions := bundleOptions;
                  runtime := create (globalCreateModuleId P) w r |}];
       isolated := isolated P |}.

(** [this._getModuleId] of a transformer that holds the factory of line
    59 is that factory as it is now. *)
Definition withIds (a : Allocator.t) (rt : Runtime W R Allocator.t)
    : Runtime W R Allocator.t :=
  {| instance :=
       {| _currentBuildPromise := _currentBuildPromise (instance rt);
          _lastSequenceId := _lastSequenceId (instance rt);
          _getModuleId := a;
          world := world (instance rt);
          entropy := entropy (instance rt);
          trace := trace (instance rt) |};
     promises := promises rt; callers := callers rt |}.

Inductive Target :=
  | Coupled (i : nat)
  | Isolated (i : nat).

(** One step of one transformer of the process. *)
Definition act (target : Target) (action : Action) (P : Process)
    : option Process :=
  match target with
  | Coupled i =>
      t ← coupled P !! i;
      rt ← step (_bundler t) (_options t) (_bundleOptions t) action
             (withIds (globalCreateModuleId P) (runtime t));
      Some {| globalCreateModuleId := _getModuleId (instance rt);
              coupled :=
                <[i := {| _bundler := _bundler t; _options := _options t;
                          _bundleOptions := _bundleOptions t;
                          runtime := rt |}]> (coupled P);
              isolated := isolated P |}
  | Isolated i =>
      t ← isolated P !! i;
      rt ← step (_bundler t) (_options t) (_bundleOptions t) action
             (runtime t);
      Some {| globalCreateModuleId := globalCreateModuleId P;
              coupled := coupled P;
              isolated :=
                <[i := {| _bundler := _bundler t; _options := _options t;
                          _bundleOptions := _bundleOptions t;
                          runtime := rt |}]> (isolated P) |}
  end.

Fixpoint acts (steps : list (Target * Action)) (P : Process)
    : option Process :=
  match steps with
  | [] => Some P
  | (target, action) :: steps' => P' ← act target action P; acts steps' P'
  end.

Definition isIsolated (target : Target) : bool :=
  match target with Isolated _ => true | Coupled _ => false end.

#[export] Instance Target_eq_dec : EqDecision Target.
Proof. solve_decision. Defined.


End Process.

Arguments Process W R A : clear implicits.
Arguments Transformer W R Ids : clear implicits.
Arguments _bundler {W R Ids}.
Arguments _options {W R Ids}.
Arguments _bundleOptions {W R Ids}.
Arguments runtime {W R Ids}.
Arguments globalCreateModuleId {W R A}.
Arguments coupled {W R A}.
Arguments isolated {W R A}.

(** ** Vocabulary of the statements *)

(** [y] is one of the dependencies recorded for [x] in the snapshot. *)
Definition dependsOn (edges : DependencyEdges) (x y : string) : Prop :=
  ∃ edge, edges !! x = Some edge ∧ y ∈ (DependencyEdge.dependencies edge).*2.

(** [z] is reached from [x] along recorded paths none of which is in [deps]. *)
Inductive avoiding (edges : DependencyEdges) (deps : list string)
    : string → string → Prop :=
  | avoiding_here x :
      is_Some (edges !! x) → x ∉ deps → avoiding edges deps x x
  | avoiding_step x y z :
      is_Some (edges !! x) → x ∉ deps → dependsOn edges x y →
      avoiding edges deps y z → avoiding edges deps x z.

(** The recorded paths [_getDeps] has not collected yet. *)
Definition unvisited (edges : DependencyEdges) (deps : list string) : nat :=
  size (dom edges ∖ list_to_set deps : gset string).

Section Vocabulary.
Context {W R A : Type}.

(** A relation between the state before and after that every run of a
    computation respects, whether it returns or throws. *)
Definition respects {X} (rel : relation (DeltaTransformer W R A))
    (m : M W R A X) : Prop :=
  ∀ s r s', m s = (r, s') → rel s s'.

(** A property of whatever a computation returns. *)
Definition returns {X} (m : M W R A X) (Q : X → Prop) : Prop :=
  ∀ s x s', m s = (Ok x, s') → Q x.

(** What the calls before the new sequence id is stored leave alone: the two
    fields of the instance and the entropy pool. *)
Definition untouched (s s' : DeltaTransformer W R A) : Prop :=
  _lastSequenceId s' = _lastSequenceId s
  ∧ _currentBuildPromise s' = _currentBuildPromise s
  ∧ entropy s' = entropy s.

(** The trace only grows. *)
Definition extends (s s' : DeltaTransformer W R A) : Prop :=
  ∃ t, trace s' = trace s ++ t.

End Vocabulary.

Section Built.
Context {W R A : Type} `{!ModuleIdFactory A}.
Context (svc : Services W R).
Context (options : MainOptions.t) (bundleOptions : BundleOptions.t).

(** [response] is what some build of this instance resolved to. *)
Definition built (response : DeltaTransformResponse.t) : Prop :=
  ∃ answer (s s' : DeltaTransformer W R A),
    _getDelta_resume svc options bundleOptions answer s = (Ok response, s').

(** The responses in a state of the runtime all come from builds, and the
    stored sequence id is a token of sixteen digits. *)
Definition consistent (rt : Runtime W R A) : Prop :=
  (∀ p build response,
     promises rt !! p = Some build →
     build_outcome build = Some (Ok response) → built response)
  ∧ (∀ c response,
       callers rt !! c = Some (Finished (Ok response)) → built response)
  ∧ (∀ id, _lastSequenceId (instance rt) = Some id → String.length id = 16).

(** Going from [rt] to [rt'], a build was started that asked the
    calculator for a delta with [reset]: the request is in the trace and
    the new promise waits for the answer to it. *)
Definition asksCalculator (reset : bool) (rt rt' : Runtime W R A) : Prop :=
  trace (instance rt')
  = trace (instance rt)
      ++ [EvBuildStarted (length (promises rt)); EvCalculatorGetDelta reset]
  ∧ promises rt'
    = promises rt
        ++ [{| build_answer :=
                 (calculator_getDelta svc reset (world (instance rt))).1;
               build_outcome := None |}].

End Built.

(** An entry is stored under its own id; a tombstone has none. *)
Definition keyedEntry (kv : nat * option DeltaEntry.t) : Prop :=
  match kv.2 with
  | Some entry => DeltaEntry.id entry = kv.1
  | None => True
  end.

Definition keyed (entries : DeltaEntries) : Prop := Forall keyedEntry entries.

(** An entry that is not a tombstone and is stored under its own id. *)
Definition liveEntry (kv : nat * option DeltaEntry.t) : Prop :=
  ∃ entry, kv.2 = Some entry ∧ DeltaEntry.id entry = kv.1.

Definition live (entries : DeltaEntries) : Prop := Forall liveEntry entries.

(** ** Vocabulary for the allocator and the segments *)

(** The id the allocator holds for a path. *)
Definition idOf (a : Allocator.t) (path : string) : nat :=
  default 0 (Allocator.fileToIdMap a !! path).

Section Appended.
Context (bundleOptions : BundleOptions.t).

(** What the code appends: the entry file is filtered like the others. *)
Definition appendedEntries (dependencyEdges : DependencyEdges)
    (idOf : string → nat) : DeltaEntries :=
  (requireEntry ∘ idOf
     <$> filter (λ path, is_Some (dependencyEdges !! path))
           (BundleOptions.runBeforeMainModule bundleOptions))
  ++ (if decide (is_Some (dependencyEdges
                            !! BundleOptions.entryFile bundleOptions))
      then [requireEntry (idOf (BundleOptions.entryFile bundleOptions))]
      else [])
  ++ (if truthy (BundleOptions.sourceMapUrl bundleOptions)
      then [(idOf "/sourcemap.js",
             Some (sourceMapEntry (idOf "/sourcemap.js")
                     (default "" (BundleOptions.sourceMapUrl bundleOptions))))]
      else []).

(** What the specification says is appended: the entry of the entry file
    is always there, after those of the modules to run before it. *)
Definition specifiedEntries (dependencyEdges : DependencyEdges)
    (idOf : string → nat) : DeltaEntries :=
  (requireEntry ∘ idOf
     <$> filter (λ path, is_Some (dependencyEdges !! path))
           (BundleOptions.runBeforeMainModule bundleOptions))
  ++ [requireEntry (idOf (BundleOptions.entryFile bundleOptions))]
  ++ (if truthy (BundleOptions.sourceMapUrl bundleOptions)
      then [(idOf "/sourcemap.js",
             Some (sourceMapEntry (idOf "/sourcemap.js")
                     (default "" (BundleOptions.sourceMapUrl bundleOptions))))]
      else []).
End Appended.

(** Two allocators agree off the paths of [S]: the same next id, the same
    paths assigned, and the same id for every path outside [S]. *)
Definition agreeOff (S : list string) (a1 a2 : Allocator.t) : Prop :=
  Allocator.nextId a1 = Allocator.nextId a2
  ∧ dom (Allocator.fileToIdMap a1) = dom (Allocator.fileToIdMap a2)
  ∧ ∀ p, p ∉ S → Allocator.fileToIdMap a1 !! p = Allocator.fileToIdMap a2 !! p.

(** The paths the modules of a batch depend on, in the order [wrapModule]
    asks for their ids. *)
Definition dependencyPaths (modules : list DependencyEdge.t) : list string :=
  modules ≫= λ module, (DependencyEdge.dependencies module).*2.

(** The paths of the scripts [_getPrepend] builds. *)
Definition scriptPaths {W R} (svc : Services W R) (options : MainOptions.t)
    (bundleOptions : BundleOptions.t) : list string :=
  createPolyfill_path svc
    <$> ([moduleSystem svc]
           ++ MainOptions.getPolyfills options
                (BundleOptions.platform bundleOptions)
           ++ MainOptions.polyfillModuleNames options).


Definition suspendedPath (ik : nat * Suspended) : string :=
  DependencyEdge.path (suspended_edge ik.2).

(** What the calls of a batch and their resumptions ask the allocator
    for: apart from the paths of the modules themselves, the dependencies
    in array order; and every module's own path at some point. *)
Definition batchRequests (modules : list DependencyEdge.t)
    (requests : list string) : Prop :=
  filter (λ p, p ∉ DependencyEdge.path <$> modules) requests
  = filter (λ p, p ∉ DependencyEdge.path <$> modules) (dependencyPaths modules)
  ∧ (∀ p, p ∈ DependencyEdge.path <$> modules → p ∈ requests)
  ∧ (∀ p, p ∈ requests →
       p ∈ DependencyEdge.path <$> modules ∨ p ∈ dependencyPaths modules).

Arguments dependencyPaths modules : simpl never.

(** ** Vocabulary for the queries, the callers and the entries *)

(** The allocator after is the allocator before with some more requests
    made of it. *)
Definition idsKept {W R} (s s' : DeltaTransformer W R Allocator.t) : Prop :=
  ∃ requests,
    _getModuleId s' = Allocator.getModuleIds requests (_getModuleId s).

(** What [getInverseDependencies] asks the allocator for, entry by entry. *)
Definition inverseRequests (entries : list (string * DependencyEdge.t))
    : list string :=
  entries ≫= λ entry, entry.1 :: DependencyEdge.inverseDependencies entry.2.

(** One entry of the output, with the ids the allocator holds. *)
Definition inverseEntry (a : Allocator.t) (entry : string * DependencyEdge.t)
    : nat * list nat :=
  (idOf a entry.1, idOf a <$> DependencyEdge.inverseDependencies entry.2).

Definition finished (caller : Caller) : bool :=
  match caller with Finished _ => true | _ => false end.

(** How many [await]s a caller still has to go through. *)
Definition awaitsLeft (caller : Caller) : nat :=
  match caller with
  | AtLine204 _ _ => 2
  | AtLine212 _ => 1
  | Finished _ => 0
  end.

(** Every caller waits for a promise there is, and whenever
    [_currentBuildPromise] is set some caller is at line 212, on its way to
    clearing it. *)
Definition attended {W R A} (rt : Runtime W R A) : Prop :=
  (∀ c caller p,
     callers rt !! c = Some caller → awaited caller = Some p →
     p < length (promises rt))
  ∧ (∀ q, _currentBuildPromise (instance rt) = Some q →
     q < length (promises rt)
     ∧ ∃ c p, callers rt !! c = Some (AtLine212 p)).

(** Steps that make no new call. *)
Definition draining (action : Action) : bool :=
  match action with Call _ => false | _ => true end.

Section Transformed.
Context {W R : Type} (svc : Services W R).
Context (transformOptions : JSTransformerOptions.t).

(** The code [wrapModule] gives [module] when the ids of its dependencies
    are those [a] holds. *)
Definition wrappedWith (a : Allocator.t) (module : DependencyEdge.t)
    : string :=
  wrappedCode svc module
    (idOf a <$> (DependencyEdge.dependencies module).*2)
    (JSTransformerOptions.dev transformOptions).

(** [a] holds an id for the path of [module] and for each of its
    dependencies. *)
Definition assigned (a : Allocator.t) (module : DependencyEdge.t) : Prop :=
  ∀ p,
    p ∈ DependencyEdge.path module :: (DependencyEdge.dependencies module).*2 →
    is_Some (Allocator.fileToIdMap a !! p).

(** [minified] is what the minifier answered, in some state of the world,
    when given the wrapped code of [module] and its source map. *)
Definition minifiedFrom (a : Allocator.t) (module : DependencyEdge.t)
    (minified : Result (string * list MetroSourceMapSegmentTuple)) : Prop :=
  ∃ w,
    (minifyModule svc (DependencyEdge.path module) (wrappedWith a module)
       (Output.map (DependencyEdge.output module)) w).1 = minified.

(** [kv] is the pair [_transformModule] resolves to for [module], the ids
    being those [a] holds. *)
Definition transformed (a : Allocator.t) (module : DependencyEdge.t)
    (kv : nat * option DeltaEntry.t) : Prop :=
  assigned a module
  ∧ kv.1 = idOf a (DependencyEdge.path module)
  ∧ ∃ entry,
      kv.2 = Some entry
      ∧ DeltaEntry.id entry = kv.1
      ∧ DeltaEntry.path entry = DependencyEdge.path module
      ∧ DeltaEntry.name entry = getHasteName svc (DependencyEdge.path module)
      ∧ DeltaEntry.source entry
        = Output.source (DependencyEdge.output module)
      ∧ DeltaEntry.type entry = Output.type (DependencyEdge.output module)
      ∧ if JSTransformerOptions.minify transformOptions then
          minifiedFrom a module (Ok (DeltaEntry.code entry, DeltaEntry.map entry))
        else
          DeltaEntry.code entry = wrappedWith a module
          ∧ DeltaEntry.map entry = Output.map (DependencyEdge.output module).

(** A call of [_transformModule] for [module] that waits for the
    minifier. *)
Definition suspendedFrom (a : Allocator.t) (module : DependencyEdge.t)
    (k : Suspended) : Prop :=
  (∀ p, p ∈ (DependencyEdge.dependencies module).*2 →
        is_Some (Allocator.fileToIdMap a !! p))
  ∧ JSTransformerOptions.minify transformOptions = true
  ∧ suspended_edge k = module
  ∧ suspended_name k = getHasteName svc (DependencyEdge.path module)
  ∧ minifiedFrom a module (suspended_minified k).

Definition startedFrom (a : Allocator.t) (module : DependencyEdge.t)
    (started : Started) : Prop :=
  match started with
  | Returned kv => transformed a module kv
  | Awaiting k => suspendedFrom a module k
  end.

(** The entries in the slots so far are those of the modules at the same
    places. *)
Definition slotsFrom (a : Allocator.t) (modules : list DependencyEdge.t)
    (slots : list (option (nat * option DeltaEntry.t))) : Prop :=
  ∀ i module kv,
    modules !! i = Some module → slots !! i = Some (Some kv) →
    transformed a module kv.

End Transformed.

(** The [delta] of a response: the pairs made of the modified modules,
    then a tombstone set for every deleted path. *)
Definition tombstones (a : Allocator.t) (deleted : list string)
    (delta : DeltaEntries) : DeltaEntries :=
  foldl (λ delta path, JSMap.set (idOf a path) None delta) delta deleted.

(** [edge] is what [_createEdgeFromScript] makes of the polyfill [file]:
    a script without dependencies that carries what reading the module
    gave, in some state of the world. *)
Definition scriptOf {W R} (svc : Services W R)
    (transformOptions : JSTransformerOptions.t) (file : string)
    (edge : DependencyEdge.t) : Prop :=
  DependencyEdge.path edge = createPolyfill_path svc file
  ∧ DependencyEdge.dependencies edge = []
  ∧ DependencyEdge.inverseDependencies edge = []
  ∧ Output.type (DependencyEdge.output edge) = script
  ∧ ∃ w result,
      (module_read svc file transformOptions w).1 = Ok result
      ∧ Output.code (DependencyEdge.output edge) = ReadResult.code result
      ∧ Output.map (DependencyEdge.output edge) = ReadResult.map result
      ∧ Output.source (DependencyEdge.output edge) = ReadResult.source result.

(** The files [_getPrepend] makes scripts of, in its order. *)
Definition prependedFiles {W R} (svc : Services W R)
    (options : MainOptions.t) (bundleOptions : BundleOptions.t)
    : list string :=
  moduleSystem svc
    :: MainOptions.getPolyfills options (BundleOptions.platform bundleOptions)
    ++ MainOptions.polyfillModuleNames options.


(** ** A small concrete world

    A scripted calculator, a counter for entropy and the allocator of the
    specification; used to run the class on concrete inputs. *)
Module Demo.

Record World := {
  (** what the calculator answers to the next calls of [getDelta], each
      with the graph it leaves behind *)
  script : list (Result (DeltaResult.t * DependencyEdges));
  graph : DependencyEdges;
  minifying : bool;
  (** the paths the minifier rejects *)
  rejected : list string;
  (** whether the event loop resumes the last suspended call first *)
  lastFirst : bool;
}.

Definition getDelta (reset : bool) (w : World) : Result DeltaResult.t * World :=
  match script w with
  | [] =>
      (Ok {| DeltaResult.modified := []; DeltaResult.deleted := [];
             DeltaResult.reset := reset |}, w)
  | Ok (d, g) :: rest =>
      (Ok d,
       {| script := rest; graph := g; minifying := minifying w;
          rejected := rejected w; lastFirst := lastFirst w |})
  | Throw e :: rest =>
      (Throw e,
       {| script := rest; graph := graph w; minifying := minifying w;
          rejected := rejected w; lastFirst := lastFirst w |})
  end.

Definition services : Services World nat := {|
  calculator_getDelta := getDelta;
  calculator_getGraph := graph;
  calculator_getTransformerOptions w :=
    (Ok {| JSTransformerOptions.dev := true;
           JSTransformerOptions.minify := minifying w |}, w);
  createPolyfill_path file := file;
  module_read file _ w :=
    (Ok {| ReadResult.code := "/* " +:+ file +:+ " */";
           ReadResult.map := []; ReadResult.source := file |}, w);
  getHasteName path := path;
  minifyModule path code map w :=
    (if bool_decide (path ∈ rejected w) then Throw ("minify: " +:+ path)
     else Ok (code, map), w);
  wrappedCode edge ids dev :=
    "__d(" +:+ Output.code (DependencyEdge.output edge) +:+ ","
      +:+ String.concat "," (pretty <$> ids) +:+ ")";
  getPreludeCode dev := if dev then "__DEV__=true;" else "__DEV__=false;";
  moduleSystem := "/polyfills/require.js";
  randomByte n := (default x00 (Byte.of_nat (n `mod` 256)), S n);
  resumeNext w n := if lastFirst w then n - 1 else 0;
|}.

Definition edge (path : string) (dependencies : list (string * string))
    : DependencyEdge.t :=
  {| DependencyEdge.dependencies := dependencies;
     DependencyEdge.inverseDependencies := [];
     DependencyEdge.path := path;
     DependencyEdge.output :=
       {| Output.code := "code of " +:+ path; Output.map := [];
          Output.source := "source of " +:+ path; Output.type := module |} |}.

(** [/index.js] requires [/b.js]. *)
Definition edgeA : DependencyEdge.t := edge "/index.js" [("./b", "/b.js")].
Definition edgeB : DependencyEdge.t := edge "/b.js" [].

Definition graphAB : DependencyEdges :=
  <["/index.js" := edgeA]> (<["/b.js" := edgeB]> ∅).

(** A snapshot in which [/index.js] names a dependency that has no record. *)
Definition graphDangling : DependencyEdges := <["/index.js" := edgeA]> ∅.

(** A cycle: [/index.js] requires [/b.js], which requires [/index.js]. *)
Definition graphCycle : DependencyEdges :=
  <["/index.js" := edgeA]>
    (<["/b.js" := edge "/b.js" [("./index", "/index.js")]]> ∅).

Definition firstBuild : DeltaResult.t :=
  {| DeltaResult.modified := [("/b.js", edgeB); ("/index.js", edgeA)];
     DeltaResult.deleted := []; DeltaResult.reset := true |}.

Definition world (answers : list (Result (DeltaResult.t * DependencyEdges)))
    : World :=
  {| script := answers; graph := ∅; minifying := false; rejected := [];
     lastFirst := false |}.

Definition options : MainOptions.t :=
  {| MainOptions.getPolyfills _ := ["/polyfills/Object.es6.js"];
     MainOptions.polyfillModuleNames := [] |}.

Definition bundleOptions : BundleOptions.t :=
  {| BundleOptions.dev := true; BundleOptions.entryFile := "/index.js";
     BundleOptions.platform := Some "ios";
     BundleOptions.runBeforeMainModule := ["/InitializeCore.js"];
     BundleOptions.sourceMapUrl := None |}.

Definition start (w : World) : Runtime World nat Allocator.t :=
  create (Allocator.createModuleIdFactory 0) w 0.

(** One call of [getDelta] on a fresh instance, run to its end. *)
Definition firstCall : list Action := [Call None; Settle 0; Resume 0].

Definition afterFirstCall : Runtime World nat Allocator.t :=
  Eval vm_compute in
    default (start (world []))
      (run services options bundleOptions firstCall
         (start (world [Ok (firstBuild, graphAB)]))).

Definition emptyResponse : DeltaTransformResponse.t :=
  {| DeltaTransformResponse.id := ""; DeltaTransformResponse.pre := [];
     DeltaTransformResponse.post := []; DeltaTransformResponse.delta := [];
     DeltaTransformResponse.reset := false |}.

Definition duringFirstCall : Runtime World nat Allocator.t :=
  Eval vm_compute in
    default (start (world []))
      (run services options bundleOptions [Call None]
         (start (world [Ok (firstBuild, graphAB)]))).

Definition settledFirstCall : Runtime World nat Allocator.t :=
  Eval vm_compute in
    default (start (world []))
      (run services options bundleOptions [Call None; Settle 0]
         (start (world [Ok (firstBuild, graphAB)]))).

(** Two calls of [getDelta], the second made while the build of the first
    is in flight; the calculator rejects the first request. *)
Definition overlappingCalls : list Action :=
  [Call None; Call None; Settle 0; Resume 0; Resume 1].

Definition rejectingWorld : World :=
  world [Throw "boom"; Ok (firstBuild, graphAB)].




Definition firstResponse : DeltaTransformResponse.t :=
  Eval vm_compute in
    match callers afterFirstCall !! 0 with
    | Some (Finished (Ok response)) => response
    | _ => emptyResponse
    end.

(** The entry file is also the first module to run before it. *)
Definition entryFirst : BundleOptions.t :=
  {| BundleOptions.dev := true; BundleOptions.entryFile := "/index.js";
     BundleOptions.platform := Some "ios";
     BundleOptions.runBeforeMainModule := ["/index.js"; "/b.js"];
     BundleOptions.sourceMapUrl := None |}.

Definition entryFirstResponse : DeltaTransformResponse.t :=
  Eval vm_compute in
    match
      run services options entryFirst firstCall
        (start (world [Ok (firstBuild, graphAB)]))
    with
    | Some rt =>
        match callers rt !! 0 with
        | Some (Finished (Ok response)) => response
        | _ => emptyResponse
        end
    | None => emptyResponse
    end.

Definition afterEntryFirstCall : Runtime World nat Allocator.t :=
  Eval vm_compute in
    default (start (world []))
      (run services options entryFirst firstCall
         (start (world [Ok (firstBuild, graphAB)]))).

(** A first build with the minifier on; the event loop resumes the
    suspended calls first to last, or last to first. *)
Definition minifyingWorld (lastFirst : bool) : World :=
  {| script := [Ok (firstBuild, graphAB)]; graph := ∅; minifying := true;
     rejected := []; lastFirst := lastFirst |}.

Definition duringMinifyingFirst : Runtime World nat Allocator.t :=
  Eval vm_compute in
    default (start (world []))
      (run services options bundleOptions [Call None]
         (start (minifyingWorld false))).

Definition settledMinifyingFirst : Runtime World nat Allocator.t :=
  Eval vm_compute in
    default (start (world []))
      (run services options bundleOptions [Call None; Settle 0]
         (start (minifyingWorld false))).



Definition outcomeOf (rt : Runtime World nat Allocator.t)
    : DeltaTransformResponse.t :=
  match promises rt !! 0 with
  | Some {| build_outcome := Some (Ok response) |} => response
  | _ => emptyResponse
  end.

Definition minifiedFirst : DeltaTransformResponse.t :=
  Eval vm_compute in outcomeOf settledMinifyingFirst.


(** The entry file has no record in the snapshot the calculator leaves. *)
Definition entryAbsent : BundleOptions.t :=
  {| BundleOptions.dev := true; BundleOptions.entryFile := "/main.js";
     BundleOptions.platform := Some "ios";
     BundleOptions.runBeforeMainModule := ["/b.js"];
     BundleOptions.sourceMapUrl := None |}.

Definition afterEntryAbsentCall : Runtime World nat Allocator.t :=
  Eval vm_compute in
    default (start (world []))
      (run services options entryAbsent firstCall
         (start (world [Ok (firstBuild, graphAB)]))).

Definition entryAbsentResponse : DeltaTransformResponse.t :=
  Eval vm_compute in
    match callers afterEntryAbsentCall !! 0 with
    | Some (Finished (Ok response)) => response
    | _ => emptyResponse
    end.

(** An id factory, as [bundleOptions.createModuleIdFactory] may supply one,
    that throws for the paths it was told to refuse. *)
Record Refusing := {
  refused : list string;
  allocator : Allocator.t;
}.

#[export] Instance refusingFactory : ModuleIdFactory Refusing := {
  createModuleId path a :=
    if bool_decide (path ∈ refused a) then (Throw ("no id for " +:+ path), a)
    else
      let '(id, a') := Allocator.getModuleId path (allocator a) in
      (Ok id, {| refused := refused a; allocator := a' |});
}.

(** Three calls of [getDelta] made back to back; the build of the first
    has resolved and no caller has been resumed yet. *)
Definition threeCallers : Runtime World nat Allocator.t :=
  Eval vm_compute in
    default (start (world []))
      (run services options bundleOptions
         [Call None; Call None; Call None; Settle 0]
         (start (world [Ok (firstBuild, graphAB); Ok (firstBuild, graphAB);
                        Ok (firstBuild, graphAB)]))).

(** A second delta: [/index.js] no longer requires [/b.js], which is
    deleted. *)
Definition secondBuild : DeltaResult.t :=
  {| DeltaResult.modified := [("/index.js", edge "/index.js" [])];
     DeltaResult.deleted := ["/b.js"]; DeltaResult.reset := false |}.

Definition twoBuilds : World :=
  world [Ok (firstBuild, graphAB);
         Ok (secondBuild, <["/index.js" := edge "/index.js" []]> ∅)].

Definition duringSecondCall : Runtime World nat Allocator.t :=
  Eval vm_compute in
    default (start (world []))
      (run services options bundleOptions
         (firstCall ++ [Call (Some "0001020304050607")]) (start twoBuilds)).

Definition settledSecondCall : Runtime World nat Allocator.t :=
  Eval vm_compute in
    default (start (world []))
      (run services options bundleOptions [Settle 1] duringSecondCall).

Definition incrementalResponse : DeltaTransformResponse.t :=
  Eval vm_compute in
    match promises settledSecondCall !! 1 with
    | Some {| build_outcome := Some (Ok response) |} => response
    | _ => emptyResponse
    end.

(** The order in which a graph enumerates its entries. *)
Definition entries (g : DependencyEdges) : list (string * DependencyEdge.t) :=
  map_to_list g.

(** A graph with its inverse dependencies recorded: [/index.js] requires
    [/b.js] and [/c.js], and [/c.js] requires [/b.js]. *)
Definition graphInverse : DependencyEdges :=
  <["/index.js" :=
      {| DependencyEdge.dependencies := [("./b", "/b.js"); ("./c", "/c.js")];
         DependencyEdge.inverseDependencies := [];
         DependencyEdge.path := "/index.js";
         DependencyEdge.output := DependencyEdge.output edgeA |}]>
    (<["/c.js" :=
         {| DependencyEdge.dependencies := [("./b", "/b.js")];
            DependencyEdge.inverseDependencies := ["/index.js"];
            DependencyEdge.path := "/c.js";
            DependencyEdge.output := DependencyEdge.output edgeB |}]>
       (<["/b.js" :=
            {| DependencyEdge.dependencies := [];
               DependencyEdge.inverseDependencies := ["/index.js"; "/c.js"];
               DependencyEdge.path := "/b.js";
               DependencyEdge.output := DependencyEdge.output edgeB |}]> ∅)).

(** A fresh instance on a calculator that holds [graphInverse]. *)
Definition initialized : DeltaTransformer World nat Allocator.t :=
  instance
    (start {| script := []; graph := graphInverse; minifying := false;
              rejected := []; lastFirst := false |}).

Definition inverseDependencies : list (nat * list nat) :=
  Eval vm_compute in
    match
      getInverseDependencies services options bundleOptions entries
        initialized
    with
    | (Ok output, _) => output
    | _ => []
    end.

Definition afterInverseDependencies : DeltaTransformer World nat Allocator.t :=
  Eval vm_compute in
    (getInverseDependencies services options bundleOptions entries
       initialized).2.

(** [getDependenciesFn] called on a fresh instance. *)
Definition uninitialized : DeltaTransformer World nat Allocator.t :=
  instance (start (world [Ok (firstBuild, graphAB)])).

Definition afterGetDependenciesFn : DeltaTransformer World nat Allocator.t :=
  Eval vm_compute in
    (getDependenciesFn services options bundleOptions uninitialized).2.

Definition emptyProcess : Process World nat Allocator.t :=
  {| globalCreateModuleId := Allocator.createModuleIdFactory 0;
     coupled := []; isolated := [] |}.

(** A process with one transformer on the factory of line 59 and one
    with a factory of its own. *)
Definition process : Process World nat Allocator.t :=
  constructor services options bundleOptions true
    (Allocator.createModuleIdFactory 0)
    (world [Ok (firstBuild, graphAB)]) 0
    (constructor services options bundleOptions false
       (Allocator.createModuleIdFactory 0)
       (world [Ok (firstBuild, graphAB)]) 0 emptyProcess).

(** The first transformer has made its first build. *)
Definition afterFirstBuild : Process World nat Allocator.t :=
  Eval vm_compute in
    default emptyProcess
      (acts [(Coupled 0, Call None); (Coupled 0, Settle 0)] process).

(** Then a second transformer is constructed on the factory of line 59,
    for another bundle, and called, while the isolated one makes its first
    build. *)
Definition secondSteps : list (Target * Action) :=
  [(Isolated 0, Call None); (Coupled 1, Call None); (Isolated 0, Settle 0);
   (Isolated 0, Resume 0)].

Definition duringSecondBuild : Process World nat Allocator.t :=
  Eval vm_compute in
    default emptyProcess
      (acts secondSteps
         (constructor services options entryFirst false
            (Allocator.createModuleIdFactory 0)
            (world [Ok (firstBuild, graphAB)]) 0 afterFirstBuild)).

Definition afterSecondBuild : Process World nat Allocator.t :=
  Eval vm_compute in
    default emptyProcess (act (Coupled 1) (Settle 0) duringSecondBuild).

Definition emptyTransformer : Transformer World nat Allocator.t :=
  {| _bundler := services; _options := options;
     _bundleOptions := bundleOptions; runtime := start (world []) |}.

Definition secondTransformer : Transformer World nat Allocator.t :=
  Eval vm_compute in
    default emptyTransformer (coupled afterSecondBuild !! 1).

Definition secondResponse : DeltaTransformResponse.t :=
  Eval vm_compute in outcomeOf (runtime secondTransformer).



End Demo.

(** * Properties *)

(** ** The transitive dependencies of a path *)

Section Dependencies.
Context (edges : DependencyEdges).

Lemma avoiding_start deps x z :
  avoiding edges deps x z → is_Some (edges !! x) ∧ x ∉ deps.
Proof. by destruct 1. Qed.

Lemma avoiding_end deps x z :
  avoiding edges deps x z → is_Some (edges !! z) ∧ z ∉ deps.
Proof. induction 1; auto. Qed.

Lemma avoiding_mono deps deps' x z :
  (∀ q, q ∈ deps → q ∈ deps') →
  avoiding edges deps' x z → avoiding edges deps x z.
Proof.
  intros Hsub. induction 1 as [x Hx Hn|x y z Hx Hn Hxy _ IH].
  - apply avoiding_here; auto.
  - eapply avoiding_step; eauto.
Qed.

Lemma avoiding_trans deps x y z :
  avoiding edges deps x y → avoiding edges deps y z → avoiding edges deps x z.
Proof.
  induction 1 as [x Hx Hn|x y' y Hx Hn Hxy _ IH]; [done|].
  intros Hyz. eapply avoiding_step; eauto.
Qed.

(** Once everything reached from [c] has been collected, what another
    traversal adds is the same whether it avoids the old or the new set. *)
Lemma avoiding_after deps deps' c x z :
  (∀ q, q ∈ deps' ↔ q ∈ deps ∨ avoiding edges deps c q) →
  avoiding edges deps x z → z ∈ deps' ∨ avoiding edges deps' x z.
Proof.
  intros Hdeps'. induction 1 as [x Hx Hn|x y z Hx Hn Hxy Hyz IH].
  - destruct (decide (x ∈ deps')); [by left|].
    right. by apply avoiding_here.
  - destruct IH as [?|IH]; [by left|].
    destruct (decide (x ∈ deps')) as [Hin|Hnin].
    + left. apply Hdeps' in Hin as [?|Hcx]; [done|].
      apply Hdeps'. right. eapply avoiding_trans; [done|].
      eapply avoiding_step; eauto.
    + right. eapply avoiding_step; eauto.
Qed.

(** A path out of [x] that avoids [deps] ends in [x], or its part after the
    last visit of [x] starts at a dependency of [x]. *)
Lemma avoiding_through deps x y z :
  avoiding edges deps y z →
  z = x ∨ avoiding edges (deps ++ [x]) y z
  ∨ ∃ c, dependsOn edges x c ∧ avoiding edges (deps ++ [x]) c z.
Proof.
  induction 1 as [y Hy Hn|y y' z Hy Hn Hyy' Hy'z IH].
  - destruct (decide (y = x)) as [->|Hne]; [by left|].
    right; left. apply avoiding_here; [done|]. set_solver.
  - destruct IH as [?|[IH|IH]]; [by left| |by right; right].
    destruct (decide (y = x)) as [->|Hne].
    + right; right. eauto.
    + right; left. eapply avoiding_step; eauto. set_solver.
Qed.

Lemma unvisited_mono deps deps' :
  (∀ q, q ∈ deps → q ∈ deps') → unvisited edges deps' ≤ unvisited edges deps.
Proof.
  intros Hsub. apply subseteq_size. set_solver.
Qed.

Lemma unvisited_add deps x :
  is_Some (edges !! x) → x ∉ deps →
  unvisited edges (deps ++ [x]) < unvisited edges deps.
Proof.
  intros Hx Hn. apply subset_size.
  apply elem_of_dom in Hx. set_solver.
Qed.

Lemma JSSet_has_true x (s : JSSet.t) : JSSet.has x s = true ↔ x ∈ s.
Proof. unfold JSSet.has. by rewrite bool_decide_eq_true. Qed.

Lemma JSSet_add_fresh x (s : JSSet.t) : x ∉ s → JSSet.add x s = s ++ [x].
Proof.
  intros Hn. unfold JSSet.add.
  destruct (JSSet.has x s) eqn:E; [|done].
  by apply JSSet_has_true in E.
Qed.

(** What the loop over the dependencies of an edge collects. *)
Lemma getDeps_loop fuel (dependencies : list (string * string)) :
  (∀ x deps, unvisited edges deps < fuel →
     ∃ deps', _getDeps fuel x edges deps = Some deps'
       ∧ (∀ q, q ∈ deps' ↔ q ∈ deps ∨ avoiding edges deps x q)
       ∧ (NoDup deps → NoDup deps')) →
  ∀ deps, unvisited edges deps < fuel →
    ∃ deps',
      foldl (λ acc dependency,
               deps' ← acc; _getDeps fuel dependency.2 edges deps')
            (Some deps) dependencies = Some deps'
      ∧ (∀ q, q ∈ deps' ↔
           q ∈ deps ∨ ∃ c, c ∈ dependencies.*2 ∧ avoiding edges deps c q)
      ∧ (NoDup deps → NoDup deps').
Proof.
  intros IHfuel.
  induction dependencies as [|[name c] rest IH]; intros deps Hfuel; simpl.
  - exists deps. split; [done|]. split; [|done].
    intros q. split; [by left|]. intros [?|(c & Hc & _)]; [done|].
    by apply elem_of_nil in Hc.
  - destruct (IHfuel c deps Hfuel) as (deps1 & -> & Hdeps1 & Hnodup1).
    assert (Hsub : ∀ q, q ∈ deps → q ∈ deps1) by (intros q ?; apply Hdeps1; auto).
    destruct (IH deps1) as (deps2 & Hfold & Hdeps2 & Hnodup2).
    { eapply Nat.le_lt_trans; [by apply unvisited_mono|done]. }
    exists deps2. split; [done|]. split; [|auto].
    intros q. rewrite Hdeps2, Hdeps1. split.
    + intros [[?|?]|(c' & Hc' & Hq)].
      * by left.
      * right. exists c. split; [apply list_elem_of_here|done].
      * right. exists c'. split; [by apply list_elem_of_further|].
        by eapply avoiding_mono.
    + intros [?|(c' & Hc' & Hq)]; [by left; left|].
      apply elem_of_cons in Hc' as [->|Hc']; [by left; right|].
      destruct (avoiding_after deps deps1 c c' q Hdeps1 Hq) as [Hin|Hav].
      * left. by apply Hdeps1.
      * right. eauto.
Qed.

(** [_getDeps] returns once it has more fuel than there are recorded paths
    left to collect, whatever the shape of the graph, and adds to [deps]
    exactly the paths reached from [path] outside of [deps]. *)
Lemma getDeps_collects fuel :
  ∀ path deps, unvisited edges deps < fuel →
    ∃ deps', _getDeps fuel path edges deps = Some deps'
      ∧ (∀ q, q ∈ deps' ↔ q ∈ deps ∨ avoiding edges deps path q)
      ∧ (NoDup deps → NoDup deps').
Proof.
  induction fuel as [|fuel IH]; intros path deps Hfuel; [lia|].
  simpl. destruct (JSSet.has path deps) eqn:Hhas.
  { apply JSSet_has_true in Hhas. exists deps. split; [done|]. split; [|done].
    intros q. split; [by left|]. intros [?|Hav]; [done|].
    by apply avoiding_start in Hav as [_ ?]. }
  assert (Hn : path ∉ deps).
  { intros Hin. apply JSSet_has_true in Hin. congruence. }
  destruct (edges !! path) as [edge|] eqn:Hedge.
  2:{ exists deps. split; [done|]. split; [|done].
      intros q. split; [by left|]. intros [?|Hav]; [done|].
      apply avoiding_start in Hav as [[? Hsome] _]. congruence. }
  rewrite JSSet_add_fresh by done.
  destruct (getDeps_loop fuel (DependencyEdge.dependencies edge) IH
              (deps ++ [path])) as (deps' & Hfold & Hdeps' & Hnodup').
  { pose proof (unvisited_add deps path (mk_is_Some _ _ Hedge) Hn). lia. }
  exists deps'. split; [done|]. split.
  - intros q. rewrite Hdeps'. split.
    + intros [Hin|(c & Hc & Hq)].
      * apply elem_of_app in Hin as [?|Hin]; [by left|].
        apply list_elem_of_singleton in Hin as ->. right.
        by apply avoiding_here.
      * right. eapply avoiding_step; [done..| |].
        -- by exists edge.
        -- eapply avoiding_mono; [|done]. set_solver.
    + intros [?|Hav]; [left; set_solver|].
      inversion Hav as [x Hx Hnx|x y z Hx Hnx Hxy Hyz]; subst.
      * left. set_solver.
      * destruct (avoiding_through deps path y q Hyz) as [->|[Hq|(c & Hc & Hq)]].
        -- left. set_solver.
        -- right. exists y. split; [|done].
           destruct Hxy as (edge' & Hedge' & Hy). congruence.
        -- right. exists c. split; [|done].
           destruct Hc as (edge' & Hedge' & Hc). congruence.
  - intros Hnodup. apply Hnodup'. apply NoDup_app. split; [done|].
    split; [|apply NoDup_singleton].
    intros q Hq Hq'. apply list_elem_of_singleton in Hq' as ->. done.
Qed.

Lemma avoiding_nil x z :
  avoiding edges [] x z ↔
  is_Some (edges !! x) ∧ is_Some (edges !! z) ∧ rtc (dependsOn edges) x z.
Proof.
  split.
  - induction 1 as [x Hx _|x y z Hx _ Hxy _ (_ & Hz & Hrtc)].
    + done.
    + split; [done|]. split; [done|]. by eapply rtc_l.
  - intros (Hx & Hz & Hrtc). induction Hrtc as [x|x y z Hxy Hyz IH].
    + apply avoiding_here; [done|]. apply not_elem_of_nil.
    + eapply avoiding_step; [done|apply not_elem_of_nil|done|].
      destruct (decide (y = z)) as [->|Hne].
      * apply avoiding_here; [done|apply not_elem_of_nil].
      * apply IH; [|done]. inversion Hyz as [|? y' ? Hyy']; subst; [done|].
        destruct Hyy' as (edge & Hedge & _). by eexists.
Qed.

End Dependencies.

(** C8 (as amended).  For every snapshot, cyclic or not, and every path
    [p], [_getDependencies] returns, and what it returns holds each path
    once and holds exactly the paths that have a record in the snapshot,
    differ from [p] and are reached from [p] along the recorded
    dependencies. *)
Theorem getDependencies_reachable (edges : DependencyEdges) (p : string) :
  ∃ deps,
    _getDependencies edges p = Some deps
    ∧ NoDup deps
    ∧ ∀ q, q ∈ deps ↔
        q ≠ p ∧ is_Some (edges !! q) ∧ rtc (dependsOn edges) p q.
Proof.
  destruct (getDeps_collects edges (S (size edges)) p [])
    as (deps & Hrun & Hdeps & Hnodup).
  { unfold unvisited. rewrite <- (size_dom (D := gset string) edges).
    apply Nat.lt_succ_r, subseteq_size. set_solver. }
  exists (JSSet.delete p deps). unfold _getDependencies. rewrite Hrun.
  split; [done|]. split.
  { apply NoDup_filter, Hnodup, NoDup_nil_2. }
  intros q. unfold JSSet.delete. rewrite list_elem_of_filter, Hdeps.
  rewrite avoiding_nil. split.
  - intros (Hne & [Hin|(_ & Hq & Hrtc)]); [by apply elem_of_nil in Hin|done].
  - intros (Hne & Hq & Hrtc). split; [done|]. right.
    split; [|done]. inversion Hrtc as [|? y ? Hpy]; subst; [done|].
    destruct Hpy as (edge & Hedge & _). by eexists.
Qed.

(** C8 (as stated) fails on a snapshot in which a recorded dependency has
    no record of its own: [/b.js] is a dependency of [/index.js], so it is
    reached from it, and the query for [/index.js] returns the empty set. *)
Lemma getDependencies_skips_unrecorded :
  ¬ ∃ deps,
      _getDependencies Demo.graphDangling "/index.js" = Some deps
      ∧ ∀ q, q ∈ deps ↔
          q ≠ "/index.js" ∧ rtc (dependsOn Demo.graphDangling) "/index.js" q.
Proof.
  intros (deps & Hrun & Hdeps).
  assert (deps = []) as -> by (vm_compute in Hrun; congruence).
  assert (Hin : "/b.js" ∈ @nil string); [|by apply elem_of_nil in Hin].
  apply Hdeps. split; [done|].
  apply rtc_once. exists Demo.edgeA. split; [done|].
  simpl. apply list_elem_of_here.
Qed.

(** The traversal on a cycle. *)
Example getDependencies_cycle :
  _getDependencies Demo.graphCycle "/index.js" = Some ["/b.js"].
Proof. by vm_compute. Qed.

(** ** Running a computation of the monad *)

Section Running.
Context {W R A : Type} `{!ModuleIdFactory A}.

Lemma bind_run {X Y} (m : M W R A X) (f : X → M W R A Y) s r s2 :
  (m ≫= f) s = (r, s2) ↔
  (∃ x s1, m s = (Ok x, s1) ∧ f x s1 = (r, s2))
  ∨ (∃ e, m s = (Throw e, s2) ∧ r = Throw e).
Proof.
  unfold mbind, M_bind. destruct (m s) as [[x|e] s1]; split.
  - intros Hf. left. eauto.
  - intros [(x' & s1' & [= -> ->] & Hf)|(e & [=] & _)]. done.
  - intros [= <- <-]. right. eauto.
  - intros [(x' & s1' & [=] & _)|(e' & [= -> ->] & ->)]. done.
Qed.

Lemma bind_Ok {X Y} (m : M W R A X) (f : X → M W R A Y) s y s2 :
  (m ≫= f) s = (Ok y, s2) ↔ ∃ x s1, m s = (Ok x, s1) ∧ f x s1 = (Ok y, s2).
Proof.
  rewrite bind_run. split; [|by left].
  intros [?|(e & _ & [=])]. done.
Qed.

Lemma ret_run {X} (x : X) (s : DeltaTransformer W R A) r s' :
  (mret x : M W R A X) s = (r, s') ↔ r = Ok x ∧ s' = s.
Proof. unfold mret, M_ret. naive_solver. Qed.

Section Respects.
Context (rel : relation (DeltaTransformer W R A)) `{!PreOrder rel}.

Lemma respects_ret {X} (x : X) : respects rel (mret x : M W R A X).
Proof. intros s r s' [_ ->]%ret_run. reflexivity. Qed.

Lemma respects_bind {X Y} (m : M W R A X) (f : X → M W R A Y) :
  respects rel m → (∀ x, respects rel (f x)) → respects rel (m ≫= f).
Proof.
  intros Hm Hf s r s2 [(x & s1 & Hx & Hy)|(e & He & _)]%bind_run.
  - etrans; [by eapply Hm|by eapply Hf].
  - by eapply Hm.
Qed.

Lemma respects_throw {X} e : respects rel (throw (X := X) e).
Proof. intros s r s' [= _ <-]. reflexivity. Qed.

Lemma respects_await {X} (r : Result X) : respects rel (await r).
Proof. intros s r' s' [= _ <-]. reflexivity. Qed.

Lemma respects_getWorld : respects rel getWorld.
Proof. intros s r' s' [= _ <-]. reflexivity. Qed.

Lemma respects_mapM {X Y} (f : X → M W R A Y) xs :
  (∀ x, respects rel (f x)) → respects rel (mapM f xs).
Proof.
  intros Hf. induction xs as [|x xs IH]; simpl.
  - apply respects_ret.
  - apply respects_bind; [done|]. intros y.
    apply respects_bind; [done|]. intros ys. apply respects_ret.
Qed.

Lemma respects_forEach {X} (f : X → M W R A unit) xs :
  (∀ x, respects rel (f x)) → respects rel (forEach f xs).
Proof.
  intros Hf. induction xs as [|x xs IH]; simpl.
  - apply respects_ret.
  - apply respects_bind; [done|]. by intros [].
Qed.

Lemma respects_foldlM {X Y} (f : Y → X → M W R A Y) xs acc :
  (∀ acc x, respects rel (f acc x)) → respects rel (foldlM f acc xs).
Proof.
  intros Hf. revert acc. induction xs as [|x xs IH]; intros acc; simpl.
  - apply respects_ret.
  - apply respects_bind; [done|]. intros acc'. apply IH.
Qed.

End Respects.

#[export] Instance untouched_preorder : PreOrder (@untouched W R A).
Proof.
  split.
  - by intros s.
  - intros s1 s2 s3 (? & ? & ?) (? & ? & ?). unfold untouched.
    split_and!; congruence.
Qed.

#[export] Instance extends_preorder : PreOrder (@extends W R A).
Proof.
  split.
  - intros s. exists []. by rewrite app_nil_r.
  - intros s1 s2 s3 [t1 H1] [t2 H2]. exists (t1 ++ t2).
    by rewrite H2, H1, app_assoc.
Qed.

End Running.

(** ** What the methods leave alone *)

Create HintDb respects.

Ltac respects_step :=
  first
    [ solve [eauto with respects]
    | apply respects_ret; tc_solve
    | apply respects_throw; tc_solve
    | apply respects_await; tc_solve
    | apply respects_getWorld; tc_solve
    | apply respects_bind; [tc_solve| |intros ?]
    | apply respects_mapM; [tc_solve|intros ?]
    | apply respects_forEach; [tc_solve|intros ?]
    | apply respects_foldlM; [tc_solve|intros ? ?]
    | match goal with
      | |- respects _ (if ?b then _ else _) => destruct b
      | |- respects _ (match ?x with _ => _ end) => destruct x
      end ].

Ltac respects_auto := repeat respects_step.

Section Frames.
Context {W R A : Type} `{!ModuleIdFactory A}.
Context (svc : Services W R).
Context (options : MainOptions.t) (bundleOptions : BundleOptions.t).

Lemma emit_untouched ev : respects (@untouched W R A) (emit ev).
Proof. by intros s r s' [= _ <-]. Qed.

Lemma emit_extends ev : respects (@extends W R A) (emit ev).
Proof. intros s r s' [= _ <-]. by eexists. Qed.

Lemma call_untouched {X} (f : W → Result X * W) :
  respects (@untouched W R A) (call f).
Proof.
  intros s r s'. unfold call. destruct (f (world s)). by intros [= _ <-].
Qed.

Lemma call_extends {X} (f : W → Result X * W) :
  respects (@extends W R A) (call f).
Proof.
  intros s r s'. unfold call. destruct (f (world s)). intros [= _ <-].
  exists []. simpl. by rewrite app_nil_r.
Qed.

Lemma issue_untouched {X} (f : W → Result X * W) :
  respects (@untouched W R A) (issue f).
Proof.
  intros s r s'. unfold issue. destruct (f (world s)). by intros [= _ <-].
Qed.

Lemma issue_extends {X} (f : W → Result X * W) :
  respects (@extends W R A) (issue f).
Proof.
  intros s r s'. unfold issue. destruct (f (world s)). intros [= _ <-].
  exists []. simpl. by rewrite app_nil_r.
Qed.

Lemma getModuleId_untouched path : respects (@untouched W R A) (getModuleId path).
Proof.
  intros s r s'. unfold getModuleId.
  destruct (createModuleId path (_getModuleId s)). by intros [= _ <-].
Qed.

Lemma getModuleId_extends path : respects (@extends W R A) (getModuleId path).
Proof.
  intros s r s'. unfold getModuleId.
  destruct (createModuleId path (_getModuleId s)). intros [= _ <-].
  by eexists.
Qed.

Lemma randomBytes_extends n : respects (@extends W R A) (randomBytes svc n).
Proof.
  intros s r s'. unfold randomBytes. destruct (draw svc n (entropy s)).
  intros [= _ <-]. exists []. simpl. by rewrite app_nil_r.
Qed.

Lemma set_lastSequenceId_extends x :
  respects (@extends W R A) (set_lastSequenceId x).
Proof. intros s r s' [= _ <-]. exists []. simpl. by rewrite app_nil_r. Qed.

Hint Resolve emit_untouched emit_extends call_untouched call_extends
  issue_untouched issue_extends getModuleId_untouched getModuleId_extends
  randomBytes_extends set_lastSequenceId_extends : respects.

Lemma wrapModule_untouched edge dev :
  respects (@untouched W R A) (wrapModule svc edge dev).
Proof. unfold wrapModule. respects_auto. Qed.

Lemma wrapModule_extends edge dev :
  respects (@extends W R A) (wrapModule svc edge dev).
Proof. unfold wrapModule. respects_auto. Qed.

Hint Resolve wrapModule_untouched wrapModule_extends : respects.

Lemma transformModule_finish_untouched edge name minified :
  respects (@untouched W R A) (_transformModule_finish edge name minified).
Proof. unfold _transformModule_finish. respects_auto. Qed.

Lemma transformModule_finish_extends edge name minified :
  respects (@extends W R A) (_transformModule_finish edge name minified).
Proof. unfold _transformModule_finish. respects_auto. Qed.

Hint Resolve transformModule_finish_untouched transformModule_finish_extends
  : respects.

Lemma transformModule_call_untouched transformOptions edge :
  respects (@untouched W R A) (_transformModule_call svc transformOptions edge).
Proof. unfold _transformModule_call. respects_auto. Qed.

Lemma transformModule_call_extends transformOptions edge :
  respects (@extends W R A) (_transformModule_call svc transformOptions edge).
Proof. unfold _transformModule_call. respects_auto. Qed.

Lemma transformModule_resume_untouched k :
  respects (@untouched W R A) (_transformModule_resume k).
Proof. unfold _transformModule_resume. respects_auto. Qed.

Lemma transformModule_resume_extends k :
  respects (@extends W R A) (_transformModule_resume k).
Proof. unfold _transformModule_resume. respects_auto. Qed.

Hint Resolve transformModule_call_untouched transformModule_call_extends
  transformModule_resume_untouched transformModule_resume_extends : respects.

Lemma Promise_all_untouched started :
  respects (@untouched W R A) (Promise_all svc started).
Proof. unfold Promise_all. respects_auto. Qed.

Lemma Promise_all_extends started :
  respects (@extends W R A) (Promise_all svc started).
Proof. unfold Promise_all. respects_auto. Qed.

Hint Resolve Promise_all_untouched Promise_all_extends : respects.

Lemma transformModules_untouched modules transformOptions :
  respects (@untouched W R A) (_transformModules svc modules transformOptions).
Proof. unfold _transformModules. respects_auto. Qed.

Lemma transformModules_extends modules transformOptions :
  respects (@extends W R A) (_transformModules svc modules transformOptions).
Proof. unfold _transformModules. respects_auto. Qed.

Lemma createEdgeFromScript_untouched file transformOptions :
  respects (@untouched W R A) (_createEdgeFromScript svc file transformOptions).
Proof. unfold _createEdgeFromScript. respects_auto. Qed.

Lemma createEdgeFromScript_extends file transformOptions :
  respects (@extends W R A) (_createEdgeFromScript svc file transformOptions).
Proof. unfold _createEdgeFromScript. respects_auto. Qed.

Hint Resolve transformModules_untouched transformModules_extends
  createEdgeFromScript_untouched createEdgeFromScript_extends : respects.

Lemma precalculateModuleIds_untouched modules :
  respects (@untouched W R A) (precalculateModuleIds modules).
Proof. unfold precalculateModuleIds. respects_auto. Qed.

Lemma precalculateModuleIds_extends modules :
  respects (@extends W R A) (precalculateModuleIds modules).
Proof. unfold precalculateModuleIds. respects_auto. Qed.

Lemma setDeleted_untouched modifiedDelta deleted :
  respects (@untouched W R A) (setDeleted modifiedDelta deleted).
Proof. unfold setDeleted. respects_auto. Qed.

Lemma setDeleted_extends modifiedDelta deleted :
  respects (@extends W R A) (setDeleted modifiedDelta deleted).
Proof. unfold setDeleted. respects_auto. Qed.

Lemma getPrepend_untouched transformOptions :
  respects (@untouched W R A)
    (_getPrepend svc options bundleOptions transformOptions).
Proof. unfold _getPrepend. respects_auto. Qed.

Lemma getPrepend_extends transformOptions :
  respects (@extends W R A)
    (_getPrepend svc options bundleOptions transformOptions).
Proof. unfold _getPrepend. respects_auto. Qed.

Lemma getAppend_untouched dependencyEdges :
  respects (@untouched W R A) (_getAppend bundleOptions dependencyEdges).
Proof. unfold _getAppend. respects_auto. Qed.

Lemma getAppend_extends dependencyEdges :
  respects (@extends W R A) (_getAppend bundleOptions dependencyEdges).
Proof. unfold _getAppend. respects_auto. Qed.

Hint Resolve getPrepend_untouched getPrepend_extends getAppend_untouched
  getAppend_extends : respects.

End Frames.

#[export] Hint Resolve emit_untouched emit_extends call_untouched call_extends
  issue_untouched issue_extends getModuleId_untouched getModuleId_extends
  randomBytes_extends set_lastSequenceId_extends
  wrapModule_untouched wrapModule_extends
  transformModule_finish_untouched transformModule_finish_extends
  transformModule_call_untouched transformModule_call_extends
  transformModule_resume_untouched transformModule_resume_extends
  Promise_all_untouched Promise_all_extends
  transformModules_untouched transformModules_extends
  createEdgeFromScript_untouched createEdgeFromScript_extends
  getPrepend_untouched getPrepend_extends getAppend_untouched
  getAppend_extends precalculateModuleIds_untouched
  precalculateModuleIds_extends setDeleted_untouched setDeleted_extends
  : respects.

(** ** What the methods return *)

Section Returns.
Context {W R A : Type} `{!ModuleIdFactory A}.

Lemma returns_ret {X} (x : X) (Q : X → Prop) :
  Q x → returns (mret x : M W R A X) Q.
Proof. by intros HQ s x' s' [[= <-] _]%ret_run. Qed.

Lemma returns_bind {X Y} (m : M W R A X) (f : X → M W R A Y) P Q :
  returns m P → (∀ x, P x → returns (f x) Q) → returns (m ≫= f) Q.
Proof.
  intros Hm Hf s y s2 (x & s1 & Hx & Hy)%bind_Ok.
  eapply Hf; [by eapply Hm|done].
Qed.

Lemma returns_any {X} (m : M W R A X) : returns m (λ _, True).
Proof. by intros s x s' _. Qed.

Lemma returns_mapM {X Y} (f : X → M W R A Y) xs Q :
  (∀ x, returns (f x) Q) → returns (mapM f xs) (Forall Q).
Proof.
  intros Hf. induction xs as [|x xs IH]; simpl.
  - by apply returns_ret.
  - eapply returns_bind; [apply Hf|]. intros y Hy.
    eapply returns_bind; [apply IH|]. intros ys Hys.
    apply returns_ret. by constructor.
Qed.

Lemma returns_foldlM {X Y} (f : Y → X → M W R A Y) xs acc (I : Y → Prop) :
  I acc → (∀ acc x, I acc → returns (f acc x) I) →
  returns (foldlM f acc xs) I.
Proof.
  intros Hacc Hf. revert acc Hacc.
  induction xs as [|x xs IH]; intros acc Hacc; simpl.
  - by apply returns_ret.
  - eapply returns_bind; [by apply Hf|]. intros acc' Hacc'. by apply IH.
Qed.

End Returns.

(** ** Entries are stored under their own id *)

Lemma JSMap_set_Forall {V} (P : nat * V → Prop) k v m :
  Forall P m → P (k, v) → Forall P (JSMap.set k v m).
Proof.
  intros Hm Hkv. induction m as [|[k' v'] m IH]; cbn.
  - by constructor.
  - apply Forall_cons in Hm as [Hk' Hm]. case_bool_decide.
    + by constructor.
    + constructor; [done|]. by apply IH.
Qed.

Lemma JSMap_of_entries_Forall {V} (P : nat * V → Prop) entries :
  Forall P entries → Forall P (JSMap.of_entries entries).
Proof.
  unfold JSMap.of_entries.
  assert (Hgen : ∀ acc, Forall P acc → Forall P entries →
            Forall P (foldl (λ m kv, JSMap.set kv.1 kv.2 m) acc entries)).
  { induction entries as [|[k v] entries IH]; intros acc Hacc Hall; [done|].
    apply Forall_cons in Hall as [Hkv Hall]. cbn.
    apply IH; [|done]. by apply JSMap_set_Forall. }
  apply Hgen. constructor.
Qed.

Lemma liveEntry_keyedEntry kv : liveEntry kv → keyedEntry kv.
Proof. intros (entry & Hentry & Hid). unfold keyedEntry. by rewrite Hentry. Qed.

Lemma live_keyed entries : live entries → keyed entries.
Proof. intros Hlive. eapply Forall_impl; [done|apply liveEntry_keyedEntry]. Qed.

Section Keyed.
Context {W R A : Type} `{!ModuleIdFactory A}.
Context (svc : Services W R).
Context (options : MainOptions.t) (bundleOptions : BundleOptions.t).

Lemma transformModule_finish_live edge name minified :
  returns (_transformModule_finish (W := W) (R := R) edge name minified)
    liveEntry.
Proof.
  unfold _transformModule_finish.
  eapply returns_bind; [apply returns_any|]. intros id _.
  apply returns_ret. by eexists.
Qed.

Lemma transformModule_call_live transformOptions edge :
  returns (_transformModule_call svc transformOptions edge)
    (λ started, from_option liveEntry True (slot started)).
Proof.
  unfold _transformModule_call.
  eapply returns_bind; [apply returns_any|]. intros _ _.
  eapply returns_bind; [apply returns_any|]. intros wrapped _.
  destruct (JSTransformerOptions.minify transformOptions).
  - eapply returns_bind; [apply returns_any|]. intros minified _.
    by apply returns_ret.
  - eapply returns_bind; [apply transformModule_finish_live|].
    intros entry Hentry. by apply returns_ret.
Qed.

Lemma Promise_all_live started :
  Forall (λ st, from_option liveEntry True (slot st)) started →
  returns (Promise_all svc started) (Forall liveEntry).
Proof.
  intros Hstarted. unfold Promise_all.
  eapply returns_bind; [apply returns_any|]. intros w _.
  eapply (returns_bind _ _ (Forall (from_option liveEntry True))).
  - apply returns_foldlM.
    + by apply Forall_fmap.
    + intros slots [i k] Hslots. cbn.
      eapply returns_bind.
      * unfold _transformModule_resume.
        eapply returns_bind; [apply returns_any|]. intros minified _.
        apply transformModule_finish_live.
      * intros entry Hentry. apply returns_ret. by apply Forall_insert.
  - intros slots Hslots.
    destruct (mapM _ slots) as [entries|] eqn:Hall.
    + apply returns_ret. apply mapM_Some in Hall.
      induction Hall as [|o entry slots' entries' Ho _ IH]; [done|].
      apply Forall_cons in Hslots as [Hentry Hslots]. subst o.
      constructor; [done|]. by apply IH.
    + by intros s x s' [=].
Qed.

Lemma transformModules_live modules transformOptions :
  returns (_transformModules svc modules transformOptions) live.
Proof.
  unfold _transformModules.
  eapply returns_bind.
  { apply returns_mapM. intros edge. apply transformModule_call_live. }
  intros started Hstarted.
  eapply returns_bind; [by apply Promise_all_live|].
  intros entries Hentries. apply returns_ret.
  by apply JSMap_of_entries_Forall.
Qed.

Lemma getPrepend_live transformOptions :
  returns (_getPrepend svc options bundleOptions transformOptions) live.
Proof.
  unfold _getPrepend.
  eapply returns_bind; [apply returns_any|]. intros preludeId _.
  eapply returns_bind; [apply returns_any|]. intros edges _.
  eapply returns_bind; [apply transformModules_live|].
  intros transformedModules Hlive.
  apply returns_ret. apply JSMap_of_entries_Forall.
  constructor; [by eexists|done].
Qed.

Lemma getAppend_live (dependencyEdges : W → DependencyEdges) :
  returns (_getAppend (R := R) bundleOptions dependencyEdges) live.
Proof.
  unfold _getAppend.
  eapply returns_bind; [apply returns_any|]. intros w _.
  eapply returns_bind; [apply returns_any|]. intros moduleIds _.
  assert (Hrequire : live (JSMap.of_entries (requireEntry <$> moduleIds))).
  { apply JSMap_of_entries_Forall, Forall_fmap, Forall_forall.
    intros id _. by eexists. }
  destruct (truthy _).
  - eapply returns_bind; [apply returns_any|]. intros id _.
    apply returns_ret. apply JSMap_set_Forall; [done|]. by eexists.
  - by apply returns_ret.
Qed.

Lemma returns_impl {X} (m : M W R A X) (P Q : X → Prop) :
  (∀ x, P x → Q x) → returns m P → returns m Q.
Proof. intros HPQ Hm s x s' Hrun. eapply HPQ, Hm, Hrun. Qed.

(** Every mapping of a response [_getDelta] resolves to is keyed. *)
Lemma getDelta_resume_keyed answer :
  returns (_getDelta_resume svc options bundleOptions answer)
    (λ response,
       keyed (DeltaTransformResponse.pre response)
       ∧ keyed (DeltaTransformResponse.post response)
       ∧ keyed (DeltaTransformResponse.delta response)).
Proof.
  unfold _getDelta_resume.
  eapply returns_bind; [apply returns_any|]. intros d _.
  eapply returns_bind; [apply returns_any|]. intros transformerOptions _.
  eapply (returns_bind _ _ keyed).
  { destruct (DeltaResult.reset d).
    - eapply returns_impl; [apply live_keyed|apply getPrepend_live].
    - apply returns_ret. constructor. }
  intros prependSources Hpre.
  eapply returns_bind; [apply returns_any|]. intros _ _.
  eapply (returns_bind _ _ keyed).
  { eapply returns_impl; [apply live_keyed|apply transformModules_live]. }
  intros modifiedDelta Hdelta.
  eapply (returns_bind _ _ keyed).
  { unfold setDeleted. apply returns_foldlM; [done|]. intros acc id Hacc.
    eapply returns_bind; [apply returns_any|]. intros moduleId _.
    apply returns_ret. by apply JSMap_set_Forall. }
  intros modifiedDelta' Hdelta'.
  eapply (returns_bind _ _ keyed).
  { destruct (DeltaResult.reset d).
    - eapply returns_impl; [apply live_keyed|apply getAppend_live].
    - apply returns_ret. constructor. }
  intros appendSources Hpost.
  eapply returns_bind; [apply returns_any|]. intros bytes _.
  eapply returns_bind; [apply returns_any|]. intros _ _.
  by apply returns_ret.
Qed.

End Keyed.

(** ** One build *)

(** Splits a run of a sequence of calls into the runs of the calls. *)
Ltac run_inv H :=
  repeat
    match type of H with
    | (_ ≫= _) _ = (_, _) =>
        let x := fresh "x" in
        let s := fresh "s" in
        let Hx := fresh "Hx" in
        apply bind_run in H as [(x & s & Hx & H)|(? & H & ->)]
    end.

(** Records, for every run among the hypotheses, that it respects [rel]. *)
Ltac frames rel :=
  repeat
    match goal with
    | H : ?m ?s1 = (_, ?s2) |- _ =>
        lazymatch goal with
        | _ : rel s1 s2 |- _ => fail
        | _ =>
            let Hr := fresh "Hr" in
            assert (respects rel m) as Hr by respects_auto;
            pose proof (Hr _ _ _ H); clear Hr
        end
    end.

Section Build.
Context {W R A : Type} `{!ModuleIdFactory A}.
Context (svc : Services W R).
Context (options : MainOptions.t) (bundleOptions : BundleOptions.t).

Lemma draw_S n r :
  draw svc (S n) r
  = (let '(b, r') := randomByte svc r in
     let '(bs, r'') := draw svc n r' in (b :: bs, r'')).
Proof. done. Qed.

Lemma draw_length n r : length (draw svc n r).1 = n.
Proof.
  revert r. induction n as [|n IH]; intros r; [done|].
  rewrite draw_S. destruct (randomByte svc r) as [b r'].
  specialize (IH r'). destruct (draw svc n r') as [bs r''].
  cbn in *. by rewrite IH.
Qed.

Lemma randomBytes_run n (s : DeltaTransformer W R A) r s' :
  randomBytes svc n s = (r, s') →
  ∃ bytes,
    r = Ok bytes
    ∧ bytes = (draw svc n (entropy s)).1
    ∧ entropy s' = (draw svc n (entropy s)).2
    ∧ _lastSequenceId s' = _lastSequenceId s
    ∧ _currentBuildPromise s' = _currentBuildPromise s.
Proof.
  unfold randomBytes. destruct (draw svc n (entropy s)) as [bytes r'].
  intros [= <- <-]. by exists bytes.
Qed.

Lemma set_lastSequenceId_run x (s : DeltaTransformer W R A) r s' :
  set_lastSequenceId x s = (r, s') →
  _lastSequenceId s' = x
  ∧ _currentBuildPromise s' = _currentBuildPromise s
  ∧ entropy s' = entropy s.
Proof. by intros [= _ <-]. Qed.

(** A build either throws, having left the fields of the instance and the
    entropy pool alone, or it ends by drawing eight bytes, storing their
    hex form as the last sequence id and returning it as the id of the
    response. *)
Lemma getDelta_resume_run answer (s : DeltaTransformer W R A) r s' :
  _getDelta_resume svc options bundleOptions answer s = (r, s') →
  (∃ e, r = Throw e ∧ untouched s s')
  ∨ (∃ response,
       r = Ok response
       ∧ DeltaTransformResponse.id response
         = toString_hex (draw svc 8 (entropy s)).1
       ∧ _lastSequenceId s' = Some (DeltaTransformResponse.id response)
       ∧ _currentBuildPromise s' = _currentBuildPromise s
       ∧ entropy s' = (draw svc 8 (entropy s)).2).
Proof.
  unfold _getDelta_resume. intros H. run_inv H; frames (@untouched W R A).
  all: try match goal with
    | H : randomBytes _ _ _ = (Throw _, _) |- _ =>
        by apply randomBytes_run in H as (? & [=] & _)
    | H : set_lastSequenceId _ _ = (Throw _, _) |- _ => discriminate H
    end.
  all: try (left; eexists; split; [done|];
            unfold untouched in *; split_and!; intuition congruence).
  right. apply ret_run in H as [-> ->]. eexists. split; [done|].
  repeat match goal with
    | H : randomBytes _ _ _ = _ |- _ =>
        apply randomBytes_run in H as (bytes & [= ->] & Hbytes & Hpool & ? & ?)
    | H : set_lastSequenceId _ _ = _ |- _ =>
        apply set_lastSequenceId_run in H as (? & ? & Hpool')
    end.
  cbn [DeltaTransformResponse.id].
  match type of Hbytes with
  | _ = (draw svc 8 (entropy ?s0)).1 =>
      assert (entropy s0 = entropy s) as Hentropy
        by (unfold untouched in *; intuition congruence);
      rewrite Hentropy in Hbytes, Hpool
  end.
  unfold untouched in *. split_and!; [by rewrite Hbytes|done| |].
  - intuition congruence.
  - congruence.
Qed.

(** The steps of a build that resolved, in the order of the source. *)
Lemma getDelta_resume_Ok answer (s : DeltaTransformer W R A) response s' :
  _getDelta_resume svc options bundleOptions answer s = (Ok response, s') →
  ∃ d transformerOptions s1 s2 s3 modifiedDelta s4 s5 s6,
    answer = Ok d
    ∧ DeltaTransformResponse.reset response = DeltaResult.reset d
    ∧ call (calculator_getTransformerOptions svc) s
      = (Ok transformerOptions, s1)
    ∧ (if DeltaResult.reset d
       then _getPrepend svc options bundleOptions transformerOptions
       else mret []) s1
      = (Ok (DeltaTransformResponse.pre response), s2)
    ∧ precalculateModuleIds (DeltaResult.modified d).*2 s2 = (Ok (), s3)
    ∧ _transformModules svc (DeltaResult.modified d).*2 transformerOptions s3
      = (Ok modifiedDelta, s4)
    ∧ setDeleted modifiedDelta (DeltaResult.deleted d) s4
      = (Ok (DeltaTransformResponse.delta response), s5)
    ∧ (if DeltaResult.reset d
       then _getAppend bundleOptions (calculator_getGraph svc)
       else mret []) s5
      = (Ok (DeltaTransformResponse.post response), s6)
    ∧ _getModuleId s' = _getModuleId s6
    ∧ trace s' = trace s6
    ∧ world s' = world s6.
Proof.
  unfold _getDelta_resume. intros H.
  repeat match type of H with
    | (_ ≫= _) _ = (Ok _, _) =>
        let x := fresh "x" in
        let s := fresh "s" in
        let Hx := fresh "Hx" in
        apply bind_Ok in H as (x & s & Hx & H)
    end.
  apply ret_run in H as [[= ->] ->].
  match goal with
  | H : await answer s = _ |- _ => injection H as -> <-
  end.
  repeat match goal with
    | H : randomBytes _ _ _ = _ |- _ =>
        unfold randomBytes in H; destruct (draw svc 8 _); injection H as <- <-
    | H : set_lastSequenceId _ _ = _ |- _ => injection H as _ <-
    | x : unit |- _ => destruct x
    end.
  eexists _, _, _, _, _, _, _, _, _. cbn.
  split_and!; try done.
Qed.

End Build.

(** ** The runtime *)

Lemma toString_hex_length buf : String.length (toString_hex buf) = 2 * length buf.
Proof.
  induction buf as [|b buf IH]; [done|].
  change (String.length (toString_hex (b :: buf)))
    with (S (S (String.length (toString_hex buf)))).
  rewrite IH. cbn [length]. lia.
Qed.

Section Runtime.
Context {W R A : Type} `{!ModuleIdFactory A}.
Context (svc : Services W R).
Context (options : MainOptions.t) (bundleOptions : BundleOptions.t).

Abbreviation step' := (step svc options bundleOptions).
Abbreviation run' := (run svc options bundleOptions).

(** Line 207: the promise is created pending, the calculator is asked with
    [reset], and the field holds the new promise. *)
Lemma getDelta_build_run reset (rt rt' : Runtime W R A) caller :
  getDelta_build svc reset rt = (rt', caller) →
  caller = AtLine212 (length (promises rt))
  ∧ callers rt' = callers rt
  ∧ promises rt'
    = promises rt
        ++ [{| build_answer :=
                 (calculator_getDelta svc reset (world (instance rt))).1;
               build_outcome := None |}]
  ∧ _lastSequenceId (instance rt') = _lastSequenceId (instance rt)
  ∧ _currentBuildPromise (instance rt') = Some (length (promises rt))
  ∧ _getModuleId (instance rt') = _getModuleId (instance rt)
  ∧ entropy (instance rt') = entropy (instance rt)
  ∧ trace (instance rt')
    = trace (instance rt)
        ++ [EvBuildStarted (length (promises rt)); EvCalculatorGetDelta reset].
Proof.
  unfold getDelta_build, _getDelta_call, log, emit, call, mbind, M_bind.
  cbn. destruct (calculator_getDelta svc reset (world (instance rt))).
  intros [= <- <-]. cbn. rewrite <- app_assoc. done.
Qed.

Lemma consistent_create getModuleId0 w r :
  consistent svc options bundleOptions (create (A := A) getModuleId0 w r).
Proof. split_and!; intros *; cbn; by try rewrite lookup_nil. Qed.

Lemma consistent_step action (rt rt' : Runtime W R A) :
  consistent svc options bundleOptions rt →
  step' action rt = Some rt' →
  consistent svc options bundleOptions rt'.
Proof.
  intros (Hpromises & Hcallers & Hid) Hstep.
  destruct action as [sequenceId|p|c]; cbn in Hstep.
  - (* a call *)
    injection Hstep as <-. unfold getDelta_call.
    destruct (_currentBuildPromise (instance rt)) as [p|].
    + split_and!; cbn; [done| |done].
      intros c response [?|[_ Hnew]]%lookup_app_Some; [by eauto|].
      by apply list_lookup_singleton_Some in Hnew as [_ [=]].
    + destruct (getDelta_build svc _ rt) as [rt1 caller] eqn:Hbuild.
      apply getDelta_build_run in Hbuild
        as (-> & Hc & Hp & Hl & _).
      split_and!; cbn.
      * intros p build response. rewrite Hp.
        intros [?|[_ Hnew]]%lookup_app_Some; [by eauto|].
        apply list_lookup_singleton_Some in Hnew as [_ <-]. done.
      * intros c response. rewrite Hc.
        intros [?|[_ Hnew]]%lookup_app_Some; [by eauto|].
        by apply list_lookup_singleton_Some in Hnew as [_ [=]].
      * intros id. rewrite Hl. apply Hid.
  - (* a build runs to its end *)
    destruct (promises rt !! p) as [build|] eqn:Hp; [|done]. cbn in Hstep.
    destruct (build_outcome build) eqn:Hpending; [done|].
    destruct (_getDelta_resume _ _ _ _ _) as [outcome s] eqn:Hrun.
    injection Hstep as <-. split_and!; cbn.
    + intros p' build' response [[-> [<- _]]|[_ ?]]%list_lookup_insert_Some.
      * cbn. intros [= ->]. by eexists _, _, _.
      * eauto.
    + done.
    + intros id. apply getDelta_resume_run in Hrun
        as [(e & -> & Hl & _)|(response & -> & Hresponse & Hl & _ & _)].
      * rewrite Hl. apply Hid.
      * rewrite Hl, Hresponse. intros [= <-].
        rewrite toString_hex_length, draw_length. done.
  - (* a caller resumes *)
    destruct (callers rt !! c) as [caller|] eqn:Hc; [|done]. cbn in Hstep.
    destruct (awaited caller) as [p|] eqn:Hawaited; [|done]. cbn in Hstep.
    destruct (promises rt !! p) as [build|] eqn:Hp; [|done]. cbn in Hstep.
    destruct (build_outcome build) as [outcome|] eqn:Houtcome; [|done].
    cbn in Hstep.
    destruct (getDelta_resume svc caller outcome rt) as [rt1 caller'] eqn:Hres.
    injection Hstep as <-.
    destruct caller as [reset p'|p'|]; [| |done]; cbn in Hres.
    + destruct outcome as [response|e].
      * apply getDelta_build_run in Hres as (-> & Hc1 & Hp1 & Hl & _).
        split_and!; cbn.
        -- intros p0 build0 response0. rewrite Hp1.
           intros [?|[_ Hnew]]%lookup_app_Some; [by eauto|].
           apply list_lookup_singleton_Some in Hnew as [_ <-]. done.
        -- intros c0 response0. rewrite Hc1.
           intros [[_ [[=] _]]|[_ ?]]%list_lookup_insert_Some. eauto.
        -- intros id. rewrite Hl. apply Hid.
      * injection Hres as <- <-. split_and!; cbn; [done| |done].
        intros c0 response0 [[_ [[=] _]]|[_ ?]]%list_lookup_insert_Some. eauto.
    + injection Hres as <- <-. split_and!; cbn; [done| |done].
      intros c0 response0 [[_ [[= ->] _]]|[_ ?]]%list_lookup_insert_Some;
        eauto.
Qed.

Lemma consistent_run actions (rt rt' : Runtime W R A) :
  consistent svc options bundleOptions rt →
  run' actions rt = Some rt' →
  consistent svc options bundleOptions rt'.
Proof.
  revert rt. induction actions as [|action actions IH]; intros rt Hrt; cbn.
  - by intros [= <-].
  - destruct (step' action rt) as [rt1|] eqn:Hstep; [|done]. cbn.
    apply IH. by eapply consistent_step.
Qed.

Lemma reachable_consistent (rt : Runtime W R A) :
  reachable svc options bundleOptions rt →
  consistent svc options bundleOptions rt.
Proof.
  intros (getModuleId0 & w & r & actions & Hrun).
  eapply consistent_run; [apply consistent_create|done].
Qed.

End Runtime.

(** ** The first entry of the prepended segment *)

Lemma JSMap_of_entries_head {V} k (v : V) entries :
  ∃ v' m', JSMap.of_entries ((k, v) :: entries) = (k, v') :: m'
           ∧ (k ∉ entries.*1 → v' = v).
Proof.
  unfold JSMap.of_entries. cbn.
  generalize (@nil (nat * V)) as m. revert v.
  induction entries as [|[k1 v1] entries IH]; intros v m; cbn.
  - by eexists _, _.
  - case_bool_decide as Hk.
    + subst k1. destruct (IH v1 m) as (v' & m' & -> & Hv').
      eexists _, _. split; [done|]. set_solver.
    + destruct (IH v (JSMap.set k1 v1 m)) as (v' & m' & -> & Hv').
      eexists _, _. split; [done|]. set_solver.
Qed.

Section Prepend.
Context {W R A : Type} `{!ModuleIdFactory A}.
Context (svc : Services W R).
Context (options : MainOptions.t) (bundleOptions : BundleOptions.t).

Lemma getModuleId_trace path (s : DeltaTransformer W R A) r s' :
  getModuleId path s = (r, s') →
  trace s' = trace s ++ [EvGetModuleId path].
Proof.
  unfold getModuleId. destruct (createModuleId path (_getModuleId s)).
  by intros [= _ <-].
Qed.

(** [_getPrepend] asks for the id of the prelude before anything else and
    builds its map from an array that starts with the prelude. *)
Lemma getPrepend_Ok transformOptions (s : DeltaTransformer W R A) pre s' :
  _getPrepend svc options bundleOptions transformOptions s = (Ok pre, s') →
  ∃ preludeId s0 transformedModules t,
    getModuleId "__prelude__" s = (Ok preludeId, s0)
    ∧ trace s' = trace s ++ EvGetModuleId "__prelude__" :: t
    ∧ pre
      = JSMap.of_entries
          ((preludeId, Some (_getPrelude svc bundleOptions preludeId))
             :: transformedModules).
Proof.
  unfold _getPrepend. intros H.
  apply bind_Ok in H as (preludeId & s0 & Hprelude & H).
  assert (extends s0 s') as [t Ht].
  { revert H.
    match goal with
    | |- ?m s0 = _ → _ =>
        assert (respects (@extends W R A) m) as Hr by respects_auto
    end.
    apply Hr. }
  apply bind_Ok in H as (edges & s1 & _ & H).
  apply bind_Ok in H as (transformedModules & s2 & _ & H).
  apply ret_run in H as [[= ->] _].
  exists preludeId, s0, transformedModules, t. split; [done|]. split; [|done].
  rewrite Ht, (getModuleId_trace _ _ _ _ Hprelude), <- app_assoc. done.
Qed.

End Prepend.

(** ** Responses *)

Lemma afterFirstCall_reachable :
  reachable Demo.services Demo.options Demo.bundleOptions Demo.afterFirstCall.
Proof.
  exists (Allocator.createModuleIdFactory 0),
    (Demo.world [Ok (Demo.firstBuild, Demo.graphAB)]), 0, Demo.firstCall.
  vm_compute. reflexivity.
Defined.

Lemma afterFirstCall_response :
  callers Demo.afterFirstCall !! 0 = Some (Finished (Ok Demo.firstResponse)).
Proof. reflexivity. Defined.

Section Responses.
Context {W R A : Type} `{!ModuleIdFactory A}.
Context (svc : Services W R).
Context (options : MainOptions.t) (bundleOptions : BundleOptions.t).

Lemma returned_built (rt : Runtime W R A) c response :
  reachable svc options bundleOptions rt →
  callers rt !! c = Some (Finished (Ok response)) →
  built svc options bundleOptions response.
Proof.
  intros (_ & Hcallers & _)%reachable_consistent Hc. by eapply Hcallers.
Qed.

(** C10.  In every response [getDelta] returns, each entry of [pre], of
    [post] and of [delta] that is not a tombstone has the id it is stored
    under. *)
Theorem response_entries_keyed (rt : Runtime W R A) c response :
  reachable svc options bundleOptions rt →
  callers rt !! c = Some (Finished (Ok response)) →
  keyed (DeltaTransformResponse.pre response)
  ∧ keyed (DeltaTransformResponse.post response)
  ∧ keyed (DeltaTransformResponse.delta response).
Proof.
  intros Hrt Hc.
  destruct (returned_built rt c response Hrt Hc) as (answer & s & s' & Hrun).
  by eapply getDelta_resume_keyed.
Qed.


(** C6.  In every response with [reset] set, whatever the polyfills
    configured, [pre] is what a run of [_getPrepend] returned; the first
    thing that run did was to ask for the id of [__prelude__], before the
    id of the module system or of any polyfill, and the id it was given is
    the first key of [pre]. *)
Theorem prelude_first (rt : Runtime W R A) c response :
  reachable svc options bundleOptions rt →
  callers rt !! c = Some (Finished (Ok response)) →
  DeltaTransformResponse.reset response = true →
  ∃ transformOptions s s' preludeId s0 t rest,
    _getPrepend svc options bundleOptions transformOptions s
    = (Ok (DeltaTransformResponse.pre response), s')
    ∧ getModuleId "__prelude__" s = (Ok preludeId, s0)
    ∧ trace s' = trace s ++ EvGetModuleId "__prelude__" :: t
    ∧ JSMap.keys (DeltaTransformResponse.pre response) = preludeId :: rest.
Proof.
  intros Hrt Hc Hreset.
  destruct (returned_built rt c response Hrt Hc) as (answer & s & s' & Hrun).
  apply getDelta_resume_Ok in Hrun
    as (d & transformOptions & s1 & s2 & s3 & modifiedDelta & s4 & s5 & s6
        & _ & Hd & _ & Hpre & _).
  rewrite <- Hd, Hreset in Hpre.
  destruct (getPrepend_Ok svc options bundleOptions _ _ _ _ Hpre)
    as (preludeId & s0 & transformedModules & t & Hprelude & Htrace & Hmap).
  destruct (JSMap_of_entries_head preludeId
              (Some (_getPrelude svc bundleOptions preludeId))
              transformedModules) as (v' & rest & Hhead & _).
  exists transformOptions, s1, s2, preludeId, s0, t, rest.*1.
  split_and!; [done..|]. by rewrite Hmap, Hhead.
Qed.

Lemma step_Settle p (rt rt1 : Runtime W R A) :
  step svc options bundleOptions (Settle p) rt = Some rt1 →
  ∃ build outcome,
    promises rt !! p = Some build
    ∧ build_outcome build = None
    ∧ _getDelta_resume svc options bundleOptions (build_answer build)
        (instance rt)
      = (outcome, instance rt1)
    ∧ promises rt1
      = <[p := {| build_answer := build_answer build;
                  build_outcome := Some outcome |}]> (promises rt)
    ∧ callers rt1 = callers rt.
Proof.
  cbn. destruct (promises rt !! p) as [build|] eqn:Hp; [|done]. cbn.
  destruct (build_outcome build) eqn:Hpending; [done|].
  destruct (_getDelta_resume _ _ _ _ _) as [outcome s] eqn:Hrun.
  intros [= <-]. by exists build, outcome.
Qed.

(** The outcome of the build a [Settle] step ran. *)
Lemma step_Settle_outcome p (rt rt1 : Runtime W R A) build1 outcome :
  step svc options bundleOptions (Settle p) rt = Some rt1 →
  promises rt1 !! p = Some build1 →
  build_outcome build1 = Some outcome →
  ∃ build,
    promises rt !! p = Some build
    ∧ _getDelta_resume svc options bundleOptions (build_answer build)
        (instance rt)
      = (outcome, instance rt1)
    ∧ callers rt1 = callers rt.
Proof.
  intros (build & outcome' & Hp & _ & Hrun & Hp1 & Hc)%step_Settle Hb Ho.
  rewrite Hp1 in Hb.
  apply list_lookup_insert_Some in Hb as [(_ & <- & _)|[? _]]; [|done].
  cbn in Ho. injection Ho as ->. by exists build.
Qed.

(** C2 (as amended).  Every build that resolves draws eight bytes from
    the entropy pool, which nothing else in the build reads, and takes
    their hexadecimal form, sixteen digits, as the id of the response and
    as the new last sequence id: a token of 64 bits that depends on the
    pool alone. *)
Theorem sequence_id_minted (rt rt1 : Runtime W R A) p build1 response :
  step svc options bundleOptions (Settle p) rt = Some rt1 →
  promises rt1 !! p = Some build1 →
  build_outcome build1 = Some (Ok response) →
  DeltaTransformResponse.id response
  = toString_hex (draw svc 8 (entropy (instance rt))).1
  ∧ length (draw svc 8 (entropy (instance rt))).1 = 8
  ∧ hex_token_bits (DeltaTransformResponse.id response) = 64
  ∧ entropy (instance rt1) = (draw svc 8 (entropy (instance rt))).2
  ∧ _lastSequenceId (instance rt1)
    = Some (DeltaTransformResponse.id response).
Proof.
  intros Hstep Hb Ho.
  destruct (step_Settle_outcome p rt rt1 build1 _ Hstep Hb Ho)
    as (build & _ & Hrun & _).
  apply getDelta_resume_run in Hrun
    as [(e & [=] & _)|(response' & [= <-] & Hid & Hlast & _ & Hpool)].
  split_and!; [done|apply draw_length| |done..].
  unfold hex_token_bits. by rewrite Hid, toString_hex_length, draw_length.
Qed.

End Responses.

Lemma response_entries_keyed_witness :
  keyed (DeltaTransformResponse.pre Demo.firstResponse)
  ∧ keyed (DeltaTransformResponse.post Demo.firstResponse)
  ∧ keyed (DeltaTransformResponse.delta Demo.firstResponse).
Proof.
  apply (response_entries_keyed Demo.services Demo.options Demo.bundleOptions
           Demo.afterFirstCall 0 Demo.firstResponse).
  - apply afterFirstCall_reachable.
  - apply afterFirstCall_response.
Defined.


Lemma prelude_first_witness :
  ∃ preludeId rest,
    JSMap.keys (DeltaTransformResponse.pre Demo.firstResponse)
    = preludeId :: rest.
Proof.
  destruct (prelude_first Demo.services Demo.options Demo.bundleOptions
              Demo.afterFirstCall 0 Demo.firstResponse
              afterFirstCall_reachable afterFirstCall_response eq_refl)
    as (_ & _ & _ & preludeId & _ & _ & rest & _ & _ & _ & Hkeys).
  by exists preludeId, rest.
Defined.

Lemma sequence_id_minted_witness :
  DeltaTransformResponse.id Demo.firstResponse = "0001020304050607"
  ∧ hex_token_bits (DeltaTransformResponse.id Demo.firstResponse) = 64.
Proof.
  destruct (sequence_id_minted Demo.services Demo.options Demo.bundleOptions
              Demo.duringFirstCall Demo.settledFirstCall 0
              {| build_answer := Ok Demo.firstBuild;
                 build_outcome := Some (Ok Demo.firstResponse) |}
              Demo.firstResponse)
    as (Hid & _ & Hbits & _); [reflexivity..|].
  split; [exact Hid|exact Hbits].
Defined.

(** C2 (as stated) fails: the id of the response to the first call on the
    demo instance has sixteen hexadecimal digits and so carries 64 bits,
    not 128. *)
Lemma sequence_id_below_128_bits :
  ¬ ∀ rt c response,
      reachable Demo.services Demo.options Demo.bundleOptions rt →
      callers rt !! c = Some (Finished (Ok response)) →
      128 ≤ hex_token_bits (DeltaTransformResponse.id response).
Proof.
  intros Hclaim.
  specialize (Hclaim Demo.afterFirstCall 0 Demo.firstResponse
                afterFirstCall_reachable afterFirstCall_response).
  vm_compute in Hclaim. lia.
Qed.

(** ** The gate of [getDelta] *)

Section Gate.
Context {W R A : Type} `{!ModuleIdFactory A}.
Context (svc : Services W R).
Context (options : MainOptions.t) (bundleOptions : BundleOptions.t).

Lemma resetRequested_true (s : DeltaTransformer W R A) sequenceId :
  resetRequested s sequenceId = true ↔
  ∃ last, _lastSequenceId s = Some last ∧ last ≠ "" ∧ sequenceId ≠ Some last.
Proof.
  unfold resetRequested, truthy, strict_ne.
  destruct (_lastSequenceId s) as [last|]; cbn.
  - rewrite andb_true_iff, !negb_true_iff, !bool_decide_eq_false.
    split.
    + intros [? ?]. by exists last.
    + intros (last' & [= <-] & ? & ?). done.
  - split; [done|]. by intros (? & [=] & _).
Qed.

Lemma getDelta_build_asks reset (rt : Runtime W R A) :
  asksCalculator svc reset rt (getDelta_build svc reset rt).1.
Proof.
  destruct (getDelta_build svc reset rt) as [rt' caller] eqn:Hbuild.
  apply getDelta_build_run in Hbuild as (_ & _ & Hp & _ & _ & _ & _ & Ht).
  by split.
Qed.

(** C4.  At a call [getDelta(S)], [reset] is true exactly when there is a
    last sequence id and [S] differs from it; in particular it is false
    before the first build has resolved.  That value is what the build of
    the call asks the calculator with, whether the build starts at once or
    once the caller has waited for the build in flight.  The [reset] of a
    response is the one in the answer of the calculator. *)
Theorem getDelta_reset (rt : Runtime W R A) (sequenceId : option string) :
  reachable svc options bundleOptions rt →
  let reset := resetRequested (instance rt) sequenceId in
  (reset = true ↔
     ∃ last, _lastSequenceId (instance rt) = Some last
             ∧ sequenceId ≠ Some last)
  ∧ (_currentBuildPromise (instance rt) = None →
       asksCalculator svc reset rt (getDelta_call svc sequenceId rt))
  ∧ (∀ p, _currentBuildPromise (instance rt) = Some p →
       getDelta_call svc sequenceId rt
       = {| instance := instance rt; promises := promises rt;
            callers := callers rt ++ [AtLine204 reset p] |}
       ∧ ∀ (rt0 : Runtime W R A) response0,
           asksCalculator svc reset rt0
             (getDelta_resume svc (AtLine204 reset p) (Ok response0) rt0).1)
  ∧ (∀ p (rt0 rt1 : Runtime W R A) build1 response,
       step svc options bundleOptions (Settle p) rt0 = Some rt1 →
       promises rt1 !! p = Some build1 →
       build_outcome build1 = Some (Ok response) →
       ∃ d, build_answer build1 = Ok d
            ∧ DeltaTransformResponse.reset response = DeltaResult.reset d).
Proof.
  intros (_ & _ & Hid)%reachable_consistent reset. split_and!.
  - unfold reset. rewrite resetRequested_true. split.
    + intros (last & ? & _ & ?). by exists last.
    + intros (last & Hlast & ?). exists last. split_and!; [done| |done].
      intros ->. by apply Hid in Hlast.
  - intros Hgate. unfold getDelta_call. rewrite Hgate.
    pose proof (getDelta_build_asks reset rt) as Hasks.
    fold reset. destruct (getDelta_build svc reset rt) as [rt' caller].
    exact Hasks.
  - intros p Hgate. unfold getDelta_call. rewrite Hgate. split; [done|].
    intros rt0 response0. apply getDelta_build_asks.
  - intros p rt0 rt1 build1 response Hstep Hb Ho.
    pose proof Hstep as (build & outcome & Hp & _ & _ & Hp1 & _)%step_Settle.
    destruct (step_Settle_outcome svc options bundleOptions p rt0 rt1 build1
                _ Hstep Hb Ho) as (build' & Hp' & Hrun & _).
    rewrite Hp1 in Hb.
    apply list_lookup_insert_Some in Hb as [(_ & <- & _)|[? _]]; [|done].
    cbn. assert (build' = build) as -> by congruence.
    apply getDelta_resume_Ok in Hrun as (d & ? & ? & ? & ? & ? & ? & ? & ?
                                         & Hanswer & Hreset & _).
    by exists d.
Qed.


(** The caller suspended at line 204 fails, without starting a build of
    its own, when the promise it awaited was rejected. *)
Lemma getDelta_resume_rejected reset p e (rt : Runtime W R A) :
  getDelta_resume svc (AtLine204 reset p) (Throw e) rt
  = (rt, Finished (Throw e)).
Proof. done. Qed.

(** No caller resumes before the promise it awaits has settled. *)
Lemma step_Resume_settled c (rt rt' : Runtime W R A) caller p :
  callers rt !! c = Some caller →
  awaited caller = Some p →
  step svc options bundleOptions (Resume c) rt = Some rt' →
  ∃ build outcome,
    promises rt !! p = Some build ∧ build_outcome build = Some outcome.
Proof.
  intros Hc Hp. cbn. rewrite Hc. cbn. rewrite Hp. cbn.
  destruct (promises rt !! p) as [build|]; cbn; [|by intros [=]].
  destruct (build_outcome build) as [outcome|] eqn:Ho; cbn; [|by intros [=]].
  intros _. by exists build, outcome.
Qed.

End Gate.

Lemma getDelta_reset_witness :
  resetRequested (instance Demo.afterFirstCall) (Some "stale") = true
  ∧ resetRequested (instance Demo.afterFirstCall) None = true
  ∧ resetRequested (instance Demo.afterFirstCall) (Some "0001020304050607")
    = false.
Proof.
  split_and!; [| |reflexivity].
  - apply (getDelta_reset Demo.services Demo.options Demo.bundleOptions
             Demo.afterFirstCall (Some "stale") afterFirstCall_reachable).
    by exists "0001020304050607".
  - apply (getDelta_reset Demo.services Demo.options Demo.bundleOptions
             Demo.afterFirstCall None afterFirstCall_reachable).
    by exists "0001020304050607".
Defined.


Section PrimingFails.
#[local] Existing Instance Demo.refusingFactory.

(** The same when it is the priming of the ids that fails: the factory
    refuses [/b.js], the first modified module. *)
Example id_priming_failure :
  ∃ rt,
    run Demo.services Demo.options Demo.bundleOptions Demo.firstCall
      (create {| Demo.refused := ["/b.js"];
                 Demo.allocator := Allocator.createModuleIdFactory 0 |}
         (Demo.world [Ok (Demo.firstBuild, Demo.graphAB)]) 0)
    = Some rt
    ∧ callers rt !! 0 = Some (Finished (Throw "no id for /b.js"))
    ∧ _currentBuildPromise (instance rt) = None
    ∧ _lastSequenceId (instance rt) = None
    ∧ filter (λ ev, ev = EvTransformModule "/b.js") (trace (instance rt)) = [].
Proof. eexists. split; [by vm_compute|]. split_and!; by vm_compute. Qed.

End PrimingFails.

(** C1 on two overlapping calls whose first build fails: the calculator
    rejects the request of the first call; the second call, suspended at
    line 204, fails with the same error.  One build was started, one
    request reached the calculator, and the answer the calculator held for
    a second request is still there. *)
Theorem second_caller_inherits_failure :
  (λ rt, (callers rt, trace (instance rt), length (promises rt),
          length (Demo.script (world (instance rt)))))
    <$> run Demo.services Demo.options Demo.bundleOptions
          Demo.overlappingCalls (Demo.start Demo.rejectingWorld)
  = Some ([Finished (Throw "boom"); Finished (Throw "boom")],
          [EvBuildStarted 0; EvCalculatorGetDelta false], 1, 1).
Proof. vm_compute. reflexivity. Qed.

(** ** The allocator of the specification *)

Section AllocatorFacts.
Implicit Types (a : Allocator.t) (p q : string) (l : list string).

Lemma getModuleId_known p a i :
  Allocator.fileToIdMap a !! p = Some i → Allocator.getModuleId p a = (i, a).
Proof. unfold Allocator.getModuleId. by intros ->. Qed.

Lemma getModuleId_lookup p a :
  Allocator.fileToIdMap (Allocator.getModuleId p a).2 !! p
  = Some (Allocator.getModuleId p a).1.
Proof.
  unfold Allocator.getModuleId.
  destruct (Allocator.fileToIdMap a !! p) eqn:Hp; cbn; [done|].
  apply lookup_insert_eq.
Qed.

Lemma getModuleId_other p a q :
  q ≠ p →
  Allocator.fileToIdMap (Allocator.getModuleId p a).2 !! q
  = Allocator.fileToIdMap a !! q.
Proof.
  intros Hne. unfold Allocator.getModuleId.
  destruct (Allocator.fileToIdMap a !! p) eqn:Hp; cbn; [done|].
  by apply lookup_insert_ne.
Qed.

Lemma getModuleId_stable p a q i :
  Allocator.fileToIdMap a !! q = Some i →
  Allocator.fileToIdMap (Allocator.getModuleId p a).2 !! q = Some i.
Proof.
  intros Hq. destruct (decide (q = p)) as [->|Hne].
  - by rewrite (getModuleId_known _ _ _ Hq).
  - by rewrite getModuleId_other.
Qed.

Lemma getModuleId_wf p a :
  Allocator.wf a → Allocator.wf (Allocator.getModuleId p a).2.
Proof.
  intros [Hlt Hinj]. unfold Allocator.getModuleId.
  destruct (Allocator.fileToIdMap a !! p) eqn:Hp; cbn; [done|].
  split; cbn.
  - intros q i [[-> <-]|[_ Hq]]%lookup_insert_Some; [lia|].
    apply Hlt in Hq. lia.
  - intros q1 q2 i [[<- <-]|[? Hq1]]%lookup_insert_Some
      [[<- Hi]|[? Hq2]]%lookup_insert_Some; try done.
    + apply Hlt in Hq2. lia.
    + apply Hlt in Hq1. lia.
    + by eapply Hinj.
Qed.

Lemma getModuleIds_cons p l a :
  Allocator.getModuleIds (p :: l) a
  = Allocator.getModuleIds l (Allocator.getModuleId p a).2.
Proof. done. Qed.

Lemma getModuleIds_app l1 l2 a :
  Allocator.getModuleIds (l1 ++ l2) a
  = Allocator.getModuleIds l2 (Allocator.getModuleIds l1 a).
Proof. apply foldl_app. Qed.

Lemma getModuleIds_stable l a q i :
  Allocator.fileToIdMap a !! q = Some i →
  Allocator.fileToIdMap (Allocator.getModuleIds l a) !! q = Some i.
Proof.
  revert a. induction l as [|p l IH]; intros a Hq; [done|].
  rewrite getModuleIds_cons. by apply IH, getModuleId_stable.
Qed.

Lemma getModuleIds_wf l a :
  Allocator.wf a → Allocator.wf (Allocator.getModuleIds l a).
Proof.
  revert a. induction l as [|p l IH]; intros a Hwf; [done|].
  rewrite getModuleIds_cons. by apply IH, getModuleId_wf.
Qed.

Lemma getModuleIds_lookup l a p :
  p ∈ l → is_Some (Allocator.fileToIdMap (Allocator.getModuleIds l a) !! p).
Proof.
  revert a. induction l as [|p' l IH]; intros a Hin.
  - by apply elem_of_nil in Hin.
  - rewrite getModuleIds_cons. apply elem_of_cons in Hin as [->|Hin].
    + eexists. apply getModuleIds_stable, getModuleId_lookup.
    + by apply IH.
Qed.

Lemma idOf_lookup a p i :
  Allocator.fileToIdMap a !! p = Some i → idOf a p = i.
Proof. unfold idOf. by intros ->. Qed.

Lemma wf_idOf_inj a p q :
  Allocator.wf a →
  is_Some (Allocator.fileToIdMap a !! p) →
  is_Some (Allocator.fileToIdMap a !! q) →
  idOf a p = idOf a q → p = q.
Proof.
  intros [_ Hinj] [i Hp] [j Hq]. rewrite (idOf_lookup _ _ _ Hp), (idOf_lookup _ _ _ Hq).
  intros ->. by eapply Hinj.
Qed.

End AllocatorFacts.


Section AllocatorOrder.
Implicit Types (a : Allocator.t) (p q : string) (l : list string).








Lemma agreeOff_weaken S S' a1 a2 :
  (∀ p, p ∈ S → p ∈ S') → agreeOff S a1 a2 → agreeOff S' a1 a2.
Proof. intros Hsub (? & ? & Hl). split_and!; [done..|]. intros p Hp. apply Hl. auto. Qed.





End AllocatorOrder.


(** ** The appended segment *)

Lemma JSMap_set_fresh {V} k (v : V) m :
  k ∉ m.*1 → JSMap.set k v m = m ++ [(k, v)].
Proof.
  induction m as [|[k' v'] m IH]; cbn; [done|].
  intros Hk. case_bool_decide; [set_solver|]. rewrite IH; [done|set_solver].
Qed.

Lemma JSMap_of_entries_NoDup {V} (entries : list (nat * V)) :
  NoDup entries.*1 → JSMap.of_entries entries = entries.
Proof.
  unfold JSMap.of_entries.
  assert (Hgen : ∀ acc : list (nat * V), NoDup (acc ++ entries).*1 →
            foldl (λ m kv, JSMap.set kv.1 kv.2 m) acc entries
            = acc ++ entries).
  { induction entries as [|[k v] entries IH]; intros acc Hnodup; cbn.
    - by rewrite app_nil_r.
    - rewrite JSMap_set_fresh.
      + rewrite IH; [by rewrite <- app_assoc|]. by rewrite <- app_assoc.
      + rewrite fmap_app in Hnodup. apply NoDup_app in Hnodup as (_ & Hd & _).
        intros Hin. apply (Hd k Hin). cbn. apply list_elem_of_here. }
  intros Hnodup. by apply (Hgen []).
Qed.

Section Append.
Context {W R : Type}.
Context (svc : Services W R).
Context (options : MainOptions.t) (bundleOptions : BundleOptions.t).

Abbreviation state := (DeltaTransformer W R Allocator.t).

Lemma getModuleId_spec path (s : state) r s' :
  getModuleId path s = (r, s') →
  r = Ok (Allocator.getModuleId path (_getModuleId s)).1
  ∧ _getModuleId s' = (Allocator.getModuleId path (_getModuleId s)).2
  ∧ world s' = world s.
Proof.
  unfold getModuleId. cbn.
  destruct (Allocator.getModuleId path (_getModuleId s)) as [i a].
  by intros [= <- <-].
Qed.

(** The ids [paths.map(this._getModuleId)] returns are those the allocator
    holds for the paths afterwards. *)
Lemma mapM_getModuleId paths (s : state) r s' :
  mapM getModuleId paths s = (r, s') →
  r = Ok (idOf (_getModuleId s') <$> paths)
  ∧ _getModuleId s' = Allocator.getModuleIds paths (_getModuleId s)
  ∧ world s' = world s.
Proof.
  revert s r s'. induction paths as [|path paths IH]; intros s r s'; cbn.
  - by intros [-> ->]%ret_run.
  - intros [(i & s1 & Hi & H)|(e & He & _)]%bind_run.
    2:{ by apply getModuleId_spec in He as ([=] & _). }
    apply getModuleId_spec in Hi as ([= ->] & Ha1 & Hw1).
    apply bind_run in H as [(ids & s2 & Hids & H)|(e & He & ->)].
    2:{ by apply IH in He as ([=] & _). }
    apply IH in Hids as ([= ->] & Ha2 & Hw2).
    apply ret_run in H as [-> ->].
    split_and!; [|by rewrite Ha2, Ha1|congruence].
    do 2 f_equal. symmetry. apply idOf_lookup.
    rewrite Ha2. apply getModuleIds_stable. rewrite Ha1.
    apply getModuleId_lookup.
Qed.

Lemma idOf_NoDup a paths :
  Allocator.wf a →
  (∀ p, p ∈ paths → is_Some (Allocator.fileToIdMap a !! p)) →
  NoDup paths → NoDup (idOf a <$> paths).
Proof.
  intros Hwf Hknown Hnodup. apply NoDup_fmap_2_strong; [|done].
  intros p q Hp Hq. apply wf_idOf_inj; auto.
Qed.

(** C7, for [_getAppend] itself. *)
Lemma getAppend_Ok (dependencyEdges : W → DependencyEdges)
    (s : state) post s' :
  Allocator.wf (_getModuleId s) →
  NoDup (BundleOptions.runBeforeMainModule bundleOptions
           ++ [BundleOptions.entryFile bundleOptions; "/sourcemap.js"]) →
  _getAppend bundleOptions dependencyEdges s = (Ok post, s') →
  post = appendedEntries bundleOptions (dependencyEdges (world s))
           (idOf (_getModuleId s'))
  ∧ world s' = world s.
Proof.
  intros Hwf Hnodup. unfold _getAppend.
  intros (w & s0 & [= <- <-] & H)%bind_Ok.
  apply bind_Ok in H as (moduleIds & s1 & Hids & H).
  apply mapM_getModuleId in Hids as ([= ->] & Ha1 & Hw1).
  set (paths := appendedPaths bundleOptions (dependencyEdges (world s))) in *.
  assert (Hwf1 : Allocator.wf (_getModuleId s1))
    by (rewrite Ha1; by apply getModuleIds_wf).
  assert (Hknown : ∀ p, p ∈ paths →
            is_Some (Allocator.fileToIdMap (_getModuleId s1) !! p)).
  { intros p Hp. rewrite Ha1. by apply getModuleIds_lookup. }
  assert (Hsub : ∀ p, p ∈ paths →
            p ∈ BundleOptions.runBeforeMainModule bundleOptions
                  ++ [BundleOptions.entryFile bundleOptions]).
  { intros p Hp. unfold paths, appendedPaths in Hp.
    by apply list_elem_of_filter in Hp as [_ ?]. }
  assert (Hnodup_all : NoDup
            ((BundleOptions.runBeforeMainModule bundleOptions
                ++ [BundleOptions.entryFile bundleOptions])
               ++ ["/sourcemap.js"])) by (by rewrite <- app_assoc).
  apply NoDup_app in Hnodup_all as (Hnodup_names & Hsm & _).
  assert (Hnodup_paths : NoDup paths) by (by apply NoDup_filter).
  assert (Hpaths : paths
            = filter (λ path, is_Some (dependencyEdges (world s) !! path))
                (BundleOptions.runBeforeMainModule bundleOptions)
              ++ (if decide (is_Some (dependencyEdges (world s)
                               !! BundleOptions.entryFile bundleOptions))
                  then [BundleOptions.entryFile bundleOptions] else [])).
  { unfold paths, appendedPaths. rewrite filter_app. by f_equal. }
  assert (Hentries : ∀ a,
            (requireEntry <$> (idOf a <$> paths))
            = (requireEntry ∘ idOf a
                 <$> filter (λ path, is_Some (dependencyEdges (world s) !! path))
                       (BundleOptions.runBeforeMainModule bundleOptions))
              ++ (if decide (is_Some (dependencyEdges (world s)
                               !! BundleOptions.entryFile bundleOptions))
                  then [requireEntry
                          (idOf a (BundleOptions.entryFile bundleOptions))]
                  else [])).
  { intros a. rewrite Hpaths, <- list_fmap_compose, fmap_app. f_equal.
    by destruct (decide _). }
  assert (Hkeys : ∀ ids : list nat, (requireEntry <$> ids).*1 = ids).
  { intros ids. rewrite <- list_fmap_compose. apply list_fmap_id. }
  unfold appendedEntries.
  destruct (truthy (BundleOptions.sourceMapUrl bundleOptions)).
  - apply bind_Ok in H as (id & s2 & Hid & H).
    apply getModuleId_spec in Hid as ([= Hid] & Ha2 & Hw2).
    apply ret_run in H as [[= ->] ->].
    assert (Hsame : idOf (_getModuleId s2) <$> paths
                    = idOf (_getModuleId s1) <$> paths).
    { apply list_fmap_ext. intros j p Hp%list_elem_of_lookup_2.
      destruct (Hknown p Hp) as [i Hi]. rewrite (idOf_lookup _ _ _ Hi).
      apply idOf_lookup. rewrite Ha2. by apply getModuleId_stable. }
    assert (Hid' : id = idOf (_getModuleId s2) "/sourcemap.js").
    { symmetry. apply idOf_lookup. rewrite Ha2, Hid.
      apply getModuleId_lookup. }
    assert (Hwf2 : Allocator.wf (_getModuleId s2))
      by (rewrite Ha2; by apply getModuleId_wf).
    split; [|congruence].
    rewrite JSMap_of_entries_NoDup.
    2:{ rewrite Hkeys. by apply idOf_NoDup. }
    rewrite JSMap_set_fresh.
    + rewrite <- Hid', <- Hsame, Hentries, <- app_assoc. done.
    + rewrite Hkeys, <- Hsame, Hid'.
      intros (p & Heq & Hp)%list_elem_of_fmap.
      assert (p = "/sourcemap.js") as ->.
      { apply (wf_idOf_inj (_getModuleId s2)); [done| | |done].
        - destruct (Hknown p Hp) as [i Hi]. exists i. rewrite Ha2.
          by apply getModuleId_stable.
        - eexists. rewrite Ha2. apply getModuleId_lookup. }
      apply (Hsm "/sourcemap.js"); [by apply Hsub|apply list_elem_of_here].
  - apply ret_run in H as [[= ->] ->]. split; [|done].
    rewrite JSMap_of_entries_NoDup.
    2:{ rewrite Hkeys. by apply idOf_NoDup. }
    by rewrite Hentries, app_nil_r.
Qed.

End Append.

(** ** What a build asks the allocator for *)

Lemma resumeOrder_Permutation {X} pick (pending : list X) :
  resumeOrder pick (length pending) pending ≡ₚ pending.
Proof.
  remember (length pending) as n eqn:Hn. revert pending Hn.
  induction n as [|n IH]; intros pending Hn.
  - by destruct pending.
  - cbn [resumeOrder].
    destruct (lookup_lt_is_Some_2 pending (pick (S n) `mod` length pending))
      as [x Hx].
    { apply Nat.mod_upper_bound. lia. }
    rewrite Hx. etrans; [|symmetry; by apply delete_Permutation].
    constructor. apply IH. rewrite length_delete by by eexists. lia.
Qed.


Section Requests.
Context {W R : Type}.
Context (svc : Services W R).
Context (options : MainOptions.t) (bundleOptions : BundleOptions.t).

Abbreviation state := (DeltaTransformer W R Allocator.t).

Lemma wrapModule_requests edge dev (s : state) code s' :
  wrapModule svc edge dev s = (Ok code, s') →
  _getModuleId s'
  = Allocator.getModuleIds (DependencyEdge.dependencies edge).*2
      (_getModuleId s).
Proof.
  unfold wrapModule. intros (ids & s1 & Hids & [_ ->]%ret_run)%bind_Ok.
  assert (Hids' : mapM getModuleId (DependencyEdge.dependencies edge).*2 s
                  = (Ok ids, s1)).
  { rewrite <- Hids. clear. generalize (DependencyEdge.dependencies edge).
    intros l. revert s. induction l as [|[name p] l IH]; intros s; [done|].
    cbn. unfold mbind, M_bind. destruct (getModuleId p s) as [[i|e] s0]; [|done].
    by rewrite IH. }
  by apply mapM_getModuleId in Hids' as (_ & ? & _).
Qed.

Lemma transformModule_finish_requests edge name minified (s : state) entry s' :
  _transformModule_finish edge name minified s = (Ok entry, s') →
  _getModuleId s'
  = Allocator.getModuleIds [DependencyEdge.path edge] (_getModuleId s).
Proof.
  unfold _transformModule_finish.
  intros (id & s1 & Hid & [_ ->]%ret_run)%bind_Ok.
  by apply getModuleId_spec in Hid as (_ & ? & _).
Qed.

Lemma emit_ids ev (s : state) r s' :
  emit ev s = (r, s') → _getModuleId s' = _getModuleId s.
Proof. by intros [= _ <-]. Qed.

Lemma issue_ids {X} (f : W → Result X * W) (s : state) r s' :
  issue f s = (r, s') → _getModuleId s' = _getModuleId s.
Proof. unfold issue. destruct (f (world s)). by intros [= _ <-]. Qed.

Lemma call_ids {X} (f : W → Result X * W) (s : state) r s' :
  call f s = (r, s') → _getModuleId s' = _getModuleId s.
Proof. unfold call. destruct (f (world s)). by intros [= _ <-]. Qed.

(** A call of [_transformModule] asks for the ids of the dependencies of
    the edge and, unless it suspends, for the id of the edge. *)
Lemma transformModule_call_requests transformOptions edge (s : state)
    started s' :
  _transformModule_call svc transformOptions edge s = (Ok started, s') →
  (_getModuleId s'
   = Allocator.getModuleIds
       ((DependencyEdge.dependencies edge).*2 ++ [DependencyEdge.path edge])
       (_getModuleId s)
   ∧ ∃ entry, started = Returned entry)
  ∨ (_getModuleId s'
     = Allocator.getModuleIds (DependencyEdge.dependencies edge).*2
         (_getModuleId s)
     ∧ ∃ k, started = Awaiting k ∧ suspended_edge k = edge).
Proof.
  unfold _transformModule_call.
  intros ([] & s0 & Hemit%emit_ids & H)%bind_Ok.
  apply bind_Ok in H as (wrapped & s1 & Hwrap%wrapModule_requests & H).
  rewrite Hemit in Hwrap.
  destruct (JSTransformerOptions.minify transformOptions).
  - right. apply bind_Ok in H as (minified & s2 & Hissue%issue_ids & H).
    apply ret_run in H as [[= ->] ->]. split; [congruence|]. by eexists.
  - left. apply bind_Ok in H as (entry & s2 & Hfinish & H).
    apply transformModule_finish_requests in Hfinish.
    apply ret_run in H as [[= ->] ->].
    split; [|by eexists]. by rewrite getModuleIds_app, <- Hwrap.
Qed.

Lemma filter_known_nil (own l : list string) :
  (∀ p, p ∈ l → p ∈ own) → filter (λ p, p ∉ own) l = [].
Proof.
  induction l as [|p l IH]; intros Hl; [done|].
  rewrite filter_cons, decide_False.
  - apply IH. intros q Hq. apply Hl. by apply list_elem_of_further.
  - intros Hp. apply Hp, Hl, list_elem_of_here.
Qed.

Lemma dependencyPaths_cons module modules :
  dependencyPaths (module :: modules)
  = (DependencyEdge.dependencies module).*2 ++ dependencyPaths modules.
Proof. done. Qed.

(** What [modules.map(...)] asks for while it starts the calls. *)
Lemma calls_requests transformOptions (own : list string) modules
    (s : state) started s' :
  (∀ module, module ∈ modules → DependencyEdge.path module ∈ own) →
  mapM (_transformModule_call svc transformOptions) modules s
  = (Ok started, s') →
  ∃ requests,
    _getModuleId s' = Allocator.getModuleIds requests (_getModuleId s)
    ∧ filter (λ p, p ∉ own) requests
      = filter (λ p, p ∉ own) (dependencyPaths modules)
    ∧ (∀ p, p ∈ requests → p ∈ own ∨ p ∈ dependencyPaths modules)
    ∧ (∀ i p, p ∈ DependencyEdge.path <$> modules →
         p ∈ requests ∨ p ∈ suspendedPath <$> suspendedAt i started)
    ∧ (∀ i ik, ik ∈ suspendedAt i started → suspendedPath ik ∈ own).
Proof.
  revert s started s'.
  induction modules as [|module modules IH]; intros s started s' Hown; cbn.
  - intros [[= ->] ->]%ret_run. exists []. split_and!; try done.
    all: intros *; cbn; by intros ?%elem_of_nil.
  - intros (st & s1 & Hcall & H)%bind_Ok.
    apply bind_Ok in H as (sts & s2 & Hrest & [[= ->] ->]%ret_run).
    apply IH in Hrest as (rest & Hids & Hfilter & Hrange & Hcover & Hsusp).
    2:{ intros m Hm. apply Hown. by apply list_elem_of_further. }
    assert (Hpath : DependencyEdge.path module ∈ own)
      by apply Hown, list_elem_of_here.
    rewrite dependencyPaths_cons.
    apply transformModule_call_requests in Hcall
      as [[Hcall [entry ->]]|[Hcall (k & -> & Hk)]].
    + exists (((DependencyEdge.dependencies module).*2
                ++ [DependencyEdge.path module]) ++ rest).
      split_and!.
      * by rewrite getModuleIds_app, <- Hcall.
      * rewrite !filter_app, Hfilter. f_equal.
        rewrite (filter_known_nil own [DependencyEdge.path module]);
          [by rewrite app_nil_r|].
        by intros p ->%list_elem_of_singleton.
      * intros p. rewrite !elem_of_app, list_elem_of_singleton.
        intros [[? | ->]|Hp]; [by right; left|by left|].
        destruct (Hrange p Hp); [by left|by right; right].
      * intros i p [-> | Hp]%elem_of_cons.
        -- left. set_solver.
        -- destruct (Hcover (S i) p Hp); [left; set_solver|by right].
      * intros i ik Hik. by eapply Hsusp.
    + exists ((DependencyEdge.dependencies module).*2 ++ rest). split_and!.
      * by rewrite getModuleIds_app, <- Hcall.
      * by rewrite !filter_app, Hfilter.
      * intros p. rewrite !elem_of_app.
        intros [?|Hp]; [by right; left|].
        destruct (Hrange p Hp); [by left|by right; right].
      * intros i p [-> | Hp]%elem_of_cons.
        -- right. cbn. unfold suspendedPath at 1. cbn. rewrite Hk.
           apply list_elem_of_here.
        -- destruct (Hcover (S i) p Hp); [left; set_solver|].
           right. cbn. by apply list_elem_of_further.
      * intros i ik [-> | Hik]%elem_of_cons.
        -- unfold suspendedPath. cbn. by rewrite Hk.
        -- by eapply Hsusp.
Qed.

Lemma transformModule_resume_requests k (s : state) entry s' :
  _transformModule_resume k s = (Ok entry, s') →
  _getModuleId s'
  = Allocator.getModuleIds [DependencyEdge.path (suspended_edge k)]
      (_getModuleId s).
Proof.
  unfold _transformModule_resume.
  intros (minified & s0 & [= _ <-] & H)%bind_Ok.
  by apply transformModule_finish_requests in H.
Qed.

(** [Promise.all] resolves once every suspended call was resumed, each of
    which asked for the id of its edge. *)
Lemma Promise_all_requests started (s : state) entries s' :
  Promise_all svc started s = (Ok entries, s') →
  ∃ order,
    order ≡ₚ suspendedAt 0 started
    ∧ _getModuleId s'
      = Allocator.getModuleIds (suspendedPath <$> order) (_getModuleId s).
Proof.
  unfold Promise_all. intros (w & s0 & [= _ <-] & H)%bind_Ok.
  apply bind_Ok in H as (slots & s1 & Hfold & H).
  exists (resumeOrder (resumeNext svc w) (length (suspendedAt 0 started))
            (suspendedAt 0 started)).
  split; [apply resumeOrder_Permutation|].
  assert (_getModuleId s' = _getModuleId s1) as ->.
  { destruct (mapM _ slots); [by apply ret_run in H as [_ ->]|done]. }
  clear H. revert Hfold.
  generalize (resumeOrder (resumeNext svc w) (length (suspendedAt 0 started))
                (suspendedAt 0 started)) as order.
  generalize (slot <$> started) as acc. clear. intros acc order.
  revert acc s. induction order as [|ik order IH]; intros acc s; cbn.
  - by intros [_ ->]%ret_run.
  - intros (acc' & s0 & Hstep & H)%bind_Ok.
    apply bind_Ok in Hstep as (entry & s0' & Hresume & [_ ->]%ret_run).
    apply transformModule_resume_requests in Hresume.
    apply IH in H. by rewrite H, Hresume.
Qed.

(** What a batch asks the allocator for. *)
Lemma transformModules_requests modules transformOptions (s : state)
    entries s' :
  _transformModules svc modules transformOptions s = (Ok entries, s') →
  ∃ requests,
    _getModuleId s' = Allocator.getModuleIds requests (_getModuleId s)
    ∧ batchRequests modules requests.
Proof.
  unfold _transformModules. intros (started & s1 & Hcalls & H)%bind_Ok.
  apply bind_Ok in H as (entries' & s2 & Hall & [_ ->]%ret_run).
  apply (calls_requests _ (DependencyEdge.path <$> modules)) in Hcalls
    as (calls & Hids1 & Hfilter & Hrange & Hcover & Hsusp).
  2:{ intros m Hm. by apply list_elem_of_fmap_2. }
  apply Promise_all_requests in Hall as (order & Hperm & Hids2).
  exists (calls ++ (suspendedPath <$> order)). unfold batchRequests.
  split_and!.
  - by rewrite getModuleIds_app, <- Hids1.
  - rewrite filter_app, Hfilter.
    rewrite (filter_known_nil _ (suspendedPath <$> order));
      [by rewrite app_nil_r|].
    intros p (ik & -> & Hik)%list_elem_of_fmap.
    apply (Hsusp 0). by rewrite <- Hperm.
  - intros p Hp. apply elem_of_app.
    destruct (Hcover 0 p Hp) as [?|Hs]; [by left|right].
    by rewrite Hperm.
  - intros p [Hp|(ik & -> & Hik)%list_elem_of_fmap]%elem_of_app.
    + by apply Hrange.
    + left. apply (Hsusp 0). by rewrite <- Hperm.
Qed.

End Requests.

Section Phases.
Context {W R : Type}.
Context (svc : Services W R).
Context (options : MainOptions.t) (bundleOptions : BundleOptions.t).

Abbreviation state := (DeltaTransformer W R Allocator.t).

Lemma createEdges_run transformOptions files (s : state) edges s' :
  mapM (λ file, _createEdgeFromScript svc file transformOptions) files s
  = (Ok edges, s') →
  _getModuleId s' = _getModuleId s
  ∧ DependencyEdge.path <$> edges = createPolyfill_path svc <$> files
  ∧ dependencyPaths edges = [].
Proof.
  revert s edges s'. induction files as [|file files IH]; intros s edges s'.
  - by intros [[= ->] ->]%ret_run.
  - cbn [mapM]. intros (edge & s1 & Hedge & H)%bind_Ok.
    apply bind_Ok in H as (rest & s2 & Hrest & [[= ->] ->]%ret_run).
    apply IH in Hrest as (Hids & Hpaths & Hdeps).
    unfold _createEdgeFromScript in Hedge.
    apply bind_Ok in Hedge as (result & s0 & Hread%call_ids & [[= ->] ->]%ret_run).
    split_and!; [congruence|by rewrite !fmap_cons, Hpaths|].
    by rewrite dependencyPaths_cons, Hdeps.
Qed.

(** [_getPrepend] asks for the id of the prelude and then, in an order
    that depends on the event loop, for the ids of the scripts. *)
Lemma getPrepend_requests transformOptions (s : state) pre s' :
  _getPrepend svc options bundleOptions transformOptions s = (Ok pre, s') →
  ∃ requests,
    _getModuleId s'
    = Allocator.getModuleIds ("__prelude__" :: requests) (_getModuleId s)
    ∧ ∀ p, p ∈ requests ↔ p ∈ scriptPaths svc options bundleOptions.
Proof.
  unfold _getPrepend. intros (preludeId & s0 & Hprelude & H)%bind_Ok.
  apply getModuleId_spec in Hprelude as (_ & Hids0 & _).
  apply bind_Ok in H as (edges & s1 & Hedges & H).
  apply createEdges_run in Hedges as (Hids1 & Hpaths & Hdeps).
  apply bind_Ok in H as (transformed & s2 & Hbatch & [_ ->]%ret_run).
  apply transformModules_requests in Hbatch
    as (requests & Hids2 & _ & Hcover & Hrange).
  exists requests. split.
  - by rewrite getModuleIds_cons, <- Hids0, <- Hids1.
  - intros p. unfold scriptPaths. rewrite <- Hpaths. split; [|by apply Hcover].
    intros Hp. destruct (Hrange p Hp) as [?|Hdep]; [done|].
    rewrite Hdeps in Hdep. by apply elem_of_nil in Hdep.
Qed.

(** Lines 239-242 ask for the id of every modified module, in the order
    of the calculator, and do nothing else. *)
Lemma precalculateModuleIds_run modules (s : state) r s' :
  precalculateModuleIds modules s = (r, s') →
  r = Ok ()
  ∧ _getModuleId s'
    = Allocator.getModuleIds (DependencyEdge.path <$> modules) (_getModuleId s)
  ∧ trace s'
    = trace s ++ (EvGetModuleId ∘ DependencyEdge.path <$> modules).
Proof.
  unfold precalculateModuleIds. revert s r s'.
  induction modules as [|module modules IH]; intros s r s'; cbn [forEach].
  - intros [-> ->]%ret_run. by rewrite app_nil_r.
  - intros [(x & s1 & Hx & H)|(e & He & _)]%bind_run.
    2:{ apply bind_run in He as [(i & s1 & Hi & [[=] _]%ret_run)|(e' & He & _)].
        by apply getModuleId_spec in He as ([=] & _). }
    apply bind_Ok in Hx as (i & s0 & Hi & [_ ->]%ret_run).
    pose proof (getModuleId_trace _ _ _ _ Hi) as Htrace.
    apply getModuleId_spec in Hi as (_ & Hids & _).
    apply IH in H as (-> & Hids' & Htrace').
    split_and!; [done| |].
    + by rewrite fmap_cons, getModuleIds_cons, <- Hids.
    + rewrite Htrace', Htrace, fmap_cons, <- app_assoc. done.
Qed.

Lemma setDeleted_requests modifiedDelta deleted (s : state) delta s' :
  setDeleted modifiedDelta deleted s = (Ok delta, s') →
  _getModuleId s' = Allocator.getModuleIds deleted (_getModuleId s).
Proof.
  unfold setDeleted. revert modifiedDelta s.
  induction deleted as [|id deleted IH]; intros modifiedDelta s; cbn [foldlM].
  - by intros [_ ->]%ret_run.
  - intros (acc & s1 & Hstep & H)%bind_Ok.
    apply bind_Ok in Hstep as (i & s0 & Hi & [_ ->]%ret_run).
    apply getModuleId_spec in Hi as (_ & Hids & _).
    apply IH in H. by rewrite getModuleIds_cons, <- Hids.
Qed.

Lemma getAppend_requests (dependencyEdges : W → DependencyEdges)
    (s : state) post s' :
  _getAppend bundleOptions dependencyEdges s = (Ok post, s') →
  _getModuleId s'
  = Allocator.getModuleIds
      (appendedPaths bundleOptions (dependencyEdges (world s))
         ++ (if truthy (BundleOptions.sourceMapUrl bundleOptions)
             then ["/sourcemap.js"] else []))
      (_getModuleId s)
  ∧ world s' = world s.
Proof.
  unfold _getAppend. intros (w & s0 & [= <- <-] & H)%bind_Ok.
  apply bind_Ok in H as (moduleIds & s1 & Hids & H).
  apply mapM_getModuleId in Hids as (_ & Hids & Hw).
  rewrite getModuleIds_app, <- Hids.
  destruct (truthy _).
  - apply bind_Ok in H as (id & s2 & Hid & [_ ->]%ret_run).
    apply getModuleId_spec in Hid as (_ & Hid & Hw').
    split; [done|congruence].
  - by apply ret_run in H as [_ ->].
Qed.

End Phases.

Lemma createModuleIdFactory_wf base :
  Allocator.wf (Allocator.createModuleIdFactory base).
Proof. split; intros *; cbn; by rewrite lookup_empty. Qed.

Section AppendSegment.
Context {W R : Type}.
Context (svc : Services W R).
Context (options : MainOptions.t) (bundleOptions : BundleOptions.t).

(** C7 (as amended).  In every response a build returns with [reset]
    set, when the ids come from the allocator of the specification and the
    names to run before the main module, the entry file and
    [/sourcemap.js] are pairwise distinct paths, [post] holds, in this
    order: one require entry for each name to run before the main module
    that has a record in the snapshot, in the configured order, the other
    names being skipped without an error; then one require entry for the
    entry file if it has a record in the snapshot, for it goes through the
    same filter; then, if a source-map URL is configured and is not the
    empty string, the [sourceMappingURL] comment entry.  Every entry is
    stored under the id the allocator has for its path. *)
Theorem append_segment answer (s : DeltaTransformer W R Allocator.t)
    response s' :
  Allocator.wf (_getModuleId s) →
  NoDup (BundleOptions.runBeforeMainModule bundleOptions
           ++ [BundleOptions.entryFile bundleOptions; "/sourcemap.js"]) →
  _getDelta_resume svc options bundleOptions answer s = (Ok response, s') →
  DeltaTransformResponse.reset response = true →
  DeltaTransformResponse.post response
  = appendedEntries bundleOptions (calculator_getGraph svc (world s'))
      (idOf (_getModuleId s')).
Proof.
  intros Hwf Hnodup Hrun Hreset.
  apply getDelta_resume_Ok in Hrun
    as (d & transformOptions & s1 & s2 & s3 & modifiedDelta & s4 & s5 & s6
        & _ & Hd & Hoptions%call_ids & Hpre & Hprime & Hbatch & Hdeleted
        & Hpost & Hids & _ & Hworld).
  rewrite <- Hd, Hreset in Hpre, Hpost.
  apply getPrepend_requests in Hpre as (scripts & Hids2 & _).
  apply precalculateModuleIds_run in Hprime as (_ & Hids3 & _).
  apply transformModules_requests in Hbatch as (batch & Hids4 & _).
  apply setDeleted_requests in Hdeleted.
  assert (Hwf5 : Allocator.wf (_getModuleId s5)).
  { rewrite Hdeleted, Hids4, Hids3, Hids2, Hoptions.
    by do 4 apply getModuleIds_wf. }
  destruct (getAppend_Ok bundleOptions _ _ _ _ Hwf5 Hnodup Hpost)
    as [-> Hworld6].
  by rewrite Hids, Hworld, Hworld6.
Qed.

End AppendSegment.


(** ** Two builds of the same delta *)

Section TwoRuns.
Context {W1 R1 W2 R2 : Type}.
Context (svc1 : Services W1 R1) (svc2 : Services W2 R2).
Context (options : MainOptions.t) (bundleOptions : BundleOptions.t).




End TwoRuns.

Lemma append_segment_witness :
  DeltaTransformResponse.post Demo.firstResponse = [requireEntry 4].
Proof.
  rewrite (append_segment Demo.services Demo.options Demo.bundleOptions
             (Ok Demo.firstBuild) (instance Demo.duringFirstCall)
             Demo.firstResponse (instance Demo.settledFirstCall)).
  - reflexivity.
  - apply createModuleIdFactory_wf.
  - apply (bool_decide_unpack (NoDup _)). by vm_compute.
  - by vm_compute.
  - reflexivity.
Defined.

(** C7 (as stated) fails in two ways.  The entry file goes through the
    filter on the snapshot like the names before it: with [/main.js] for
    entry file and a snapshot that has no record of it, [post] holds the
    entry of [/b.js] and none for the entry file.  And when the entry file
    is also listed to run before the main module, it gets one entry, the
    first of [post], and none after the entry of [/b.js]. *)
Lemma append_entry_not_always_last :
  (reachable Demo.services Demo.options Demo.entryAbsent
     Demo.afterEntryAbsentCall
   ∧ callers Demo.afterEntryAbsentCall !! 0
     = Some (Finished (Ok Demo.entryAbsentResponse))
   ∧ DeltaTransformResponse.reset Demo.entryAbsentResponse = true
   ∧ DeltaTransformResponse.post Demo.entryAbsentResponse = [requireEntry 3]
   ∧ ∀ idOf,
       DeltaTransformResponse.post Demo.entryAbsentResponse
       ≠ specifiedEntries Demo.entryAbsent
           (Demo.graph (world (instance Demo.afterEntryAbsentCall))) idOf)
  ∧ (reachable Demo.services Demo.options Demo.entryFirst
       Demo.afterEntryFirstCall
     ∧ callers Demo.afterEntryFirstCall !! 0
       = Some (Finished (Ok Demo.entryFirstResponse))
     ∧ DeltaTransformResponse.reset Demo.entryFirstResponse = true
     ∧ DeltaTransformResponse.post Demo.entryFirstResponse
       = [requireEntry 4; requireEntry 3]
     ∧ specifiedEntries Demo.entryFirst
         (Demo.graph (world (instance Demo.afterEntryFirstCall)))
         (idOf (_getModuleId (instance Demo.afterEntryFirstCall)))
       = [requireEntry 4; requireEntry 3; requireEntry 4]).
Proof.
  assert (Hrun : ∀ bundleOptions rt,
            run Demo.services Demo.options bundleOptions Demo.firstCall
              (Demo.start (Demo.world [Ok (Demo.firstBuild, Demo.graphAB)]))
            = Some rt →
            reachable Demo.services Demo.options bundleOptions rt).
  { intros bundleOptions rt Hrt.
    by exists (Allocator.createModuleIdFactory 0),
         (Demo.world [Ok (Demo.firstBuild, Demo.graphAB)]), 0,
         Demo.firstCall. }
  split; split_and!; try by vm_compute.
  - apply Hrun. by vm_compute.
  - apply Hrun. by vm_compute.
Qed.



(** * Further properties *)

(** ** Ids are kept *)

Section Kept.
Context {W R : Type}.
Context (svc : Services W R).
Context (options : MainOptions.t) (bundleOptions : BundleOptions.t).

#[export] Instance idsKept_preorder : PreOrder (@idsKept W R).
Proof.
  split.
  - intros s. by exists [].
  - intros s1 s2 s3 [l1 H1] [l2 H2]. exists (l1 ++ l2).
    by rewrite getModuleIds_app, <- H1.
Qed.

Lemma emit_idsKept ev : respects (@idsKept W R) (emit ev).
Proof. intros s r s' [= _ <-]. by exists []. Qed.

Lemma call_idsKept {X} (f : W → Result X * W) :
  respects (@idsKept W R) (call f).
Proof.
  intros s r s'. unfold call. destruct (f (world s)).
  intros [= _ <-]. by exists [].
Qed.

Lemma issue_idsKept {X} (f : W → Result X * W) :
  respects (@idsKept W R) (issue f).
Proof.
  intros s r s'. unfold issue. destruct (f (world s)).
  intros [= _ <-]. by exists [].
Qed.

Lemma getModuleId_idsKept path : respects (@idsKept W R) (getModuleId path).
Proof.
  intros s r s' (_ & Hids & _)%getModuleId_spec. exists [path].
  by rewrite Hids.
Qed.

Lemma randomBytes_idsKept n : respects (@idsKept W R) (randomBytes svc n).
Proof.
  intros s r s'. unfold randomBytes. destruct (draw svc n (entropy s)).
  intros [= _ <-]. by exists [].
Qed.

Lemma set_lastSequenceId_idsKept x :
  respects (@idsKept W R) (set_lastSequenceId x).
Proof. intros s r s' [= _ <-]. by exists []. Qed.

End Kept.

#[export] Hint Resolve emit_idsKept call_idsKept issue_idsKept
  getModuleId_idsKept randomBytes_idsKept set_lastSequenceId_idsKept
  : respects.

Section KeptBuild.
Context {W R : Type}.
Context (svc : Services W R).
Context (options : MainOptions.t) (bundleOptions : BundleOptions.t).

Lemma getDelta_resume_idsKept answer :
  respects (@idsKept W R) (_getDelta_resume svc options bundleOptions answer).
Proof.
  unfold _getDelta_resume, _getPrepend, _getAppend, setDeleted,
    precalculateModuleIds, _transformModules, Promise_all,
    _createEdgeFromScript, _transformModule_resume, _transformModule_call,
    _transformModule_finish, wrapModule.
  respects_auto.
Qed.

Lemma getDelta_call_idsKept reset :
  respects (@idsKept W R) (_getDelta_call svc reset).
Proof. unfold _getDelta_call. respects_auto. Qed.

Lemma step_idsKept action (rt rt' : Runtime W R Allocator.t) :
  step svc options bundleOptions action rt = Some rt' →
  idsKept (instance rt) (instance rt').
Proof.
  destruct action as [sequenceId|p|c]; cbn.
  - intros [= <-]. unfold getDelta_call.
    destruct (_currentBuildPromise (instance rt)); [done|].
    destruct (getDelta_build svc _ rt) as [rt1 caller] eqn:Hbuild.
    apply getDelta_build_run in Hbuild as (_ & _ & _ & _ & _ & Hids & _).
    exists []. cbn. by rewrite Hids.
  - destruct (promises rt !! p) as [build|]; [|done]. cbn.
    destruct (build_outcome build); [done|].
    destruct (_getDelta_resume _ _ _ _ _) as [outcome s] eqn:Hrun.
    intros [= <-]. cbn. by eapply getDelta_resume_idsKept.
  - destruct (callers rt !! c) as [caller|]; [|done]. cbn.
    destruct (awaited caller) as [p|]; [|done]. cbn.
    destruct (promises rt !! p) as [build|]; [|done]. cbn.
    destruct (build_outcome build) as [outcome|]; [|done]. cbn.
    destruct (getDelta_resume svc caller outcome rt) as [rt1 caller1] eqn:Hres.
    intros [= <-]. cbn.
    destruct caller as [reset q|q|result]; cbn in Hres.
    + destruct outcome.
      * apply getDelta_build_run in Hres as (_ & _ & _ & _ & _ & Hids & _).
        exists []. by rewrite Hids.
      * by injection Hres as <- _.
    + injection Hres as <- _. by exists [].
    + by injection Hres as <- _.
Qed.

Lemma run_idsKept actions (rt rt' : Runtime W R Allocator.t) :
  run svc options bundleOptions actions rt = Some rt' →
  idsKept (instance rt) (instance rt').
Proof.
  revert rt. induction actions as [|action actions IH]; intros rt; cbn.
  - by intros [= <-].
  - destruct (step _ _ _ action rt) as [rt1|] eqn:Hstep; [|done]. cbn.
    intros Hrun. etrans; [by eapply step_idsKept|by apply IH].
Qed.

(** Whatever calls are made on an instance and however they interleave,
    a path that has an id keeps it, and if no two paths shared an id
    before none do after. *)
Theorem module_ids_kept actions (rt rt' : Runtime W R Allocator.t) :
  run svc options bundleOptions actions rt = Some rt' →
  (∀ p id,
     Allocator.fileToIdMap (_getModuleId (instance rt)) !! p = Some id →
     Allocator.fileToIdMap (_getModuleId (instance rt')) !! p = Some id)
  ∧ (Allocator.wf (_getModuleId (instance rt)) →
     Allocator.wf (_getModuleId (instance rt'))).
Proof.
  intros [requests ->]%run_idsKept. split.
  - intros p id. apply getModuleIds_stable.
  - apply getModuleIds_wf.
Qed.

End KeptBuild.

(** ** [getDependenciesFn] and [getInverseDependencies] *)

Section QueriesFacts.
Context {W R A : Type} `{!ModuleIdFactory A}.
Context (svc : Services W R).
Context (options : MainOptions.t) (bundleOptions : BundleOptions.t).

Lemma getDelta_call_run reset (s : DeltaTransformer W R A) answer s0 :
  _getDelta_call svc reset s = (answer, s0) →
  trace s0 = trace s ++ [EvCalculatorGetDelta reset]
  ∧ answer = (calculator_getDelta svc reset (world s)).1
  ∧ _lastSequenceId s0 = _lastSequenceId s
  ∧ _currentBuildPromise s0 = _currentBuildPromise s
  ∧ entropy s0 = entropy s
  ∧ _getModuleId s0 = _getModuleId s.
Proof.
  unfold _getDelta_call. intros Hrun.
  apply bind_run in Hrun as [(x & s1 & Hemit & Hcall)|(e & Hemit & _)].
  - injection Hemit as _ <-. unfold call in Hcall. cbn in Hcall.
    destruct (calculator_getDelta svc reset (world s)) as [r w].
    by injection Hcall as <- <-.
  - done.
Qed.

Lemma getDependencies_run (edges : DependencyEdges) p :
  ∃ deps,
    _getDependencies edges p = Some deps
    ∧ NoDup deps
    ∧ ∀ q, q ∈ deps ↔
        q ≠ p ∧ is_Some (edges !! q) ∧ rtc (dependsOn edges) p q.
Proof.
  destruct (getDeps_collects edges (S (size edges)) p [])
    as (deps & Hrun & Hdeps & Hnodup).
  { unfold unvisited. rewrite <- (size_dom (D := gset string) edges).
    apply Nat.lt_succ_r, subseteq_size. set_solver. }
  exists (JSSet.delete p deps). unfold _getDependencies. rewrite Hrun.
  split; [done|]. split.
  { apply NoDup_filter, Hnodup, NoDup_nil_2. }
  intros q. unfold JSSet.delete. rewrite list_elem_of_filter, Hdeps.
  rewrite avoiding_nil. split.
  - intros (Hne & [Hin|(_ & Hq & Hrtc)]); [by apply elem_of_nil in Hin|done].
  - intros (Hne & Hq & Hrtc). split; [done|]. right.
    split; [|done]. inversion Hrtc as [|? y ? Hpy]; subst; [done|].
    destruct Hpy as (edge & Hedge & _). by eexists.
Qed.


(** The build that initialises the graph. *)
Lemma getDelta_run reset (s : DeltaTransformer W R A) r s' :
  _getDelta svc options bundleOptions reset s = (r, s') →
  (∃ t, trace s' = trace s ++ EvCalculatorGetDelta reset :: t)
  ∧ _currentBuildPromise s' = _currentBuildPromise s
  ∧ ((∃ e, r = Throw e
           ∧ _lastSequenceId s' = _lastSequenceId s
           ∧ entropy s' = entropy s)
     ∨ (∃ response, r = Ok response
           ∧ DeltaTransformResponse.id response
             = toString_hex (draw svc 8 (entropy s)).1
           ∧ _lastSequenceId s' = Some (DeltaTransformResponse.id response)
           ∧ entropy s' = (draw svc 8 (entropy s)).2)).
Proof.
  unfold _getDelta.
  destruct (_getDelta_call svc reset s) as [answer s0] eqn:Hcall.
  apply getDelta_call_run in Hcall
    as (Htrace & _ & Hlast & Hgate & Hpool & _).
  intros Hrun.
  assert (extends s0 s') as [t Ht].
  { assert (respects (@extends W R A)
              (_getDelta_resume svc options bundleOptions answer)) as Hr.
    { unfold _getDelta_resume. respects_auto. }
    by eapply Hr. }
  split.
  { exists t. by rewrite Ht, Htrace, <- app_assoc. }
  apply getDelta_resume_run in Hrun
    as [(e & -> & Hlast' & Hgate' & Hpool')
       |(response & -> & Hid & Hlast' & Hgate' & Hpool')].
  - split; [congruence|]. left. exists e. split_and!; congruence.
  - split; [congruence|]. right. exists response.
    rewrite <- Hpool. by split_and!.
Qed.

(** On a graph that has entries, [getDependenciesFn] asks for nothing and
    changes nothing.  The closure it resolves to answers from the graph
    the calculator has when the closure is called, not from the one it
    had when the closure was handed out. *)
Theorem getDependenciesFn_initialized (s : DeltaTransformer W R A) :
  size (calculator_getGraph svc (world s)) ≠ 0 →
  ∃ f,
    getDependenciesFn svc options bundleOptions s = (Ok f, s)
    ∧ ∀ w p,
        ∃ deps,
          f w p = Some deps
          ∧ NoDup deps
          ∧ ∀ q, q ∈ deps ↔
              q ≠ p ∧ is_Some (calculator_getGraph svc w !! q)
              ∧ rtc (dependsOn (calculator_getGraph svc w)) p q.
Proof.
  intros Hsize. exists (this_getDependencies svc). split.
  - unfold getDependenciesFn. unfold mbind at 1, M_bind, getWorld.
    by rewrite bool_decide_eq_false_2.
  - intros w p. apply getDependencies_run.
Qed.

(** On a graph without entries, [getDependenciesFn] runs a build of its
    own: the calculator is asked for a delta with [reset] false whatever
    sequence id is stored, and [_currentBuildPromise] is not set, so the
    build is not one [getDelta] waits for.  If the build throws, so does
    the call, and the stored sequence id stays.  If it returns, a new
    sequence id has been stored. *)
Theorem getDependenciesFn_uninitialized (s : DeltaTransformer W R A) r s' :
  size (calculator_getGraph svc (world s)) = 0 →
  getDependenciesFn svc options bundleOptions s = (r, s') →
  (∃ t, trace s' = trace s ++ EvCalculatorGetDelta false :: t)
  ∧ _currentBuildPromise s' = _currentBuildPromise s
  ∧ ((∃ e, r = Throw e ∧ _lastSequenceId s' = _lastSequenceId s)
     ∨ (r = Ok (this_getDependencies svc)
        ∧ _lastSequenceId s'
          = Some (toString_hex (draw svc 8 (entropy s)).1))).
Proof.
  intros Hsize. unfold getDependenciesFn. intros Hrun.
  apply bind_run in Hrun as [(w & s0 & [= <- <-] & Hrun)|(e & [=] & _)].
  rewrite bool_decide_eq_true_2 in Hrun by done.
  apply bind_run in Hrun as [([] & s1 & Hbuild & Hret)|(e & Hbuild & ->)].
  - apply ret_run in Hret as [-> ->].
    apply bind_run in Hbuild
      as [(response & s2 & Hbuild & [_ ->]%ret_run)|(e & Hbuild & [=])].
    apply getDelta_run in Hbuild
      as (Htrace & Hgate
          & [(e & [=] & _)|(response' & [= <-] & Hid & Hlast & _)]).
    split; [done|]. split; [done|]. right. by rewrite Hlast, Hid.
  - apply bind_run in Hbuild
      as [(response & s2 & Hbuild & [[=] _]%ret_run)|(e' & Hbuild & [= <-])].
    apply getDelta_run in Hbuild
      as (Htrace & Hgate
          & [(e' & [= <-] & Hlast & _)|(response' & [=] & _)]).
    split; [done|]. split; [done|]. left. by exists e.
Qed.

End QueriesFacts.

Section InverseDependencies.
Context {W R : Type}.
Context (svc : Services W R).
Context (options : MainOptions.t) (bundleOptions : BundleOptions.t).
Context (entries : DependencyEdges → list (string * DependencyEdge.t)).
Implicit Types s : DeltaTransformer W R Allocator.t.

Lemma inverseDependencies_loop (todo : list (string * DependencyEdge.t)) :
  ∀ output s r s',
    Allocator.wf (_getModuleId s) →
    NoDup todo.*1 →
    (∀ k, k ∈ output.*1 →
       ∃ p, Allocator.fileToIdMap (_getModuleId s) !! p = Some k
            ∧ p ∉ todo.*1) →
    foldlM (λ output entry,
              id ← getModuleId entry.1;
              ids ← mapM getModuleId
                      (DependencyEdge.inverseDependencies entry.2);
              mret (JSMap.set id ids output))
           output todo s = (r, s') →
    r = Ok (output ++ (inverseEntry (_getModuleId s') <$> todo))
    ∧ _getModuleId s'
      = Allocator.getModuleIds (inverseRequests todo) (_getModuleId s)
    ∧ world s' = world s.
Proof.
  induction todo as [|[p edge] todo IH]; intros output s r s' Hwf Hnodup Hout.
  - intros [-> ->]%ret_run. by rewrite app_nil_r.
  - cbn [foldlM]. intros Hrun.
    apply NoDup_cons in Hnodup as [Hp Hnodup].
    apply bind_run in Hrun as [(output1 & s3 & Hstep & Hrest)|(e & Hstep & _)].
    2:{ exfalso.
        apply bind_run in Hstep as [(id & s1 & Hid & Hstep)|(e' & Hid & _)].
        - apply bind_run in Hstep
            as [(ids & s2 & Hids & [[=] _]%ret_run)|(e' & Hids & _)].
          by apply mapM_getModuleId in Hids as ([=] & _).
        - by apply getModuleId_spec in Hid as ([=] & _). }
    apply bind_run in Hstep as [(id & s1 & Hid & Hstep)|(e' & _ & [=])].
    apply bind_run in Hstep
      as [(ids & s2 & Hids & [[= ->] ->]%ret_run)|(e' & _ & [=])].
    cbn in Hid, Hids.
    apply getModuleId_spec in Hid as ([= ->] & Ha1 & Hw1).
    apply mapM_getModuleId in Hids as ([= ->] & Ha2 & Hw2).
    set (a := _getModuleId s) in *.
    assert (Hwf1 : Allocator.wf (_getModuleId s1))
      by (rewrite Ha1; by apply getModuleId_wf).
    assert (Hwf2 : Allocator.wf (_getModuleId s2))
      by (rewrite Ha2; by apply getModuleIds_wf).
    assert (Hp1 : Allocator.fileToIdMap (_getModuleId s1) !! p
                  = Some (Allocator.getModuleId p a).1).
    { rewrite Ha1. apply getModuleId_lookup. }
    assert (Hp2 : Allocator.fileToIdMap (_getModuleId s2) !! p
                  = Some (Allocator.getModuleId p a).1).
    { rewrite Ha2. by apply getModuleIds_stable. }
    assert (Hfresh : (Allocator.getModuleId p a).1 ∉ output.*1).
    { intros (p0 & Hp0 & Hnot)%Hout.
      assert (p0 = p) as ->; [|by apply Hnot; left].
      destruct Hwf1 as [_ Hinj]. eapply Hinj; [|done].
      rewrite Ha1. by apply getModuleId_stable. }
    rewrite JSMap_set_fresh in Hrest by done.
    apply IH in Hrest as (-> & Ha' & Hw'); [|done..|].
    + rewrite <- app_assoc. split_and!.
      * assert (inverseEntry (_getModuleId s') (p, edge)
                = ((Allocator.getModuleId p a).1,
                   idOf (_getModuleId s2)
                     <$> DependencyEdge.inverseDependencies edge)) as Hhead.
        { unfold inverseEntry. cbn. f_equal.
          - apply idOf_lookup. rewrite Ha'. by apply getModuleIds_stable.
          - apply list_fmap_ext. intros i q Hq. unfold idOf. f_equal.
            destruct (getModuleIds_lookup
                        (DependencyEdge.inverseDependencies edge)
                        (_getModuleId s1) q) as [k Hk].
            { by eapply list_elem_of_lookup_2. }
            rewrite <- Ha2 in Hk. rewrite Hk, Ha'.
            by apply getModuleIds_stable. }
        cbn. by rewrite Hhead.
      * rewrite Ha'.
        change (inverseRequests ((p, edge) :: todo))
          with (p :: DependencyEdge.inverseDependencies edge
                  ++ inverseRequests todo).
        rewrite getModuleIds_cons, getModuleIds_app. by rewrite <- Ha1, <- Ha2.
      * congruence.
    + intros k. rewrite fmap_app. intros [Hk|Hk]%elem_of_app.
      * apply Hout in Hk as (p0 & Hp0 & Hnot). exists p0. split.
        -- rewrite Ha2. apply getModuleIds_stable. rewrite Ha1.
           by apply getModuleId_stable.
        -- intros ?. apply Hnot. by right.
      * cbn in Hk. apply list_elem_of_singleton in Hk as ->. by exists p.
Qed.


Lemma mapM_getModuleId_trace (l : list string) :
  ∀ s ids s',
    mapM (M := M W R Allocator.t) getModuleId l s = (Ok ids, s') →
    trace s' = trace s ++ (EvGetModuleId <$> l).
Proof.
  induction l as [|q l IH]; intros s ids s'.
  - intros [_ ->]%ret_run. by rewrite app_nil_r.
  - cbn [mapM]. intros Hrun.
    apply bind_run in Hrun as [(id & s1 & Hid & Hrun)|(e & _ & [=])].
    apply bind_run in Hrun
      as [(ids' & s2 & Hids & [_ ->]%ret_run)|(e & _ & [=])].
    apply IH in Hids. rewrite Hids.
    apply getModuleId_trace in Hid. rewrite Hid.
    by rewrite <- app_assoc.
Qed.

Lemma inverseDependencies_trace (todo : list (string * DependencyEdge.t)) :
  ∀ (output : list (nat * list nat)) s out s',
    foldlM (λ output entry,
              id ← getModuleId entry.1;
              ids ← mapM getModuleId
                      (DependencyEdge.inverseDependencies entry.2);
              mret (JSMap.set id ids output))
           output todo s = (Ok out, s') →
    trace s' = trace s ++ (EvGetModuleId <$> inverseRequests todo).
Proof.
  induction todo as [|[p edge] todo IH]; intros output s out s'.
  - intros [_ ->]%ret_run. by rewrite app_nil_r.
  - cbn [foldlM]. intros Hrun.
    apply bind_run in Hrun as [(output1 & s3 & Hstep & Hrest)|(e & _ & [=])].
    apply IH in Hrest. rewrite Hrest.
    change (inverseRequests ((p, edge) :: todo))
      with (p :: DependencyEdge.inverseDependencies edge
              ++ inverseRequests todo).
    rewrite fmap_cons, fmap_app.
    apply bind_run in Hstep as [(id & s1 & Hid & Hstep)|(e' & _ & [=])].
    apply bind_run in Hstep
      as [(ids & s2 & Hids & [_ ->]%ret_run)|(e' & _ & [=])].
    cbn in Hid, Hids.
    apply getModuleId_trace in Hid. apply mapM_getModuleId_trace in Hids.
    rewrite Hids, Hid. by rewrite <- !app_assoc.
Qed.

Lemma getDelta_idsKept reset :
  respects (@idsKept W R) (_getDelta svc options bundleOptions reset).
Proof.
  intros s r s'. unfold _getDelta.
  destruct (_getDelta_call svc reset s) as [answer s0] eqn:Hcall.
  intros Hrun. etrans.
  - by eapply getDelta_call_idsKept.
  - by eapply getDelta_resume_idsKept.
Qed.

(** On a graph that has entries and with the allocator of the
    specification, [getInverseDependencies] does not throw and asks the
    calculator and the bundler for nothing.  It asks the allocator for the
    id of each recorded path followed by the ids of its inverse
    dependencies, entry by entry, and what it resolves to lists, in the
    order of the graph, each path's id with the ids of its inverse
    dependencies in their order. *)
Theorem getInverseDependencies_initialized s r s' :
  Allocator.wf (_getModuleId s) →
  NoDup (entries (calculator_getGraph svc (world s))).*1 →
  size (calculator_getGraph svc (world s)) ≠ 0 →
  getInverseDependencies svc options bundleOptions entries s = (r, s') →
  r = Ok (inverseEntry (_getModuleId s')
            <$> entries (calculator_getGraph svc (world s)))
  ∧ _getModuleId s'
    = Allocator.getModuleIds
        (inverseRequests (entries (calculator_getGraph svc (world s))))
        (_getModuleId s)
  ∧ world s' = world s
  ∧ trace s'
    = trace s
        ++ (EvGetModuleId
              <$> inverseRequests (entries (calculator_getGraph svc (world s)))).
Proof.
  intros Hwf Hnodup Hsize. unfold getInverseDependencies. intros Hrun.
  apply bind_run in Hrun as [(w & s0 & [= <- <-] & Hrun)|(e & [=] & _)].
  rewrite bool_decide_eq_false_2 in Hrun by done.
  apply bind_run in Hrun as [([] & s1 & [_ ->]%ret_run & Hrun)|(e & [=] & _)].
  apply bind_run in Hrun as [(w & s0 & [= <- <-] & Hrun)|(e & [=] & _)].
  pose proof Hrun as Hloop.
  apply inverseDependencies_loop in Hloop as (-> & Hids & Hworld);
    [|done|done|by intros k [] %elem_of_nil].
  split_and!; [done..|].
  by eapply inverseDependencies_trace.
Qed.


Lemma inverseRequests_paths (todo : list (string * DependencyEdge.t)) p :
  p ∈ todo.*1 → p ∈ inverseRequests todo.
Proof.
  induction todo as [|[q edge] todo IH]; [by intros ?%elem_of_nil|].
  change (inverseRequests ((q, edge) :: todo))
    with (q :: DependencyEdge.inverseDependencies edge
            ++ inverseRequests todo).
  cbn. intros [->|Hin]%elem_of_cons; [by left|].
  right. apply elem_of_app. right. by apply IH.
Qed.

(** With the allocator of the specification, what
    [getInverseDependencies] resolves to, whether it had to initialise the
    graph or not, has one entry for each path the graph records when the
    call ends: looking up the id of a recorded path gives the ids of its
    inverse dependencies. *)
Theorem getInverseDependencies_lookup s output s' :
  Allocator.wf (_getModuleId s) →
  (∀ g, entries g ≡ₚ map_to_list g) →
  getInverseDependencies svc options bundleOptions entries s
  = (Ok output, s') →
  NoDup output.*1
  ∧ length output = size (calculator_getGraph svc (world s'))
  ∧ ∀ p edge,
      calculator_getGraph svc (world s') !! p = Some edge →
      JSMap.get (idOf (_getModuleId s') p) output
      = Some (idOf (_getModuleId s')
                <$> DependencyEdge.inverseDependencies edge).
Proof.
  intros Hwf Hentries. unfold getInverseDependencies. intros Hrun.
  apply bind_Ok in Hrun as (w & s0 & [= <- <-] & Hrun).
  apply bind_Ok in Hrun as ([] & s1 & Hinit & Hrun).
  apply bind_Ok in Hrun as (w & s0 & [= <- <-] & Hrun).
  assert (Hwf1 : Allocator.wf (_getModuleId s1)).
  { destruct (bool_decide _) in Hinit.
    - apply bind_Ok in Hinit as (response & s2 & Hbuild & [_ ->]%ret_run).
      apply getDelta_idsKept in Hbuild as [requests ->].
      by apply getModuleIds_wf.
    - by apply ret_run in Hinit as [_ ->]. }
  clear Hinit Hwf.
  set (g := calculator_getGraph svc (world s1)) in *.
  assert (Hnodup : NoDup (entries g).*1).
  { rewrite (Hentries g). apply NoDup_fst_map_to_list. }
  apply inverseDependencies_loop in Hrun as ([= ->] & Hids & Hworld);
    [|done|done|by intros k []%elem_of_nil].
  rewrite Hworld. fold g. cbn.
  assert (Hkeys : (inverseEntry (_getModuleId s') <$> entries g).*1
                  = idOf (_getModuleId s') <$> (entries g).*1).
  { rewrite <- !list_fmap_compose. by apply list_fmap_ext. }
  assert (Hkeys_nodup : NoDup (inverseEntry (_getModuleId s') <$> entries g).*1).
  { rewrite Hkeys. apply idOf_NoDup; [|
      |done].
    - rewrite Hids. by apply getModuleIds_wf.
    - intros p Hp. rewrite Hids. apply getModuleIds_lookup.
      by apply inverseRequests_paths. }
  split; [done|]. split.
  { rewrite length_fmap, (Hentries g). by rewrite length_map_to_list. }
  intros p edge Hp.
  assert (Hin : (p, edge) ∈ entries g).
  { rewrite (Hentries g). by apply elem_of_map_to_list. }
  revert Hkeys_nodup.
  apply (list_elem_of_fmap_2 (inverseEntry (_getModuleId s'))) in Hin.
  revert Hin. unfold inverseEntry at 1. cbn.
  generalize (inverseEntry (_getModuleId s') <$> entries g) as m.
  generalize (idOf (_getModuleId s') p) as k.
  generalize (idOf (_getModuleId s')
                <$> DependencyEdge.inverseDependencies edge) as v.
  clear. intros v k m. induction m as [|[k' v'] m IH]; cbn.
  - by intros ?%elem_of_nil.
  - intros [[= <- <-]|Hin]%elem_of_cons [Hk' Hnodup]%NoDup_cons.
    + by rewrite bool_decide_eq_true_2.
    + rewrite bool_decide_eq_false_2; [by apply IH|].
      intros ->. apply Hk'. by apply (list_elem_of_fmap_2 fst) in Hin.
Qed.

End InverseDependencies.

(** ** Callers that wait for each other *)

Section Progress.
Context {W R A : Type} `{!ModuleIdFactory A}.
Context (svc : Services W R).
Context (options : MainOptions.t) (bundleOptions : BundleOptions.t).
Implicit Types rt : Runtime W R A.

Lemma attended_create a w r : attended (create a w r : Runtime W R A).
Proof.
  split.
  - intros c caller p Hc. cbn in Hc. by rewrite lookup_nil in Hc.
  - by cbn.
Qed.

Lemma step_Resume_run c rt rt' :
  step svc options bundleOptions (Resume c) rt = Some rt' →
  ∃ caller p build outcome rt1 caller',
    callers rt !! c = Some caller
    ∧ awaited caller = Some p
    ∧ promises rt !! p = Some build
    ∧ build_outcome build = Some outcome
    ∧ getDelta_resume svc caller outcome rt = (rt1, caller')
    ∧ instance rt' = instance rt1
    ∧ promises rt' = promises rt1
    ∧ callers rt' = <[c := caller']> (callers rt1).
Proof.
  cbn. destruct (callers rt !! c) as [caller|]; [|done]. cbn.
  destruct (awaited caller) as [p|] eqn:Hp; [|done]. cbn.
  destruct (promises rt !! p) as [build|] eqn:Hb; [|done]. cbn.
  destruct (build_outcome build) as [outcome|] eqn:Ho; [|done]. cbn.
  destruct (getDelta_resume svc caller outcome rt) as [rt1 caller'] eqn:Hres.
  intros [= <-]. by exists caller, p, build, outcome, rt1, caller'.
Qed.

Lemma attended_build reset rt rt1 caller :
  attended rt → getDelta_build svc reset rt = (rt1, caller) →
  (∀ c caller p,
     callers rt1 !! c = Some caller → awaited caller = Some p →
     p < length (promises rt1))
  ∧ awaited caller = Some (length (promises rt))
  ∧ length (promises rt1) = S (length (promises rt))
  ∧ _currentBuildPromise (instance rt1) = Some (length (promises rt))
  ∧ callers rt1 = callers rt.
Proof.
  intros [Hwait Hgate]
    (-> & Hcallers & Hpromises & _ & Hgate1 & _)%getDelta_build_run.
  rewrite Hpromises, Hcallers, length_app. cbn.
  split_and!; [|done|lia|done|done].
  intros c caller p Hc Hp. specialize (Hwait c caller p Hc Hp). lia.
Qed.

Lemma attended_step action rt rt' :
  attended rt → step svc options bundleOptions action rt = Some rt' →
  attended rt'.
Proof.
  intros Hrt. pose proof Hrt as [Hwait Hgate].
  destruct action as [sequenceId|p|c].
  - cbn. intros [= <-]. unfold getDelta_call.
    destruct (_currentBuildPromise (instance rt)) as [q|] eqn:Hq.
    + destruct (Hgate q eq_refl) as (Hlt & c' & p' & Hc').
      split; cbn.
      * intros c caller p [Hc|[_ Hc]]%lookup_app_Some Hp; [by eauto|].
        apply list_lookup_singleton_Some in Hc as [_ <-].
        by injection Hp as <-.
      * rewrite Hq. intros ? [= <-]. split; [done|]. exists c', p'.
        by apply lookup_app_l_Some.
    + destruct (getDelta_build svc _ rt) as [rt1 caller] eqn:Hbuild.
      destruct (attended_build _ _ _ _ Hrt Hbuild)
        as (Hwait1 & Hcaller & Hlen & Hgate1 & Hcallers).
      split; cbn.
      * intros c caller' p [Hc|[_ Hc]]%lookup_app_Some Hp; [by eauto|].
        apply list_lookup_singleton_Some in Hc as [_ <-].
        rewrite Hcaller in Hp. injection Hp as <-. lia.
      * rewrite Hgate1. intros ? [= <-]. split; [lia|].
        apply getDelta_build_run in Hbuild as (-> & _).
        exists (length (callers rt1)), (length (promises rt)).
        by apply list_lookup_middle.
  - intros (build & outcome & Hp & _ & Hrun & Hpromises & Hcallers)%step_Settle.
    assert (untouched (instance rt) (instance rt')
            ∨ _currentBuildPromise (instance rt')
              = _currentBuildPromise (instance rt)) as Hsame.
    { apply getDelta_resume_run in Hrun
        as [(e & _ & Hu)|(response & _ & _ & _ & Hg & _)]; auto. }
    assert (_currentBuildPromise (instance rt')
            = _currentBuildPromise (instance rt)) as Hg.
    { by destruct Hsame as [(_ & ? & _)|?]. }
    split.
    + rewrite Hcallers, Hpromises, length_insert. apply Hwait.
    + rewrite Hg, Hcallers, Hpromises, length_insert. apply Hgate.
  - intros (caller & p & build & outcome & rt1 & caller' & Hc & Hp & Hb & Ho
            & Hres & Hi & Hps & Hcs)%step_Resume_run.
    assert (Hlen : c < length (callers rt)) by (by eapply lookup_lt_Some).
    destruct caller as [reset q|q|result]; cbn in Hres; [| |done].
    + destruct outcome as [response|e].
      * destruct (attended_build _ _ _ _ Hrt Hres)
          as (Hwait1 & Hcaller & Hlen1 & Hgate1 & Hcallers).
        split.
        -- rewrite Hcs, Hps. intros c0 caller0 p0 Hc0 Hp0.
           apply list_lookup_insert_Some in Hc0
             as [(-> & <- & _)|[Hne Hc0]]; [|by eauto].
           rewrite Hcaller in Hp0. injection Hp0 as <-. lia.
        -- rewrite Hi, Hgate1, Hcs, Hps. intros ? [= <-]. split; [lia|].
           apply getDelta_build_run in Hres as (-> & _).
           exists c, (length (promises rt)).
           apply list_lookup_insert_eq. by rewrite Hcallers.
      * injection Hres as <- <-. split.
        -- rewrite Hcs, Hps. intros c0 caller0 p0 Hc0 Hp0.
           apply list_lookup_insert_Some in Hc0
             as [(-> & <- & _)|[Hne Hc0]]; [done|by eauto].
        -- rewrite Hi, Hcs, Hps. intros q0 Hq0.
           destruct (Hgate q0 Hq0) as (Hlt & c' & p' & Hc').
           split; [done|]. exists c', p'.
           rewrite list_lookup_insert_ne; [done|]. intros ->. congruence.
    + injection Hres as <- <-. split.
      * rewrite Hcs, Hps. cbn. intros c0 caller0 p0 Hc0 Hp0.
        apply list_lookup_insert_Some in Hc0
          as [(-> & <- & _)|[Hne Hc0]]; [done|by eauto].
      * rewrite Hi. cbn. by intros ? [=].
Qed.

Lemma attended_run actions rt rt' :
  attended rt → run svc options bundleOptions actions rt = Some rt' →
  attended rt'.
Proof.
  revert rt. induction actions as [|action actions IH]; intros rt Hrt; cbn.
  - by intros [= <-].
  - destruct (step _ _ _ action rt) as [rt1|] eqn:Hstep; [|done]. cbn.
    apply IH. by eapply attended_step.
Qed.

Lemma reachable_attended rt :
  reachable svc options bundleOptions rt → attended rt.
Proof.
  intros (a & w & r & actions & Hrun).
  eapply attended_run; [|done]. apply attended_create.
Qed.


Lemma run_cons action actions rt :
  run svc options bundleOptions (action :: actions) rt
  = rt1 ← step svc options bundleOptions action rt;
    run svc options bundleOptions actions rt1.
Proof. done. Qed.

Lemma run_app actions1 actions2 rt :
  run svc options bundleOptions (actions1 ++ actions2) rt
  = rt1 ← run svc options bundleOptions actions1 rt;
    run svc options bundleOptions actions2 rt1.
Proof.
  revert rt. induction actions1 as [|action actions1 IH]; intros rt; [done|].
  cbn. destruct (step _ _ _ action rt) as [rt1|]; [|done]. cbn. apply IH.
Qed.

Lemma awaitsLeft_insert (callers : list Caller) c caller caller' :
  callers !! c = Some caller →
  sum_list (awaitsLeft <$> <[c := caller']> callers) + awaitsLeft caller
  = sum_list (awaitsLeft <$> callers) + awaitsLeft caller'.
Proof.
  revert c. induction callers as [|x callers IH]; intros c Hc.
  - by rewrite lookup_nil in Hc.
  - destruct c as [|c].
    + injection Hc as ->. simpl. lia.
    + cbn in Hc. specialize (IH c Hc).
      change (<[S c := caller']> (x :: callers))
        with (x :: <[c := caller']> callers).
      rewrite !fmap_cons. cbn [sum_list sum_list_with]. unfold id at 1 3. lia.
Qed.

Lemma awaitsLeft_pending (callers : list Caller) :
  sum_list (awaitsLeft <$> callers) ≠ 0 →
  ∃ c caller p, callers !! c = Some caller ∧ awaited caller = Some p.
Proof.
  induction callers as [|x callers IH]; cbn; [done|].
  destruct x as [reset p|p|result].
  - intros _. by exists 0, (AtLine204 reset p), p.
  - intros _. by exists 0, (AtLine212 p), p.
  - intros (c & caller & p & Hc & Hp)%IH. by exists (S c), caller, p.
Qed.

Lemma awaitsLeft_finished (callers : list Caller) :
  sum_list (awaitsLeft <$> callers) = 0 ↔ Forall finished callers.
Proof.
  induction callers as [|x callers IH]; cbn.
  - split; [constructor|done].
  - rewrite Forall_cons, <- IH. destruct x; cbn; naive_solver lia.
Qed.

(** A caller that waits for a settled promise can be resumed, and is then
    nearer to its end; the other callers stay where they are. *)
Lemma resume_progress rt c caller p build outcome :
  callers rt !! c = Some caller →
  awaited caller = Some p →
  promises rt !! p = Some build →
  build_outcome build = Some outcome →
  ∃ rt',
    step svc options bundleOptions (Resume c) rt = Some rt'
    ∧ length (callers rt') = length (callers rt)
    ∧ sum_list (awaitsLeft <$> callers rt')
      < sum_list (awaitsLeft <$> callers rt).
Proof.
  intros Hc Hp Hb Ho. cbn. rewrite Hc. cbn. rewrite Hp. cbn.
  rewrite Hb. cbn. rewrite Ho. cbn.
  destruct (getDelta_resume svc caller outcome rt) as [rt1 caller'] eqn:Hres.
  eexists. split; [done|]. cbn.
  assert (callers rt1 = callers rt ∧ awaitsLeft caller' < awaitsLeft caller)
    as [Hcallers Hless].
  { destruct caller as [reset q|q|result]; cbn in Hres; [| |done].
    - destruct outcome.
      + apply getDelta_build_run in Hres as (-> & -> & _). cbn. auto.
      + injection Hres as <- <-. cbn. auto.
    - injection Hres as <- <-. cbn. auto. }
  rewrite Hcallers, length_insert. split; [done|].
  pose proof (awaitsLeft_insert (callers rt) c caller caller' Hc). lia.
Qed.

Lemma settle_progress rt p build :
  promises rt !! p = Some build →
  build_outcome build = None →
  ∃ rt' outcome,
    step svc options bundleOptions (Settle p) rt = Some rt'
    ∧ callers rt' = callers rt
    ∧ promises rt' !! p
      = Some {| build_answer := build_answer build;
                build_outcome := Some outcome |}.
Proof.
  intros Hb Ho. cbn. rewrite Hb. cbn. rewrite Ho.
  destruct (_getDelta_resume _ _ _ _ _) as [outcome s] eqn:Hrun.
  eexists _, outcome. split; [done|]. cbn. split; [done|].
  apply list_lookup_insert_eq. by eapply lookup_lt_Some.
Qed.

Lemma drain n :
  ∀ rt,
    attended rt →
    sum_list (awaitsLeft <$> callers rt) ≤ n →
    ∃ actions rt',
      forallb draining actions = true
      ∧ run svc options bundleOptions actions rt = Some rt'
      ∧ length (callers rt') = length (callers rt)
      ∧ Forall finished (callers rt').
Proof.
  induction n as [|n IH]; intros rt Hrt Hn.
  - exists [], rt. split_and!; [done..|].
    apply awaitsLeft_finished. lia.
  - destruct (decide (sum_list (awaitsLeft <$> callers rt) = 0)) as [Hz|Hnz].
    { exists [], rt. split_and!; [done..|]. by apply awaitsLeft_finished. }
    destruct (awaitsLeft_pending _ Hnz) as (c & caller & p & Hc & Hp).
    destruct Hrt as [Hwait Hgate].
    destruct (lookup_lt_is_Some_2 (promises rt) p) as [build Hb];
      [by eapply Hwait|].
    destruct (build_outcome build) as [outcome|] eqn:Ho.
    + destruct (resume_progress rt c caller p build outcome)
        as (rt1 & Hstep & Hlen & Hless); [done..|].
      destruct (IH rt1) as (actions & rt' & Hdrain & Hrun & Hlen' & Hfin).
      { by eapply attended_step. }
      { lia. }
      exists (Resume c :: actions), rt'. split_and!; [done| |congruence|done].
      by rewrite run_cons, Hstep.
    + destruct (settle_progress rt p build)
        as (rt1 & outcome & Hsettle & Hcallers & Hb1); [done..|].
      destruct (resume_progress rt1 c caller p _ outcome
                  ltac:(by rewrite Hcallers) Hp Hb1 eq_refl)
        as (rt2 & Hstep & Hlen & Hless).
      destruct (IH rt2) as (actions & rt' & Hdrain & Hrun & Hlen' & Hfin).
      { eapply attended_step; [|done]. by eapply attended_step. }
      { rewrite Hcallers in Hless. lia. }
      exists (Settle p :: Resume c :: actions), rt'.
      split_and!; [done| |congruence|done].
      rewrite run_cons, Hsettle.
      change (run svc options bundleOptions (Resume c :: actions) rt1
              = Some rt').
      by rewrite run_cons, Hstep.
Qed.

(** No state the class can get into is a deadlock: without any new call,
    the builds in flight can be run to their ends and the suspended
    callers resumed until every call of [getDelta] has returned or thrown,
    and then [_currentBuildPromise] is [null] again. *)
Theorem getDelta_quiesces rt :
  reachable svc options bundleOptions rt →
  ∃ actions rt',
    forallb draining actions = true
    ∧ run svc options bundleOptions actions rt = Some rt'
    ∧ length (callers rt') = length (callers rt)
    ∧ Forall finished (callers rt')
    ∧ _currentBuildPromise (instance rt') = None.
Proof.
  intros Hrt%reachable_attended.
  destruct (drain _ rt Hrt (Nat.le_refl _))
    as (actions & rt' & Hdrain & Hrun & Hlen & Hfin).
  exists actions, rt'. split_and!; [done..|].
  destruct (attended_run _ _ _ Hrt Hrun) as [_ Hgate].
  destruct (_currentBuildPromise (instance rt')) as [q|]; [|done].
  destruct (Hgate q eq_refl) as (_ & c & p & Hc).
  rewrite Forall_lookup in Hfin. by apply Hfin in Hc.
Qed.

End Progress.

Section Overlap.
Context {W R A : Type} `{!ModuleIdFactory A}.
Context (svc : Services W R).
Context (options : MainOptions.t) (bundleOptions : BundleOptions.t).
Implicit Types rt : Runtime W R A.

(** The check of line 203 is made once, when [getDelta] is called.  Two
    callers that found the same build in flight both go on to line 207
    when that build has resolved: the second of them starts its build, and
    has the calculator asked for a delta, while the build of the first is
    still in flight. *)
Theorem builds_overlap rt c1 c2 reset1 reset2 p build response :
  c1 ≠ c2 →
  callers rt !! c1 = Some (AtLine204 reset1 p) →
  callers rt !! c2 = Some (AtLine204 reset2 p) →
  promises rt !! p = Some build →
  build_outcome build = Some (Ok response) →
  ∃ rt2 build1 build2,
    run svc options bundleOptions [Resume c1; Resume c2] rt = Some rt2
    ∧ promises rt2 = promises rt ++ [build1; build2]
    ∧ build_outcome build1 = None
    ∧ build_outcome build2 = None
    ∧ callers rt2 !! c1 = Some (AtLine212 (length (promises rt)))
    ∧ callers rt2 !! c2 = Some (AtLine212 (S (length (promises rt))))
    ∧ trace (instance rt2)
      = trace (instance rt)
          ++ [EvBuildStarted (length (promises rt));
              EvCalculatorGetDelta reset1;
              EvBuildStarted (S (length (promises rt)));
              EvCalculatorGetDelta reset2].
Proof.
  intros Hne Hc1 Hc2 Hb Ho.
  assert (Hlen1 : c1 < length (callers rt)) by (by eapply lookup_lt_Some).
  assert (Hlen2 : c2 < length (callers rt)) by (by eapply lookup_lt_Some).
  destruct (getDelta_build svc reset1 rt) as [rt1 caller1] eqn:Hbuild1.
  pose proof Hbuild1
    as (-> & Hcs1 & Hps1 & _ & _ & _ & _ & Ht1)%getDelta_build_run.
  set (rt1' := {| instance := instance rt1; promises := promises rt1;
                  callers := <[c1 := AtLine212 (length (promises rt))]>
                               (callers rt1) |}).
  destruct (getDelta_build svc reset2 rt1') as [rt2 caller2] eqn:Hbuild2.
  pose proof Hbuild2
    as (-> & Hcs2 & Hps2 & _ & _ & _ & _ & Ht2)%getDelta_build_run.
  cbn in Hcs2, Hps2, Ht2.
  assert (Hstep1 : step svc options bundleOptions (Resume c1) rt = Some rt1').
  { cbn. rewrite Hc1. cbn. rewrite Hb. cbn. rewrite Ho. cbn.
    by rewrite Hbuild1. }
  assert (Hstep2 : step svc options bundleOptions (Resume c2) rt1'
                   = Some {| instance := instance rt2;
                             promises := promises rt2;
                             callers := <[c2 := AtLine212
                                                  (length (promises rt1))]>
                                          (callers rt2) |}).
  { cbn. rewrite Hcs1, list_lookup_insert_ne, Hc2 by done. cbn.
    rewrite Hps1, lookup_app_l, Hb by (by eapply lookup_lt_Some). cbn.
    rewrite Ho. cbn. fold rt1'. rewrite <- Hps1. by rewrite Hbuild2. }
  eexists _, _, _. split.
  { rewrite run_cons, Hstep1. cbn [mbind option_bind].
    rewrite run_cons, Hstep2. reflexivity. }
  cbn. split; [by rewrite Hps2, Hps1, <- app_assoc|].
  split; [done|]. split; [done|].
  assert (Hn : length (promises rt1) = S (length (promises rt))).
  { rewrite Hps1, length_app. cbn. lia. }
  rewrite Hn. split_and!.
  - rewrite Hcs2. cbn. rewrite list_lookup_insert_ne by done.
    apply list_lookup_insert_eq. by rewrite Hcs1.
  - apply list_lookup_insert_eq. rewrite Hcs2. cbn.
    by rewrite length_insert, Hcs1.
  - rewrite Ht2, Ht1, <- app_assoc. cbn. by rewrite Hn.
Qed.

(** The handshake: once a build has resolved, a call that passes the id
    of its response asks for no reset, and a call that passes anything
    else, or nothing, asks for one. *)
Theorem sequence_id_handshake rt rt1 p build1 response sequenceId :
  step svc options bundleOptions (Settle p) rt = Some rt1 →
  promises rt1 !! p = Some build1 →
  build_outcome build1 = Some (Ok response) →
  resetRequested (instance rt1) sequenceId
  = negb (bool_decide
            (sequenceId = Some (DeltaTransformResponse.id response))).
Proof.
  intros Hstep Hb Ho.
  destruct (step_Settle_outcome svc options bundleOptions p rt rt1 build1
              _ Hstep Hb Ho) as (build & _ & Hrun & _).
  apply getDelta_resume_run in Hrun
    as [(e & [=] & _)|(response' & [= <-] & Hid & Hlast & _)].
  unfold resetRequested, strict_ne. rewrite Hlast. cbn.
  rewrite bool_decide_eq_false_2; [done|].
  intros Hempty. apply (f_equal String.length) in Hempty.
  rewrite Hid, toString_hex_length, draw_length in Hempty. done.
Qed.

End Overlap.

(** ** What a build puts in its response *)

Section TransformedFacts.
Context {W R : Type} (svc : Services W R).
Context (transformOptions : JSTransformerOptions.t).
Implicit Types (s : DeltaTransformer W R Allocator.t) (a : Allocator.t).

Lemma idOf_stable l a p :
  is_Some (Allocator.fileToIdMap a !! p) →
  idOf (Allocator.getModuleIds l a) p = idOf a p.
Proof.
  intros [i Hi]. rewrite (idOf_lookup a p i Hi).
  apply idOf_lookup. by apply getModuleIds_stable.
Qed.

Lemma is_Some_stable l a p :
  is_Some (Allocator.fileToIdMap a !! p) →
  is_Some (Allocator.fileToIdMap (Allocator.getModuleIds l a) !! p).
Proof. intros [i Hi]. exists i. by apply getModuleIds_stable. Qed.

Lemma wrappedWith_stable l a module :
  (∀ p, p ∈ (DependencyEdge.dependencies module).*2 →
        is_Some (Allocator.fileToIdMap a !! p)) →
  wrappedWith svc transformOptions (Allocator.getModuleIds l a) module
  = wrappedWith svc transformOptions a module.
Proof.
  intros Hdeps. unfold wrappedWith. f_equal.
  apply list_fmap_ext. intros i p Hp. apply idOf_stable, Hdeps.
  by eapply list_elem_of_lookup_2.
Qed.

Lemma minifiedFrom_stable l a module minified :
  (∀ p, p ∈ (DependencyEdge.dependencies module).*2 →
        is_Some (Allocator.fileToIdMap a !! p)) →
  minifiedFrom svc transformOptions a module minified →
  minifiedFrom svc transformOptions (Allocator.getModuleIds l a) module
    minified.
Proof.
  intros Hdeps [w Hw]. exists w. by rewrite wrappedWith_stable.
Qed.

Lemma transformed_stable l a module kv :
  transformed svc transformOptions a module kv →
  transformed svc transformOptions (Allocator.getModuleIds l a) module kv.
Proof.
  intros (Hassigned & Hkey & entry & Hentry & Hid & Hpath & Hname & Hsource
          & Htype & Hcode).
  assert (Hdeps : ∀ p, p ∈ (DependencyEdge.dependencies module).*2 →
                       is_Some (Allocator.fileToIdMap a !! p)).
  { intros p Hp. apply Hassigned. by right. }
  split; [|split].
  - intros p Hp. by apply is_Some_stable, Hassigned.
  - rewrite idOf_stable; [done|]. apply Hassigned. by left.
  - exists entry. split_and!; [done..|].
    destruct (JSTransformerOptions.minify transformOptions).
    + by apply minifiedFrom_stable.
    + by rewrite wrappedWith_stable.
Qed.

Lemma suspendedFrom_stable l a module k :
  suspendedFrom svc transformOptions a module k →
  suspendedFrom svc transformOptions (Allocator.getModuleIds l a) module k.
Proof.
  intros (Hdeps & Hminify & Hedge & Hname & Hminified).
  split_and!; [|done..|by apply minifiedFrom_stable].
  intros p Hp. by apply is_Some_stable, Hdeps.
Qed.

Lemma startedFrom_stable l a module started :
  startedFrom svc transformOptions a module started →
  startedFrom svc transformOptions (Allocator.getModuleIds l a) module
    started.
Proof.
  destruct started; [apply transformed_stable|apply suspendedFrom_stable].
Qed.

Lemma wrapModule_run edge s r s' :
  wrapModule svc edge (JSTransformerOptions.dev transformOptions) s
  = (r, s') →
  r = Ok (wrappedWith svc transformOptions (_getModuleId s') edge)
  ∧ _getModuleId s'
    = Allocator.getModuleIds (DependencyEdge.dependencies edge).*2
        (_getModuleId s)
  ∧ world s' = world s.
Proof.
  unfold wrapModule. intros Hrun.
  assert (∃ r0 s0,
            mapM getModuleId (DependencyEdge.dependencies edge).*2 s
            = (r0, s0)
            ∧ mapM (λ dependency : string * string, getModuleId dependency.2)
                (DependencyEdge.dependencies edge) s = (r0, s0))
    as (r0 & s0 & Hids & Hids').
  { destruct (mapM getModuleId _ s) as [r0 s0] eqn:Hids.
    exists r0, s0. split; [done|]. rewrite <- Hids. clear.
    generalize (DependencyEdge.dependencies edge).
    intros l. revert s. induction l as [|[name p] l IH]; intros s; [done|].
    cbn. unfold mbind, M_bind. destruct (getModuleId p s) as [[i|e] s1]; [|done].
    by rewrite IH. }
  apply mapM_getModuleId in Hids as (-> & Ha & Hw).
  apply bind_run in Hrun as [(ids & s1 & Hrun & Hret)|(e & Hrun & _)];
    rewrite Hids' in Hrun; [|done].
  injection Hrun as <- <-. by apply ret_run in Hret as [-> ->].
Qed.

Lemma transformModule_finish_run edge name minified s r s' :
  _transformModule_finish edge name minified s = (r, s') →
  ∃ id,
    r = Ok (id,
            Some {| DeltaEntry.code := minified.1; DeltaEntry.id := id;
                    DeltaEntry.map := minified.2; DeltaEntry.name := name;
                    DeltaEntry.source :=
                      Output.source (DependencyEdge.output edge);
                    DeltaEntry.path := DependencyEdge.path edge;
                    DeltaEntry.type :=
                      Output.type (DependencyEdge.output edge) |})
    ∧ Allocator.fileToIdMap (_getModuleId s') !! DependencyEdge.path edge
      = Some id
    ∧ _getModuleId s'
      = Allocator.getModuleIds [DependencyEdge.path edge] (_getModuleId s)
    ∧ world s' = world s.
Proof.
  unfold _transformModule_finish. intros Hrun.
  apply bind_run in Hrun as [(id & s1 & Hid & Hret)|(e & Hid & _)].
  - apply getModuleId_spec in Hid as ([= ->] & Ha & Hw).
    apply ret_run in Hret as [-> ->]. eexists. split; [done|].
    rewrite Ha. split_and!; [apply getModuleId_lookup|done..].
  - by apply getModuleId_spec in Hid as ([=] & _).
Qed.

End TransformedFacts.

Section Batch.
Context {W R : Type} (svc : Services W R).
Context (transformOptions : JSTransformerOptions.t).
Implicit Types (s : DeltaTransformer W R Allocator.t) (a : Allocator.t).

Lemma transformModule_call_idsKept edge :
  respects (@idsKept W R) (_transformModule_call svc transformOptions edge).
Proof.
  unfold _transformModule_call, _transformModule_finish, wrapModule.
  respects_auto.
Qed.

Lemma transformModule_resume_idsKept k :
  respects (@idsKept W R) (_transformModule_resume k).
Proof. unfold _transformModule_resume, _transformModule_finish. respects_auto. Qed.

Lemma transformModule_call_run edge s started s' :
  _transformModule_call svc transformOptions edge s = (Ok started, s') →
  startedFrom svc transformOptions (_getModuleId s') edge started.
Proof.
  unfold _transformModule_call.
  intros ([] & s0 & Hemit & Hrun)%bind_Ok.
  apply emit_ids in Hemit.
  apply bind_Ok in Hrun as (wrapped & s1 & Hwrap & Hrun).
  apply wrapModule_run in Hwrap as ([= ->] & Ha1 & Hw1).
  assert (Hdeps : ∀ p, p ∈ (DependencyEdge.dependencies edge).*2 →
                       is_Some (Allocator.fileToIdMap (_getModuleId s1) !! p)).
  { intros p Hp. rewrite Ha1. by apply getModuleIds_lookup. }
  destruct (JSTransformerOptions.minify transformOptions) eqn:Hminify.
  - apply bind_Ok in Hrun as (minified & s2 & Hissue & [[= ->] ->]%ret_run).
    assert (_getModuleId s2 = _getModuleId s1) as Ha2
      by (by apply issue_ids in Hissue).
    cbn. rewrite Ha2. split_and!; [done..|].
    exists (world s1). unfold issue in Hissue.
    destruct (minifyModule svc _ _ _ (world s1)) as [r w].
    by injection Hissue as <- _.
  - apply bind_Ok in Hrun as (entry & s2 & Hfinish & [[= ->] ->]%ret_run).
    apply transformModule_finish_run in Hfinish
      as (id & [= ->] & Hid & Ha2 & _).
    cbn. rewrite Ha2.
    assert (Hassigned : assigned (Allocator.getModuleIds
                                    [DependencyEdge.path edge]
                                    (_getModuleId s1)) edge).
    { intros p [->|Hp]%elem_of_cons.
      - apply getModuleIds_lookup. by left.
      - by apply is_Some_stable, Hdeps. }
    split; [done|]. split.
    { cbn [fst]. symmetry. apply idOf_lookup. by rewrite <- Ha2. }
    eexists. split; [done|]. cbn [DeltaEntry.code DeltaEntry.id DeltaEntry.map
      DeltaEntry.name DeltaEntry.source DeltaEntry.path DeltaEntry.type fst snd].
    rewrite Hminify.
    split_and!; [done..| |done].
    symmetry.
    exact (wrappedWith_stable svc transformOptions
             [DependencyEdge.path edge] _ edge Hdeps).
Qed.

Lemma transformModule_resume_run module k s entry s' :
  suspendedFrom svc transformOptions (_getModuleId s) module k →
  _transformModule_resume k s = (Ok entry, s') →
  transformed svc transformOptions (_getModuleId s') module entry.
Proof.
  intros (Hdeps & Hminify & Hedge & Hname & Hminified).
  unfold _transformModule_resume.
  intros (minified & s0 & [= Hk <-] & Hfinish)%bind_Ok.
  apply transformModule_finish_run in Hfinish as (id & [= ->] & Hid & Ha & _).
  rewrite Hedge in Hid, Ha |- *. rewrite Ha.
  split; [|split].
  - intros p [->|Hp]%elem_of_cons.
    + apply getModuleIds_lookup. by left.
    + by apply is_Some_stable, Hdeps.
  - cbn [fst]. symmetry. apply idOf_lookup. by rewrite <- Ha.
  - eexists. split; [done|]. cbn [DeltaEntry.code DeltaEntry.id DeltaEntry.map
      DeltaEntry.name DeltaEntry.source DeltaEntry.path DeltaEntry.type fst snd].
    rewrite Hminify.
    split_and!; [done..|]. apply minifiedFrom_stable; [done|].
    rewrite Hk in Hminified. by destruct minified.
Qed.

Lemma calls_run modules :
  ∀ s started s',
    mapM (_transformModule_call svc transformOptions) modules s
    = (Ok started, s') →
    Forall2 (startedFrom svc transformOptions (_getModuleId s'))
      modules started.
Proof.
  induction modules as [|module modules IH]; intros s started s'.
  - intros [[= ->] _]%ret_run. constructor.
  - cbn [mapM].
    intros (st & s1 & Hcall & Hrun)%bind_Ok.
    apply bind_Ok in Hrun as (sts & s2 & Hcalls & [[= ->] ->]%ret_run).
    assert (idsKept s1 s2) as [l Hl].
    { assert (respects (@idsKept W R)
                (mapM (_transformModule_call svc transformOptions) modules))
        as Hr by (apply respects_mapM; [tc_solve|];
                  apply transformModule_call_idsKept).
      by eapply Hr. }
    constructor; [|by eapply IH].
    rewrite Hl. apply startedFrom_stable. by eapply transformModule_call_run.
Qed.

End Batch.

Section All.
Context {W R : Type} (svc : Services W R).
Context (transformOptions : JSTransformerOptions.t).
Implicit Types (s : DeltaTransformer W R Allocator.t) (a : Allocator.t).

Lemma suspendedAt_lookup (started : list Started) :
  ∀ i j k,
    (j, k) ∈ suspendedAt i started →
    i ≤ j ∧ started !! (j - i) = Some (Awaiting k).
Proof.
  induction started as [|st started IH]; intros i j k; cbn.
  - by intros ?%elem_of_nil.
  - destruct st as [entry|k'].
    + intros [Hle Hk]%IH. split; [lia|].
      replace (j - i) with (S (j - S i)) by lia. done.
    + intros [[= -> ->]|[Hle Hk]%IH]%elem_of_cons.
      * split; [lia|]. by rewrite Nat.sub_diag.
      * split; [lia|]. by replace (j - i) with (S (j - S i)) by lia.
Qed.

Lemma resumes_run modules started (order : list (nat * Suspended)) :
  ∀ slots s slots' s',
    (∀ ik, ik ∈ order → started !! ik.1 = Some (Awaiting ik.2)) →
    Forall2 (startedFrom svc transformOptions (_getModuleId s))
      modules started →
    slotsFrom svc transformOptions (_getModuleId s) modules slots →
    foldlM (λ slots ik,
              entry ← _transformModule_resume ik.2;
              mret (<[ik.1 := Some entry]> slots))
           slots order s = (Ok slots', s') →
    slotsFrom svc transformOptions (_getModuleId s') modules slots'
    ∧ length slots' = length slots.
Proof.
  induction order as [|[i k] order IH];
    intros slots s slots' s' Horder Hstarted Hslots.
  - by intros [[= ->] ->]%ret_run.
  - cbn [foldlM]. intros (slots1 & s1 & Hstep & Hrest)%bind_Ok.
    apply bind_Ok in Hstep as (entry & s0 & Hresume & [[= ->] ->]%ret_run).
    cbn [fst snd] in Hresume.
    assert (Hik : started !! i = Some (Awaiting k)).
    { apply (Horder (i, k)). by left. }
    destruct (Forall2_lookup_r _ _ _ _ _ Hstarted Hik)
      as (module & Hmodule & Hfrom).
    pose proof (transformModule_resume_run svc transformOptions module k
                  s entry s0 Hfrom Hresume) as Hentry.
    assert (idsKept s s0) as [l Hl]
      by (by eapply transformModule_resume_idsKept).
    apply IH in Hrest as [Hslots' Hlen].
    + split; [done|]. by rewrite Hlen, length_insert.
    + intros ik Hin. apply Horder. by right.
    + rewrite Hl. eapply Forall2_impl; [done|].
      intros m st. apply startedFrom_stable.
    + intros i' m kv Hm Hkv. cbn [fst] in Hkv.
      destruct (decide (i' = i)) as [->|Hne].
      * destruct (decide (i < length slots)).
        -- rewrite list_lookup_insert_eq in Hkv by done.
           injection Hkv as <-. congruence.
        -- rewrite list_insert_ge in Hkv by lia.
           rewrite Hl. by eapply transformed_stable, Hslots.
      * rewrite list_lookup_insert_ne in Hkv by done.
        rewrite Hl. by eapply transformed_stable, Hslots.
Qed.

Lemma Promise_all_run modules started s entries s' :
  Forall2 (startedFrom svc transformOptions (_getModuleId s))
    modules started →
  Promise_all svc started s = (Ok entries, s') →
  Forall2 (transformed svc transformOptions (_getModuleId s'))
    modules entries.
Proof.
  intros Hstarted. unfold Promise_all.
  intros (w & s0 & [= <- <-] & Hrun)%bind_Ok.
  apply bind_Ok in Hrun as (slots & s1 & Hresumes & Hall).
  destruct (mapM _ slots) as [entries'|] eqn:Hslots; [|done].
  apply ret_run in Hall as [[= ->] ->].
  apply resumes_run with (modules := modules) (started := started)
    in Hresumes as [Hfrom Hlen].
  - apply mapM_Some in Hslots.
    apply Forall2_same_length_lookup. split.
    + rewrite <- (Forall2_length _ _ _ Hslots), Hlen, length_fmap.
      by eapply Forall2_length.
    + intros i module kv Hmodule Hkv.
      destruct (Forall2_lookup_r _ _ _ _ _ Hslots Hkv) as (o & Ho & ->).
      by eapply Hfrom.
  - intros [i k] Hin.
    eapply elem_of_Permutation_proper in Hin;
      [|symmetry; apply resumeOrder_Permutation].
    apply suspendedAt_lookup in Hin as [_ Hin].
    by rewrite Nat.sub_0_r in Hin.
  - done.
  - intros i module kv Hmodule Hkv.
    rewrite list_lookup_fmap in Hkv.
    destruct (started !! i) as [st|] eqn:Hst; [|done].
    destruct st as [kv'|k]; [|done]. injection Hkv as ->.
    destruct (Forall2_lookup_r _ _ _ _ _ Hstarted Hst)
      as (module' & Hmodule' & Hfrom).
    assert (module' = module) as -> by congruence. done.
Qed.

(** What [_transformModules] resolves to is the [Map] made of one pair
    for each module, in the order of [modules]. *)
Lemma transformModules_run modules s delta s' :
  _transformModules svc modules transformOptions s = (Ok delta, s') →
  ∃ entries,
    delta = JSMap.of_entries entries
    ∧ Forall2 (transformed svc transformOptions (_getModuleId s'))
        modules entries.
Proof.
  unfold _transformModules.
  intros (started & s1 & Hcalls & Hrun)%bind_Ok.
  apply bind_Ok in Hrun as (entries & s2 & Hall & [[= ->] ->]%ret_run).
  exists entries. split; [done|].
  eapply Promise_all_run; [|done]. by eapply calls_run.
Qed.

End All.

Section Delta.
Context {W R : Type} (svc : Services W R).
Context (options : MainOptions.t) (bundleOptions : BundleOptions.t).
Implicit Types (s : DeltaTransformer W R Allocator.t) (a : Allocator.t).

Lemma setDeleted_run deleted :
  ∀ modifiedDelta s delta s',
    setDeleted modifiedDelta deleted s = (Ok delta, s') →
    delta = tombstones (_getModuleId s') deleted modifiedDelta.
Proof.
  unfold setDeleted, tombstones.
  induction deleted as [|path deleted IH]; intros modifiedDelta s delta s';
    cbn [foldlM foldl].
  - by intros [[= ->] _]%ret_run.
  - intros (acc & s1 & Hstep & Hrest)%bind_Ok.
    apply bind_Ok in Hstep as (id & s0 & Hid & [[= ->] ->]%ret_run).
    pose proof Hrest as Hkept%setDeleted_requests.
    apply IH in Hrest as ->. do 2 f_equal.
    apply getModuleId_spec in Hid as ([= ->] & Ha & _).
    symmetry. apply idOf_lookup. rewrite Hkept, Ha.
    apply getModuleIds_stable, getModuleId_lookup.
Qed.

Lemma tombstones_stable l a deleted delta :
  (∀ p, p ∈ deleted → is_Some (Allocator.fileToIdMap a !! p)) →
  tombstones (Allocator.getModuleIds l a) deleted delta
  = tombstones a deleted delta.
Proof.
  unfold tombstones. revert delta.
  induction deleted as [|path deleted IH]; intros delta Hknown; [done|].
  cbn. rewrite idOf_stable by (apply Hknown; by left).
  apply IH. intros p Hp. apply Hknown. by right.
Qed.

Lemma getDelta_resume_delta d s response s' :
  _getDelta_resume svc options bundleOptions (Ok d) s = (Ok response, s') →
  ∃ transformOptions entries,
    (calculator_getTransformerOptions svc (world s)).1 = Ok transformOptions
    ∧ Forall2 (transformed svc transformOptions (_getModuleId s'))
        (DeltaResult.modified d).*2 entries
    ∧ (∀ p, p ∈ DeltaResult.deleted d →
            is_Some (Allocator.fileToIdMap (_getModuleId s') !! p))
    ∧ DeltaTransformResponse.delta response
      = tombstones (_getModuleId s') (DeltaResult.deleted d)
          (JSMap.of_entries entries).
Proof.
  intros Hrun. apply getDelta_resume_Ok in Hrun
    as (d' & transformOptions & s1 & s2 & s3 & modifiedDelta & s4 & s5 & s6
        & [= <-] & _ & Hoptions & Hpre & Hprime & Hbatch & Hdeleted
        & Hpost & Hids & _ & Hworld).
  exists transformOptions.
  apply transformModules_run in Hbatch as (entries & -> & Hentries).
  exists entries.
  pose proof Hdeleted as Hkept%setDeleted_requests.
  apply setDeleted_run in Hdeleted.
  assert (idsKept s5 s6) as [l Hl].
  { destruct (DeltaResult.reset d).
    - apply getAppend_requests in Hpost as [Hl _]. by eexists.
    - apply ret_run in Hpost as [_ ->]. by exists []. }
  assert (Hknown : ∀ p, p ∈ DeltaResult.deleted d →
                        is_Some (Allocator.fileToIdMap (_getModuleId s5) !! p)).
  { intros p Hp. rewrite Hkept. by apply getModuleIds_lookup. }
  rewrite Hids, Hl. split_and!.
  - unfold call in Hoptions.
    destruct (calculator_getTransformerOptions svc (world s)) as [r w].
    by injection Hoptions as -> _.
  - rewrite Hkept, <- getModuleIds_app.
    eapply Forall2_impl; [done|]. intros m kv. apply transformed_stable.
  - intros p Hp. by apply is_Some_stable, Hknown.
  - rewrite Hdeleted. symmetry. by apply tombstones_stable.
Qed.

Lemma JSMap_get_set {V} k k' (v : V) m :
  JSMap.get k (JSMap.set k' v m)
  = if bool_decide (k = k') then Some v else JSMap.get k m.
Proof.
  induction m as [|[k0 v0] m IH]; cbn.
  - done.
  - destruct (bool_decide (k' = k0)) eqn:Hk'; cbn.
    + apply bool_decide_eq_true in Hk' as <-.
      by destruct (bool_decide (k = k')).
    + rewrite IH. apply bool_decide_eq_false in Hk'.
      destruct (bool_decide (k = k')) eqn:Hk, (bool_decide (k = k0)) eqn:Hk0;
        try done.
      apply bool_decide_eq_true in Hk, Hk0. congruence.
Qed.

Lemma tombstones_snoc a deleted path delta :
  tombstones a (deleted ++ [path]) delta
  = JSMap.set (idOf a path) None (tombstones a deleted delta).
Proof. unfold tombstones. by rewrite foldl_app. Qed.

Lemma tombstones_get a deleted delta path :
  path ∈ deleted →
  JSMap.get (idOf a path) (tombstones a deleted delta) = Some None.
Proof.
  induction deleted as [|q deleted IH] using rev_ind.
  - by intros ?%elem_of_nil.
  - rewrite tombstones_snoc, JSMap_get_set.
    intros [Hin|Hin]%elem_of_app.
    + destruct (bool_decide _); [done|by apply IH].
    + apply list_elem_of_singleton in Hin as ->.
      by rewrite bool_decide_eq_true_2.
Qed.

Lemma tombstones_fresh a deleted delta :
  NoDup (delta.*1 ++ (idOf a <$> deleted)) →
  tombstones a deleted delta
  = delta ++ ((λ path, (idOf a path, None)) <$> deleted).
Proof.
  induction deleted as [|q deleted IH] using rev_ind; intros Hnodup.
  - cbn. by rewrite app_nil_r.
  - rewrite fmap_app, app_assoc in Hnodup.
    apply NoDup_app in Hnodup as (Hnodup & Hq & _).
    rewrite tombstones_snoc, IH, fmap_app, app_assoc by done.
    apply JSMap_set_fresh. rewrite fmap_app, <- list_fmap_compose.
    intros Hin. eapply Hq; [done|]. cbn. by left.
Qed.

(** The [delta] of a response, with the allocator of the specification:
    it is the [Map] made of one pair for each modified module, in the
    calculator's enumeration order whatever the order in which the
    minifier answered, in which a tombstone is then set for each deleted
    path.  The options are those the calculator gave to this build, and
    every id is the one the allocator holds when the build ends.  In
    particular a deleted path has a tombstone also when the calculator
    lists a module of that path among the modified ones. *)
Theorem delta_of_build d s response s' :
  _getDelta_resume svc options bundleOptions (Ok d) s = (Ok response, s') →
  (∃ transformOptions entries,
     (calculator_getTransformerOptions svc (world s)).1 = Ok transformOptions
     ∧ Forall2 (transformed svc transformOptions (_getModuleId s'))
         (DeltaResult.modified d).*2 entries
     ∧ DeltaTransformResponse.delta response
       = tombstones (_getModuleId s') (DeltaResult.deleted d)
           (JSMap.of_entries entries))
  ∧ ∀ path,
      path ∈ DeltaResult.deleted d →
      JSMap.get (idOf (_getModuleId s') path)
        (DeltaTransformResponse.delta response)
      = Some None.
Proof.
  intros (transformOptions & entries & Hoptions & Hentries & _ & Hdelta)
    %getDelta_resume_delta.
  split; [by exists transformOptions, entries|].
  intros path Hpath. rewrite Hdelta. by apply tombstones_get.
Qed.

(** When the modified modules and the deleted paths are all different
    paths, the [delta] of a response lists the pairs of the modified
    modules in the calculator's enumeration order, then one tombstone for
    each deleted path in the calculator's order of those, each under the
    id the allocator holds for its path. *)
Theorem delta_layout d s response s' :
  Allocator.wf (_getModuleId s) →
  NoDup ((DependencyEdge.path <$> (DeltaResult.modified d).*2)
           ++ DeltaResult.deleted d) →
  _getDelta_resume svc options bundleOptions (Ok d) s = (Ok response, s') →
  ∃ transformOptions entries,
    (calculator_getTransformerOptions svc (world s)).1 = Ok transformOptions
    ∧ Forall2 (transformed svc transformOptions (_getModuleId s'))
        (DeltaResult.modified d).*2 entries
    ∧ DeltaTransformResponse.delta response
      = entries
          ++ ((λ path, (idOf (_getModuleId s') path, None))
                <$> DeltaResult.deleted d)
    ∧ JSMap.keys (DeltaTransformResponse.delta response)
      = idOf (_getModuleId s')
          <$> ((DependencyEdge.path <$> (DeltaResult.modified d).*2)
                 ++ DeltaResult.deleted d).
Proof.
  intros Hwf Hnodup Hrun.
  assert (Hwf' : Allocator.wf (_getModuleId s')).
  { assert (idsKept s s') as [l ->]
      by (by eapply getDelta_resume_idsKept).
    by apply getModuleIds_wf. }
  apply getDelta_resume_delta in Hrun
    as (transformOptions & entries & Hoptions & Hentries & Hknown & Hdelta).
  exists transformOptions, entries. split; [done|]. split; [done|].
  assert (Hkeys : entries.*1
                  = idOf (_getModuleId s')
                      <$> (DependencyEdge.path <$> (DeltaResult.modified d).*2)).
  { clear -Hentries. induction Hentries as [|m kv ms kvs (_ & Hk & _) _ IH];
      [done|]. cbn. by rewrite Hk, IH. }
  assert (Hids : NoDup (idOf (_getModuleId s')
                          <$> ((DependencyEdge.path
                                  <$> (DeltaResult.modified d).*2)
                                 ++ DeltaResult.deleted d))).
  { apply idOf_NoDup; [done| |done].
    intros p [Hp|Hp]%elem_of_app; [|by apply Hknown].
    apply list_elem_of_fmap in Hp as (m & -> & Hm).
    destruct (proj1 (list_elem_of_lookup _ _) Hm) as [i Hi].
    destruct (Forall2_lookup_l _ _ _ _ _ Hentries Hi)
      as (kv & _ & Hassigned & _).
    apply Hassigned. by left. }
  rewrite fmap_app in Hids.
  assert (Hdelta' : DeltaTransformResponse.delta response
                    = entries
                        ++ ((λ path, (idOf (_getModuleId s') path, None))
                              <$> DeltaResult.deleted d)).
  { rewrite Hdelta, JSMap_of_entries_NoDup.
    - apply tombstones_fresh. by rewrite Hkeys.
    - rewrite Hkeys. by apply NoDup_app in Hids as (? & _). }
  split; [done|].
  unfold JSMap.keys. rewrite Hdelta', !fmap_app, Hkeys.
  f_equal. rewrite <- list_fmap_compose. by apply list_fmap_ext.
Qed.

End Delta.

Section Pre.
Context {W R : Type} (svc : Services W R).
Context (options : MainOptions.t) (bundleOptions : BundleOptions.t).
Implicit Types (s : DeltaTransformer W R Allocator.t) (a : Allocator.t).

Lemma createEdgeFromScript_run file transformOptions s edge s' :
  _createEdgeFromScript svc file transformOptions s = (Ok edge, s') →
  scriptOf svc transformOptions file edge.
Proof.
  unfold _createEdgeFromScript.
  intros (result & s1 & Hread & [[= ->] ->]%ret_run)%bind_Ok.
  split_and!; [done..|]. exists (world s), result.
  split; [|done]. unfold call in Hread.
  destruct (module_read svc file transformOptions (world s)) as [r w].
  by injection Hread as -> _.
Qed.

Lemma createEdges_scripts transformOptions files :
  ∀ s edges s',
    mapM (λ file, _createEdgeFromScript svc file transformOptions) files s
    = (Ok edges, s') →
    Forall2 (scriptOf svc transformOptions) files edges.
Proof.
  induction files as [|file files IH]; intros s edges s'.
  - intros [[= ->] _]%ret_run. constructor.
  - cbn [mapM]. intros (edge & s1 & Hedge & Hrun)%bind_Ok.
    apply bind_Ok in Hrun as (edges' & s2 & Hedges & [[= ->] ->]%ret_run).
    constructor; [by eapply createEdgeFromScript_run|by eapply IH].
Qed.

Lemma getPrepend_run transformOptions s pre s' :
  _getPrepend svc options bundleOptions transformOptions s = (Ok pre, s') →
  ∃ edges entries,
    Forall2 (scriptOf svc transformOptions)
      (prependedFiles svc options bundleOptions) edges
    ∧ Forall2 (transformed svc transformOptions (_getModuleId s'))
        edges entries
    ∧ is_Some (Allocator.fileToIdMap (_getModuleId s') !! "__prelude__")
    ∧ pre
      = JSMap.of_entries
          ((idOf (_getModuleId s') "__prelude__",
            Some (_getPrelude svc bundleOptions
                    (idOf (_getModuleId s') "__prelude__")))
             :: JSMap.of_entries entries).
Proof.
  unfold _getPrepend. intros (preludeId & s0 & Hprelude & Hrun)%bind_Ok.
  apply getModuleId_spec in Hprelude as ([= ->] & Ha0 & _).
  apply bind_Ok in Hrun as (edges & s1 & Hedges & Hrun).
  pose proof Hedges as (Ha1 & _)%createEdges_run.
  apply createEdges_scripts in Hedges.
  apply bind_Ok in Hrun as (entries & s2 & Hbatch & [[= ->] ->]%ret_run).
  assert (idsKept s1 s2) as [l Hl].
  { assert (respects (@idsKept W R)
              (_transformModules svc edges transformOptions)) as Hr.
    { unfold _transformModules, Promise_all, _transformModule_resume,
        _transformModule_call, _transformModule_finish, wrapModule.
      respects_auto. }
    by eapply Hr. }
  apply transformModules_run in Hbatch as (kvs & -> & Hkvs).
  exists edges, kvs.
  assert (Hid : Allocator.fileToIdMap (_getModuleId s2) !! "__prelude__"
                = Some (Allocator.getModuleId "__prelude__" (_getModuleId s)).1).
  { rewrite Hl, Ha1, Ha0. apply getModuleIds_stable, getModuleId_lookup. }
  split_and!.
  - exact Hedges.
  - exact Hkvs.
  - by eexists.
  - by rewrite (idOf_lookup _ _ _ Hid).
Qed.

(** The [pre] of a response with [reset] set, with the allocator of the
    specification, when "__prelude__" and the paths of the module system
    and of the polyfills are all different: the prelude under its id, then
    one script for the module system, then one for each polyfill of
    [getPolyfills] and one for each of [polyfillModuleNames], in that
    order whatever the order in which they were read and minified.  Each
    script carries what reading its file gave, wrapped without
    dependencies. *)
Theorem pre_layout d s response s' :
  Allocator.wf (_getModuleId s) →
  NoDup ("__prelude__" :: scriptPaths svc options bundleOptions) →
  DeltaResult.reset d = true →
  _getDelta_resume svc options bundleOptions (Ok d) s = (Ok response, s') →
  ∃ transformOptions edges entries,
    (calculator_getTransformerOptions svc (world s)).1 = Ok transformOptions
    ∧ Forall2 (scriptOf svc transformOptions)
        (prependedFiles svc options bundleOptions) edges
    ∧ Forall2 (transformed svc transformOptions (_getModuleId s'))
        edges entries
    ∧ DeltaTransformResponse.pre response
      = (idOf (_getModuleId s') "__prelude__",
         Some (_getPrelude svc bundleOptions
                 (idOf (_getModuleId s') "__prelude__")))
          :: entries
    ∧ JSMap.keys (DeltaTransformResponse.pre response)
      = idOf (_getModuleId s')
          <$> "__prelude__" :: scriptPaths svc options bundleOptions.
Proof.
  intros Hwf Hnodup Hreset Hrun.
  assert (Hwf' : Allocator.wf (_getModuleId s')).
  { assert (idsKept s s') as [l ->]
      by (by eapply getDelta_resume_idsKept).
    by apply getModuleIds_wf. }
  apply getDelta_resume_Ok in Hrun
    as (d' & transformOptions & s1 & s2 & s3 & modifiedDelta & s4 & s5 & s6
        & [= <-] & _ & Hoptions & Hpre & Hprime & Hbatch & Hdeleted
        & Hpost & Hids & _ & Hworld).
  rewrite Hreset in Hpre, Hpost.
  assert (idsKept s2 s') as [l Hl].
  { unfold idsKept. rewrite Hids.
    apply getAppend_requests in Hpost as [-> _].
    apply setDeleted_requests in Hdeleted as ->.
    apply transformModules_requests in Hbatch as (batch & -> & _).
    apply precalculateModuleIds_run in Hprime as (_ & -> & _).
    rewrite <- !getModuleIds_app. by eexists. }
  apply getPrepend_run in Hpre
    as (edges & entries & Hedges & Hentries & Hprelude & Hpre).
  exists transformOptions, edges, entries.
  assert (Hpaths : DependencyEdge.path <$> edges
                   = scriptPaths svc options bundleOptions).
  { unfold scriptPaths. change ([moduleSystem svc] ++ ?l) with (moduleSystem svc :: l).
    fold (prependedFiles svc options bundleOptions).
    clear -Hedges. induction Hedges as [|file edge files edges (Hp & _) _ IH];
      [done|]. cbn. by rewrite Hp, IH. }
  assert (Hentries' : Forall2 (transformed svc transformOptions (_getModuleId s'))
                        edges entries).
  { rewrite Hl. eapply Forall2_impl; [done|].
    intros m kv. apply transformed_stable. }
  assert (Hkeys : entries.*1
                  = idOf (_getModuleId s')
                      <$> scriptPaths svc options bundleOptions).
  { rewrite <- Hpaths. clear -Hentries'.
    induction Hentries' as [|m kv ms kvs (_ & Hk & _) _ IH]; [done|].
    cbn. by rewrite Hk, IH. }
  assert (Hsame : idOf (_getModuleId s') "__prelude__"
                  = idOf (_getModuleId s2) "__prelude__").
  { rewrite Hl. by apply idOf_stable. }
  assert (Hdistinct : NoDup (idOf (_getModuleId s')
                               <$> "__prelude__"
                                     :: scriptPaths svc options bundleOptions)).
  { apply idOf_NoDup; [done| |done].
    intros p [->|Hp]%elem_of_cons.
    - rewrite Hl. by apply is_Some_stable.
    - rewrite <- Hpaths in Hp. apply list_elem_of_fmap in Hp as (m & -> & Hm).
      destruct (proj1 (list_elem_of_lookup _ _) Hm) as [i Hi].
      destruct (Forall2_lookup_l _ _ _ _ _ Hentries' Hi)
        as (kv & _ & Hassigned & _).
      apply Hassigned. by left. }
  assert (Hpre' : DeltaTransformResponse.pre response
                  = (idOf (_getModuleId s') "__prelude__",
                     Some (_getPrelude svc bundleOptions
                             (idOf (_getModuleId s') "__prelude__")))
                      :: entries).
  { apply NoDup_cons in Hdistinct as [Hfirst Hrest].
    rewrite Hpre, Hsame, (JSMap_of_entries_NoDup entries)
      by (by rewrite Hkeys).
    apply JSMap_of_entries_NoDup. cbn. rewrite <- Hsame, Hkeys.
    by apply NoDup_cons. }
  split_and!; [|done..|].
  - unfold call in Hoptions.
    destruct (calculator_getTransformerOptions svc (world s)) as [r w].
    by injection Hoptions as -> _.
  - unfold JSMap.keys. rewrite Hpre'. cbn. by rewrite Hkeys.
Qed.

End Pre.

Section Closed.

(** The dependencies of a path that has no record are none; the
    dependencies of a dependency of [p] are dependencies of [p], apart
    from [p] itself when the graph has a cycle through it; and every
    dependency has a record. *)
Theorem getDependencies_closed (edges : DependencyEdges) p deps :
  _getDependencies edges p = Some deps →
  (edges !! p = None → deps = [])
  ∧ ∀ q, q ∈ deps →
      is_Some (edges !! q)
      ∧ ∃ deps', _getDependencies edges q = Some deps'
                 ∧ ∀ r, r ∈ deps' → r = p ∨ r ∈ deps.
Proof.
  intros Hrun.
  destruct (getDependencies_run edges p) as (deps0 & Hrun0 & _ & Hdeps).
  assert (deps0 = deps) as -> by congruence. split.
  - intros Hnone. destruct deps as [|q deps]; [done|]. exfalso.
    destruct (proj1 (Hdeps q)) as (Hne & _ & Hrtc); [by left|].
    inversion Hrtc as [|? y ? Hstep]; subst; [done|].
    destruct Hstep as (edge & Hedge & _). congruence.
  - intros q (Hne & Hq & Hpq)%Hdeps. split; [done|].
    destruct (getDependencies_run edges q) as (deps' & Hrun' & _ & Hdeps').
    exists deps'. split; [done|].
    intros r (Hrq & Hr & Hqr)%Hdeps'.
    destruct (decide (r = p)) as [->|Hrp]; [by left|].
    right. apply Hdeps. split_and!; [done..|]. by etrans.
Qed.

End Closed.

Section Allocates.
Context {W R : Type} (svc : Services W R).
Context (options : MainOptions.t) (bundleOptions : BundleOptions.t).
Implicit Types (s : DeltaTransformer W R Allocator.t) (a : Allocator.t).


End Allocates.

(** *** The sequence id as a string *)

Lemma hexDigit_inj n m :
  n < 16 → m < 16 → hexDigit n = hexDigit m → n = m.
Proof.
  intros Hn Hm.
  do 16 (destruct n as [|n]; [do 16 (destruct m as [|m]; [done|]); lia|]).
  lia.
Qed.

Lemma byte_toHex_inj b1 b2 : byte_toHex b1 = byte_toHex b2 → b1 = b2.
Proof.
  unfold byte_toHex. intros [= Hhi Hlo].
  change (Nat.divmod (Byte.to_nat b1) 15 0 15).1
    with (Byte.to_nat b1 `div` 16) in Hhi.
  change (Nat.divmod (Byte.to_nat b2) 15 0 15).1
    with (Byte.to_nat b2 `div` 16) in Hhi.
  change (15 - (Nat.divmod (Byte.to_nat b1) 15 0 15).2)
    with (Byte.to_nat b1 `mod` 16) in Hlo.
  change (15 - (Nat.divmod (Byte.to_nat b2) 15 0 15).2)
    with (Byte.to_nat b2 `mod` 16) in Hlo.
  pose proof (Byte.to_nat_bounded b1). pose proof (Byte.to_nat_bounded b2).
  apply hexDigit_inj in Hhi;
    [|apply Nat.Div0.div_lt_upper_bound; lia..].
  apply hexDigit_inj in Hlo; [|apply Nat.mod_upper_bound; lia..].
  assert (Byte.to_nat b1 = Byte.to_nat b2) as Heq.
  { rewrite (Nat.div_mod_eq (Byte.to_nat b1) 16),
      (Nat.div_mod_eq (Byte.to_nat b2) 16). congruence. }
  apply (f_equal Byte.of_nat) in Heq. rewrite !Byte.of_to_nat in Heq.
  congruence.
Qed.

Lemma toString_hex_cons b buf :
  toString_hex (b :: buf) = byte_toHex b +:+ toString_hex buf.
Proof. done. Qed.

Lemma byte_toHex_app b rest :
  byte_toHex b +:+ rest
  = String (hexDigit (Byte.to_nat b `div` 16))
      (String (hexDigit (Byte.to_nat b `mod` 16)) rest).
Proof. done. Qed.

Lemma toString_hex_inj buf1 :
  ∀ buf2, toString_hex buf1 = toString_hex buf2 → buf1 = buf2.
Proof.
  induction buf1 as [|b1 buf1 IH]; intros [|b2 buf2].
  - done.
  - by rewrite toString_hex_cons, byte_toHex_app.
  - by rewrite toString_hex_cons, byte_toHex_app.
  - rewrite !toString_hex_cons, !byte_toHex_app.
    intros Heq. injection Heq as Hhi Hlo Hrest.
    f_equal; [|by apply IH].
    apply byte_toHex_inj. unfold byte_toHex.
    f_equal; [exact Hhi|f_equal; exact Hlo].
Qed.

Section Tokens.
Context {W R A : Type} `{!ModuleIdFactory A}.
Context (svc : Services W R).
Context (options : MainOptions.t) (bundleOptions : BundleOptions.t).

(** Two builds that resolve, on this instance or on another, give their
    responses the same sequence id exactly when they drew the same eight
    bytes: the hexadecimal form loses nothing. *)
Theorem sequence_id_injective (rt rt1 rt' rt1' : Runtime W R A) p p'
    build1 build1' response response' :
  step svc options bundleOptions (Settle p) rt = Some rt1 →
  promises rt1 !! p = Some build1 →
  build_outcome build1 = Some (Ok response) →
  step svc options bundleOptions (Settle p') rt' = Some rt1' →
  promises rt1' !! p' = Some build1' →
  build_outcome build1' = Some (Ok response') →
  DeltaTransformResponse.id response = DeltaTransformResponse.id response'
  ↔ (draw svc 8 (entropy (instance rt))).1
    = (draw svc 8 (entropy (instance rt'))).1.
Proof.
  intros Hstep Hb Ho Hstep' Hb' Ho'.
  destruct (step_Settle_outcome svc options bundleOptions p rt rt1 build1
              _ Hstep Hb Ho) as (build & _ & Hrun & _).
  destruct (step_Settle_outcome svc options bundleOptions p' rt' rt1' build1'
              _ Hstep' Hb' Ho') as (build' & _ & Hrun' & _).
  apply getDelta_resume_run in Hrun
    as [(e & [=] & _)|(r & [= <-] & -> & _)].
  apply getDelta_resume_run in Hrun'
    as [(e & [=] & _)|(r' & [= <-] & -> & _)].
  split; [apply toString_hex_inj|by intros ->].
Qed.

End Tokens.

(** ** The transformers of a process *)

Section ProcessFacts.
Context {W R A : Type} `{!ModuleIdFactory A}.
Implicit Types P : Process W R A.

Lemma act_Coupled i action P P' :
  act (Coupled i) action P = Some P' →
  ∃ t rt,
    coupled P !! i = Some t
    ∧ step (_bundler t) (_options t) (_bundleOptions t) action
        (withIds (globalCreateModuleId P) (runtime t)) = Some rt
    ∧ globalCreateModuleId P' = _getModuleId (instance rt)
    ∧ coupled P' !! i
      = Some {| _bundler := _bundler t; _options := _options t;
                _bundleOptions := _bundleOptions t; runtime := rt |}.
Proof.
  cbn. destruct (coupled P !! i) as [t|] eqn:Ht; [|done]. cbn.
  destruct (step _ _ _ action _) as [rt|] eqn:Hstep; [|done]. cbn.
  intros [= <-]. exists t, rt. split_and!; [done..|]. cbn.
  apply list_lookup_insert_eq. by eapply lookup_lt_Some.
Qed.

Lemma act_ids target action P P' :
  act target action P = Some P' →
  ∃ requests,
    globalCreateModuleId P'
    = Allocator.getModuleIds requests (globalCreateModuleId P)
    ∧ (isIsolated target = true → requests = []).
Proof.
  destruct target as [i|i]; cbn.
  - destruct (coupled P !! i) as [t|]; [|done]. cbn.
    destruct (step _ _ _ action _) as [rt|] eqn:Hstep; [|done]. cbn.
    intros [= <-]. cbn.
    apply step_idsKept in Hstep as [requests Hids]. by exists requests.
  - destruct (isolated P !! i) as [t|]; [|done]. cbn.
    destruct (step _ _ _ action _) as [rt|] eqn:Hstep; [|done]. cbn.
    intros [= <-]. by exists [].
Qed.

Lemma acts_ids steps :
  ∀ P P',
    acts steps P = Some P' →
    ∃ requests,
      globalCreateModuleId P'
      = Allocator.getModuleIds requests (globalCreateModuleId P)
      ∧ (forallb (isIsolated ∘ fst) steps = true → requests = []).
Proof.
  induction steps as [|[target action] steps IH]; intros P P'; cbn.
  - intros [= <-]. by exists [].
  - destruct (act target action P) as [P1|] eqn:Hact; [|done]. cbn.
    intros (l2 & -> & Hl2)%IH. apply act_ids in Hact as (l1 & -> & Hl1).
    exists (l1 ++ l2). rewrite getModuleIds_app. split; [done|].
    intros [H1 H2]%andb_prop. by rewrite Hl1, Hl2.
Qed.





(** A transformer constructed without [isolateModuleIDs] shares its ids
    with the others of its kind.  Say the factory of line 59 holds an id
    for a path when the transformer is constructed, whichever transformer
    asked for it.  Then however the calls of the transformers of the
    process interleave afterwards, when a build of the new transformer
    returns, the factory still holds that id for the path and the pairs of
    the [delta] are stored under the ids the factory holds.  The steps of
    the transformers that have a factory of their own leave the factory
    of line 59 as it is. *)
Theorem coupled_transformers_share_ids bundler options bundleOptions factory
    w r steps P P1 q P2 t build d response path id :
  Allocator.fileToIdMap (globalCreateModuleId P) !! path = Some id →
  acts steps (constructor bundler options bundleOptions false factory w r P)
  = Some P1 →
  act (Coupled (length (coupled P))) (Settle q) P1 = Some P2 →
  coupled P2 !! length (coupled P) = Some t →
  promises (runtime t) !! q = Some build →
  build_answer build = Ok d →
  build_outcome build = Some (Ok response) →
  idOf (globalCreateModuleId P2) path = id
  ∧ (forallb (isIsolated ∘ fst) steps = true →
     globalCreateModuleId P1 = globalCreateModuleId P)
  ∧ ∃ transformOptions entries,
      Forall2 (transformed (_bundler t) transformOptions
                 (globalCreateModuleId P2))
        (DeltaResult.modified d).*2 entries
      ∧ DeltaTransformResponse.delta response
        = tombstones (globalCreateModuleId P2) (DeltaResult.deleted d)
            (JSMap.of_entries entries).
Proof.
  intros Hid Hsteps Hact Ht Hbuild Hanswer Houtcome.
  apply acts_ids in Hsteps as (l1 & Hl1 & Hisolated). cbn in Hl1.
  pose proof Hact as (l2 & Hl2 & _)%act_ids.
  split; [|split].
  - apply idOf_lookup. rewrite Hl2, Hl1. by do 2 apply getModuleIds_stable.
  - intros ->%Hisolated. by rewrite Hl1.
  - apply act_Coupled in Hact as (t1 & rt & Ht1 & Hstep & Hglobal & Ht').
    rewrite Ht' in Ht. injection Ht as <-. cbn in Hbuild |- *.
    rewrite Hglobal.
    destruct (step_Settle_outcome _ _ _ _ _ _ _ _ Hstep Hbuild Houtcome)
      as (build0 & Hbuild0 & Hrun & _).
    apply step_Settle in Hstep as (build0' & outcome & Hb & _ & _ & Hps & _).
    assert (build0' = build0) as -> by congruence.
    rewrite Hps in Hbuild.
    rewrite list_lookup_insert_eq in Hbuild by (by eapply lookup_lt_Some).
    injection Hbuild as <-. cbn in Hanswer. rewrite Hanswer in Hrun.
    apply getDelta_resume_delta in Hrun
      as (transformOptions & entries & _ & Hentries & _ & Hdelta).
    by exists transformOptions, entries.
Qed.


End ProcessFacts.

(** ** The properties on the concrete world *)

Lemma duringFirstCall_reachable :
  reachable Demo.services Demo.options Demo.bundleOptions Demo.duringFirstCall.
Proof.
  exists (Allocator.createModuleIdFactory 0),
    (Demo.world [Ok (Demo.firstBuild, Demo.graphAB)]), 0, [Call None].
  vm_compute. reflexivity.
Defined.

Lemma module_ids_kept_witness :
  Allocator.wf (_getModuleId (instance Demo.afterFirstCall)).
Proof.
  apply (module_ids_kept Demo.services Demo.options Demo.bundleOptions
           Demo.firstCall
           (Demo.start (Demo.world [Ok (Demo.firstBuild, Demo.graphAB)]))
           Demo.afterFirstCall).
  - vm_compute. reflexivity.
  - apply createModuleIdFactory_wf.
Defined.

Lemma getDependenciesFn_initialized_witness :
  ∃ f deps,
    getDependenciesFn Demo.services Demo.options Demo.bundleOptions
      Demo.initialized = (Ok f, Demo.initialized)
    ∧ f (world Demo.initialized) "/index.js" = Some deps
    ∧ NoDup deps.
Proof.
  destruct (getDependenciesFn_initialized Demo.services Demo.options
              Demo.bundleOptions Demo.initialized)
    as (f & Hrun & Hf); [by vm_compute|].
  destruct (Hf (world Demo.initialized) "/index.js")
    as (deps & Hdeps & Hnodup & _).
  exists f, deps. split; [exact Hrun|]. split; [exact Hdeps|exact Hnodup].
Defined.

Lemma getDependenciesFn_uninitialized_witness :
  _currentBuildPromise Demo.afterGetDependenciesFn = None
  ∧ _lastSequenceId Demo.afterGetDependenciesFn = Some "0001020304050607".
Proof.
  destruct (getDependenciesFn_uninitialized Demo.services Demo.options
              Demo.bundleOptions Demo.uninitialized
              (Ok (this_getDependencies Demo.services))
              Demo.afterGetDependenciesFn)
    as (_ & Hgate & [(e & [=] & _)|[_ Hlast]]);
    [by vm_compute..|].
  split; [exact Hgate|exact Hlast].
Defined.

Lemma initialized_run :
  getInverseDependencies Demo.services Demo.options Demo.bundleOptions
    Demo.entries Demo.initialized
  = (Ok Demo.inverseDependencies, Demo.afterInverseDependencies).
Proof. by vm_compute. Defined.

Lemma getInverseDependencies_initialized_witness :
  Ok Demo.inverseDependencies
  = Ok (inverseEntry (_getModuleId Demo.afterInverseDependencies)
          <$> Demo.entries
                (calculator_getGraph Demo.services (world Demo.initialized)))
  ∧ world Demo.afterInverseDependencies = world Demo.initialized.
Proof.
  assert (Hwf : Allocator.wf (_getModuleId Demo.initialized))
    by apply createModuleIdFactory_wf.
  assert (Hnodup : NoDup (Demo.entries
                            (calculator_getGraph Demo.services
                               (world Demo.initialized))).*1)
    by apply NoDup_fst_map_to_list.
  assert (Hsize : size (calculator_getGraph Demo.services
                          (world Demo.initialized)) ≠ 0)
    by (by vm_compute).
  pose proof (getInverseDependencies_initialized Demo.services Demo.options
                Demo.bundleOptions Demo.entries Demo.initialized
                (Ok Demo.inverseDependencies) Demo.afterInverseDependencies
                Hwf Hnodup Hsize initialized_run) as (Houtput & _ & Hworld & _).
  split; [exact Houtput|exact Hworld].
Defined.

Lemma getInverseDependencies_lookup_witness :
  NoDup Demo.inverseDependencies.*1
  ∧ length Demo.inverseDependencies
    = size (calculator_getGraph Demo.services
              (world Demo.afterInverseDependencies)).
Proof.
  assert (Hwf : Allocator.wf (_getModuleId Demo.initialized))
    by apply createModuleIdFactory_wf.
  assert (Hentries : ∀ g, Demo.entries g ≡ₚ map_to_list g) by done.
  pose proof (getInverseDependencies_lookup Demo.services Demo.options
                Demo.bundleOptions Demo.entries Demo.initialized
                Demo.inverseDependencies Demo.afterInverseDependencies
                Hwf Hentries initialized_run) as (Hnodup & Hlength & _).
  split; [exact Hnodup|exact Hlength].
Defined.

Lemma getDelta_quiesces_witness :
  ∃ actions rt',
    run Demo.services Demo.options Demo.bundleOptions actions
      Demo.duringFirstCall = Some rt'
    ∧ Forall finished (callers rt')
    ∧ _currentBuildPromise (instance rt') = None.
Proof.
  destruct (getDelta_quiesces Demo.services Demo.options Demo.bundleOptions
              Demo.duringFirstCall duringFirstCall_reachable)
    as (actions & rt' & _ & Hrun & _ & Hfinished & Hgate).
  exists actions, rt'. split; [exact Hrun|]. split; [exact Hfinished|exact Hgate].
Defined.

Lemma builds_overlap_witness :
  ∃ rt2 build1 build2,
    run Demo.services Demo.options Demo.bundleOptions [Resume 1; Resume 2]
      Demo.threeCallers = Some rt2
    ∧ promises rt2 = promises Demo.threeCallers ++ [build1; build2]
    ∧ build_outcome build1 = None
    ∧ build_outcome build2 = None.
Proof.
  destruct (builds_overlap Demo.services Demo.options Demo.bundleOptions
              Demo.threeCallers 1 2 false false 0
              {| build_answer := Ok Demo.firstBuild;
                 build_outcome := Some (Ok Demo.firstResponse) |}
              Demo.firstResponse)
    as (rt2 & build1 & build2 & Hrun & Hpromises & Ho1 & Ho2 & _);
    [done|reflexivity..|].
  exists rt2, build1, build2.
  split; [exact Hrun|]. split; [exact Hpromises|]. split; [exact Ho1|exact Ho2].
Defined.

Lemma sequence_id_handshake_witness :
  resetRequested (instance Demo.settledFirstCall) (Some "0001020304050607")
  = false
  ∧ resetRequested (instance Demo.settledFirstCall) None = true.
Proof.
  split.
  - apply (sequence_id_handshake Demo.services Demo.options
             Demo.bundleOptions Demo.duringFirstCall Demo.settledFirstCall 0
             {| build_answer := Ok Demo.firstBuild;
                build_outcome := Some (Ok Demo.firstResponse) |}
             Demo.firstResponse (Some "0001020304050607")); reflexivity.
  - reflexivity.
Defined.

Lemma delta_of_build_witness :
  JSMap.get (idOf (_getModuleId (instance Demo.settledSecondCall)) "/b.js")
    (DeltaTransformResponse.delta Demo.incrementalResponse)
  = Some None.
Proof.
  destruct (delta_of_build Demo.services Demo.options Demo.bundleOptions
              Demo.secondBuild (instance Demo.duringSecondCall)
              Demo.incrementalResponse (instance Demo.settledSecondCall))
    as [_ Hdeleted]; [by vm_compute|].
  apply (Hdeleted "/b.js"). apply (bool_decide_unpack _). by vm_compute.
Defined.

Lemma delta_layout_witness :
  JSMap.keys (DeltaTransformResponse.delta Demo.firstResponse)
  = idOf (_getModuleId (instance Demo.settledFirstCall))
      <$> ["/b.js"; "/index.js"].
Proof.
  destruct (delta_layout Demo.services Demo.options Demo.bundleOptions
              Demo.firstBuild (instance Demo.duringFirstCall)
              Demo.firstResponse (instance Demo.settledFirstCall))
    as (transformOptions & entries & _ & _ & _ & Hkeys).
  - apply createModuleIdFactory_wf.
  - apply (bool_decide_unpack (NoDup _)). by vm_compute.
  - by vm_compute.
  - exact Hkeys.
Defined.

Lemma pre_layout_witness :
  JSMap.keys (DeltaTransformResponse.pre Demo.firstResponse)
  = idOf (_getModuleId (instance Demo.settledFirstCall))
      <$> ["__prelude__"; "/polyfills/require.js";
           "/polyfills/Object.es6.js"].
Proof.
  destruct (pre_layout Demo.services Demo.options Demo.bundleOptions
              Demo.firstBuild (instance Demo.duringFirstCall)
              Demo.firstResponse (instance Demo.settledFirstCall))
    as (transformOptions & edges & entries & _ & _ & _ & _ & Hkeys).
  - apply createModuleIdFactory_wf.
  - apply (bool_decide_unpack (NoDup _)). by vm_compute.
  - reflexivity.
  - by vm_compute.
  - exact Hkeys.
Defined.

Lemma getDependencies_closed_witness :
  is_Some (Demo.graphCycle !! "/b.js")
  ∧ ∃ deps', _getDependencies Demo.graphCycle "/b.js" = Some deps'
             ∧ ∀ r, r ∈ deps' → r = "/index.js" ∨ r ∈ ["/b.js"].
Proof.
  destruct (getDependencies_closed Demo.graphCycle "/index.js" ["/b.js"])
    as [_ Hclosed]; [by vm_compute|].
  apply (Hclosed "/b.js"). apply (bool_decide_unpack _). by vm_compute.
Defined.


Lemma sequence_id_injective_witness :
  DeltaTransformResponse.id Demo.firstResponse
  = DeltaTransformResponse.id Demo.minifiedFirst.
Proof.
  apply (sequence_id_injective Demo.services Demo.options Demo.bundleOptions
           Demo.duringFirstCall Demo.settledFirstCall
           Demo.duringMinifyingFirst Demo.settledMinifyingFirst 0 0
           {| build_answer := Ok Demo.firstBuild;
              build_outcome := Some (Ok Demo.firstResponse) |}
           {| build_answer := Ok Demo.firstBuild;
              build_outcome := Some (Ok Demo.minifiedFirst) |}
           Demo.firstResponse Demo.minifiedFirst);
    reflexivity.
Defined.

Lemma coupled_transformers_share_ids_witness :
  idOf (globalCreateModuleId Demo.afterSecondBuild) "/b.js" = 3.
Proof.
  apply (coupled_transformers_share_ids Demo.services Demo.options
           Demo.entryFirst (Allocator.createModuleIdFactory 0)
           (Demo.world [Ok (Demo.firstBuild, Demo.graphAB)]) 0
           Demo.secondSteps Demo.afterFirstBuild Demo.duringSecondBuild 0
           Demo.afterSecondBuild Demo.secondTransformer
           {| build_answer := Ok Demo.firstBuild;
              build_outcome := Some (Ok Demo.secondResponse) |}
           Demo.firstBuild Demo.secondResponse "/b.js" 3);
    by vm_compute.
Defined.

